(** * Streaming audio-decode buffering engine of kleitor

    A shallow embedding of the Ogg Vorbis audio source of
    [src/engine/audio.c] (open phase, steady-state [read_pcm], sample
    serialisation) and of the chunked buffering utility
    [rbtk_buffer_remaining] of [src/runtime/stream.c], with the properties
    the specification states about them.

    Conventions.
    - [size_t] is a 64-bit unsigned integer, [int] a 32-bit and [short] a
      16-bit two's complement integer; each is a [Z] and every arithmetic
      operation of the source writes its wrap-around out.
    - A byte is a [Z] in [0, 255]; a buffer is a [list Z].
    - A [float] sample is a rational [Q].  The only float operation of the
      source is the product by the power of two 32768, which is exact in
      binary floating point, followed by the conversion to [short].
    - The byte source ([RBTK_IN_STREAM]) and the push-data decoder
      (stb_vorbis) are external collaborators: they are interfaces here,
      and the engine is defined over any implementation of them.
    - The C heap is a list of live blocks; [malloc] follows a plan of
      outcomes, so that any allocation can be made to fail. *)

From Stdlib Require Import ZArith List Lia QArith Bool.
Import ListNotations.
Open Scope Z_scope.

(* ================================================================= *)
(** ** Machine integers *)

Module Mach.

Definition SIZE_MOD : Z := 2 ^ 64.
Definition SIZE_MAX : Z := SIZE_MOD - 1.
Definition INT_MAX : Z := 2147483647.

(** The end-of-source sentinel of <stdio.h>. *)
Definition EOF : Z := -1.

Definition size_wrap (x : Z) : Z := x mod SIZE_MOD.
Definition size_add (a b : Z) : Z := size_wrap (a + b).
Definition size_sub (a b : Z) : Z := size_wrap (a - b).
Definition size_mul (a b : Z) : Z := size_wrap (a * b).

(** Conversions to the narrower signed types keep the low bits. *)
Definition to_int (x : Z) : Z := (x + 2 ^ 31) mod 2 ^ 32 - 2 ^ 31.
Definition to_short (x : Z) : Z := (x + 32768) mod 65536 - 32768.
Definition to_uchar (x : Z) : Z := x mod 256.

(** [(unsigned int) x] for an [int] x. *)
Definition to_uint (x : Z) : Z := x mod 2 ^ 32.

End Mach.
Import Mach.

(* ================================================================= *)
(** ** [src/runtime/common.c]: clamping *)

Definition rbtk_clamp_i16 (val min max : Z) : Z :=
  let t := if val <? min then min else val in
  if t >? max then max else t.

(* ================================================================= *)
(** ** Sample conversion ([PCM_FROM_VORBIS_SAMPLE]) *)

(** Float to integer conversion discards the fractional part. *)
Definition Qtrunc (q : Q) : Z := Z.quot (Qnum q) (Zpos (Qden q)).

(** [rbtk_clamp_i16((short) (32768 * (_sample)), -32768, 32767)]: the
    product is converted to [short] first, the clamp receives a [short]. *)
Definition PCM_FROM_VORBIS_SAMPLE (sample : Q) : Z :=
  rbtk_clamp_i16 (to_short (Qtrunc (inject_Z 32768 * sample))) (-32768) 32767.

(** What the source stores for one sample: [pcm & 0x00FF] then
    [(pcm & 0xFF00) >> 8], each converted to [unsigned char]. *)
Definition pcm_low_byte (pcm : Z) : Z :=
  to_uchar (Z.shiftr (Z.land pcm 255) 0).
Definition pcm_high_byte (pcm : Z) : Z :=
  to_uchar (Z.shiftr (Z.land pcm 65280) 8).

(** The conversion the specification describes, for comparison: scale,
    then clamp the scaled value, then narrow. *)
Definition spec_pcm_of_sample (sample : Q) : Z :=
  rbtk_clamp_i16 (Qtrunc (inject_Z 32768 * sample)) (-32768) 32767.

(* ================================================================= *)
(** ** The C heap and the error signal *)

Inductive rbtk_error : Type :=
| RBTK_ERROR_UNSUPPORTED
| RBTK_ERROR_OUT_OF_MEMORY
| RBTK_ERROR_IO.

(** A pointer is the identifier of a live block, or NULL. *)
Definition ptr : Type := option nat.
Definition NULL : ptr := None.

Record world : Type := mkWorld {
  heap : list (nat * Z);        (* live blocks, with their sizes *)
  next_block : nat;             (* identifier of the next block *)
  malloc_plan : list bool;      (* outcomes of the coming malloc calls;
                                   once exhausted every call succeeds *)
  last_error : option rbtk_error
}.

Definition malloc (w : world) (size : Z) : ptr * world :=
  let ok := match malloc_plan w with [] => true | b :: _ => b end in
  let plan := tl (malloc_plan w) in
  if ok then
    (Some (next_block w),
     mkWorld ((next_block w, size) :: heap w) (S (next_block w)) plan
             (last_error w))
  else
    (NULL, mkWorld (heap w) (next_block w) plan (last_error w)).

(** [free(NULL)] does nothing. *)
Definition free (w : world) (p : ptr) : world :=
  match p with
  | None => w
  | Some b =>
      mkWorld (filter (fun blk => negb (Nat.eqb (fst blk) b)) (heap w))
              (next_block w) (malloc_plan w) (last_error w)
  end.

Definition rbtk_signal_error (w : world) (e : rbtk_error) : world :=
  mkWorld (heap w) (next_block w) (malloc_plan w) (Some e).

(** How a call ends: normally, in undefined behaviour (a failed [assert],
    an access outside a buffer, a [memcpy] of a wrapped-around length), or
    with the iteration budget of the model exhausted. *)
Inductive outcome (A : Type) : Type :=
| Done (a : A)
| Undefined
| OutOfFuel.
Arguments Done {A} a.
Arguments Undefined {A}.
Arguments OutOfFuel {A}.

(* ================================================================= *)
(** ** Buffers *)

(** [memcpy(buf + off, bytes, length bytes)]; defined only inside [buf]. *)
Definition blit (buf : list Z) (off : Z) (bytes : list Z) : option (list Z) :=
  if (0 <=? off) && (off + Z.of_nat (length bytes) <=? Z.of_nat (length buf))
  then Some (firstn (Z.to_nat off) buf ++ bytes
             ++ skipn (Z.to_nat off + length bytes) buf)
  else None.

(** [buf[i] = b], for [i] inside [buf]. *)
Fixpoint store (buf : list Z) (i : nat) (b : Z) : list Z :=
  match buf, i with
  | [], _ => []
  | _ :: t, O => b :: t
  | h :: t, S j => h :: store t j b
  end.

(** Fresh memory from [malloc] holds indeterminate bytes; the model fills
    it with zeros. *)
Definition fresh_bytes (n : Z) : list Z := repeat 0 (Z.to_nat n).

Definition slice (buf : list Z) (off n : Z) : option (list Z) :=
  if (0 <=? off) && (0 <=? n) && (off + n <=? Z.of_nat (length buf))
  then Some (firstn (Z.to_nat n) (skipn (Z.to_nat off) buf))
  else None.

(* ================================================================= *)
(** ** External collaborators *)

(** One decoded frame: for each channel, its array of samples
    ([float **] in the source). *)
Definition frame : Type := list (list Q).

(** [samples[c][s]]. *)
Definition sample_at (samples : frame) (c s : Z) : Q :=
  nth (Z.to_nat s) (nth (Z.to_nat c) samples []) (0 # 1).

(** The byte source, [RBTK_IN_STREAM]: its [read_bytes] function is asked
    for [len] bytes and hands back the bytes it delivers. *)
Class InStream (Src : Type) : Type := {
  funs_read_bytes : Src -> Z -> Src * list Z
}.

(** The push-data interface of stb_vorbis.  The decoder is handed the
    buffer and a length; it answers with the bytes it used and the samples
    it produced. *)
Inductive open_result (Dec : Type) : Type :=
| Opened (decoder : Dec) (bytes_consumed : Z)
| NotOpened (vorbis_error : Z).
Arguments Opened {Dec} decoder bytes_consumed.
Arguments NotOpened {Dec} vorbis_error.

Record frame_result (Dec : Type) : Type := mkFrameResult {
  fr_decoder : Dec;
  fr_bytes_used : Z;
  fr_output : option frame;   (* [None]: the output argument is left as is *)
  fr_samples : Z
}.
Arguments mkFrameResult {Dec}.
Arguments fr_decoder {Dec}.
Arguments fr_bytes_used {Dec}.
Arguments fr_output {Dec}.
Arguments fr_samples {Dec}.

Class PushDecoder (Dec : Type) : Type := {
  stb_vorbis_open_pushdata : list Z -> Z -> open_result Dec;
  stb_vorbis_decode_frame_pushdata : Dec -> list Z -> Z -> frame_result Dec;
  (* sample_rate and channels of [stb_vorbis_get_info] *)
  stb_vorbis_get_info : Dec -> Z * Z
}.

(** [enum STBVorbisError] of stb_vorbis. *)
Definition VORBIS_need_more_data : Z := 1.

Definition MIN_BUFSIZE : Z := 4096.
Definition MAX_BUFSIZE : Z := 176400.
Definition VORBIS_BITS_PER_SAMPLE : Z := 16.
Definition VORBIS_BYTES_PER_SAMPLE : Z := 2.

(** Sizes of the structures handed to [malloc] (LP64 layout). *)
Definition sizeof_vorbis_audio_source : Z := 88.
Definition sizeof_audio_source : Z := 40.
Definition sizeof_buffer_chunk : Z := 1040.

(* ================================================================= *)
(** ** [src/engine/audio.c]: the Ogg Vorbis audio source *)

Section VorbisSource.

Context {Src Dec : Type} {IS : InStream Src} {PD : PushDecoder Dec}.

(** [rbtk_read_bytes(in, buf, off, len)]: the bytes the stream delivers
    land at [buf + off]; the count is returned. *)
Definition rbtk_read_bytes (i : Src) (buf : list Z) (off len : Z)
  : outcome (Src * list Z * Z) :=
  let (i', bytes) := funs_read_bytes i len in
  match blit buf off bytes with
  | Some buf' => Done (i', buf', Z.of_nat (length bytes))
  | None => Undefined
  end.

(** [struct rbtk_vorbis_audio_source].  The buffer is a pointer to a heap
    block together with the bytes the block holds. *)
Record rbtk_vorbis_audio_source : Type := mkVorbis {
  in_ : Src;
  buffer : ptr;
  buffer_data : list Z;
  buffer_size : Z;
  buffer_offset : Z;
  decoder : option Dec;
  header_size : Z;
  expected_offset : Z;
  channels : Z;
  outputs : option frame;
  outputs_index : Z;
  outputs_size : Z
}.

Definition set_in (v : rbtk_vorbis_audio_source) (i : Src) :=
  mkVorbis i (buffer v) (buffer_data v) (buffer_size v) (buffer_offset v)
    (decoder v) (header_size v) (expected_offset v) (channels v)
    (outputs v) (outputs_index v) (outputs_size v).

Definition set_buffer (v : rbtk_vorbis_audio_source)
    (p : ptr) (data : list Z) (size : Z) :=
  mkVorbis (in_ v) p data size (buffer_offset v)
    (decoder v) (header_size v) (expected_offset v) (channels v)
    (outputs v) (outputs_index v) (outputs_size v).

Definition set_buffer_data (v : rbtk_vorbis_audio_source) (data : list Z) :=
  set_buffer v (buffer v) data (buffer_size v).

Definition set_buffer_offset (v : rbtk_vorbis_audio_source) (off : Z) :=
  mkVorbis (in_ v) (buffer v) (buffer_data v) (buffer_size v) off
    (decoder v) (header_size v) (expected_offset v) (channels v)
    (outputs v) (outputs_index v) (outputs_size v).

Definition set_decoder (v : rbtk_vorbis_audio_source) (d : option Dec) :=
  mkVorbis (in_ v) (buffer v) (buffer_data v) (buffer_size v)
    (buffer_offset v) d (header_size v) (expected_offset v) (channels v)
    (outputs v) (outputs_index v) (outputs_size v).

Definition set_header_size (v : rbtk_vorbis_audio_source) (h : Z) :=
  mkVorbis (in_ v) (buffer v) (buffer_data v) (buffer_size v)
    (buffer_offset v) (decoder v) h (expected_offset v) (channels v)
    (outputs v) (outputs_index v) (outputs_size v).

Definition set_expected_offset (v : rbtk_vorbis_audio_source) (e : Z) :=
  mkVorbis (in_ v) (buffer v) (buffer_data v) (buffer_size v)
    (buffer_offset v) (decoder v) (header_size v) e (channels v)
    (outputs v) (outputs_index v) (outputs_size v).

Definition set_channels (v : rbtk_vorbis_audio_source) (c : Z) :=
  mkVorbis (in_ v) (buffer v) (buffer_data v) (buffer_size v)
    (buffer_offset v) (decoder v) (header_size v) (expected_offset v) c
    (outputs v) (outputs_index v) (outputs_size v).

Definition set_outputs (v : rbtk_vorbis_audio_source) (o : option frame) :=
  mkVorbis (in_ v) (buffer v) (buffer_data v) (buffer_size v)
    (buffer_offset v) (decoder v) (header_size v) (expected_offset v)
    (channels v) o (outputs_index v) (outputs_size v).

Definition set_outputs_index (v : rbtk_vorbis_audio_source) (i : Z) :=
  mkVorbis (in_ v) (buffer v) (buffer_data v) (buffer_size v)
    (buffer_offset v) (decoder v) (header_size v) (expected_offset v)
    (channels v) (outputs v) i (outputs_size v).

Definition set_outputs_size (v : rbtk_vorbis_audio_source) (n : Z) :=
  mkVorbis (in_ v) (buffer v) (buffer_data v) (buffer_size v)
    (buffer_offset v) (decoder v) (header_size v) (expected_offset v)
    (channels v) (outputs v) (outputs_index v) n.

(** *** [double_buffer_size] *)

(** Returns the unused bytes of the new buffer, or [SIZE_MAX] with buffer
    and size left as they are when the allocation fails. *)
Definition double_buffer_size (w : world) (buf : ptr) (data : list Z)
    (bufsize : Z) : outcome (Z * ptr * list Z * Z * world) :=
  let prev_size := bufsize in
  let next_size := size_mul prev_size 2 in
  match malloc w next_size with
  | (None, w1) =>
      Done (SIZE_MAX, buf, data, bufsize,
            rbtk_signal_error w1 RBTK_ERROR_OUT_OF_MEMORY)
  | (Some nb, w1) =>
      (* memcpy(next_buf, prev_buf, prev_size) *)
      match slice data 0 prev_size with
      | None => Undefined
      | Some old =>
          match blit (fresh_bytes next_size) 0 old with
          | None => Undefined
          | Some next_data =>
              Done (size_sub next_size prev_size, Some nb, next_data,
                    next_size, free w1 buf)
          end
      end
  end.

(** *** [shift_unconsumed_to_front] *)

(** [memcpy(cbuf, cbuf + consumed, *read - consumed)]; the new value of
    [*read] comes with the buffer. *)
Definition shift_unconsumed_to_front (buf : list Z) (read consumed : Z)
  : outcome (list Z * Z) :=
  let unconsumed := size_sub read consumed in
  match slice buf consumed unconsumed with
  | None => Undefined
  | Some bytes =>
      match blit buf 0 bytes with
      | None => Undefined
      | Some buf' => Done (buf', unconsumed)
      end
  end.

(** *** [open_vorbis_decoder] *)

(** What the [while (!decoder)] loop leaves behind when it opens the
    decoder. *)
Record opened : Type := mkOpened {
  op_decoder : Dec;
  op_bytes_consumed : Z;
  op_buf : ptr;
  op_data : list Z;
  op_bufsize : Z;
  op_read_offset : Z
}.

Fixpoint open_loop (fuel : nat) (i : Src) (w : world) (buf : ptr)
    (data : list Z) (bufsize read_offset : Z)
  : outcome (option opened * Src * world) :=
  match fuel with
  | O => OutOfFuel
  | S fuel' =>
      match stb_vorbis_open_pushdata data (to_int bufsize) with
      | Opened d bytes_consumed =>
          Done (Some (mkOpened d bytes_consumed buf data bufsize read_offset),
                i, w)
      | NotOpened vorbis_error =>
          if negb (vorbis_error =? VORBIS_need_more_data) then
            Done (None, i, rbtk_signal_error w RBTK_ERROR_IO)
          else if bufsize >=? MAX_BUFSIZE then
            Done (None, i, rbtk_signal_error w RBTK_ERROR_IO)
          else
            match double_buffer_size w buf data bufsize with
            | Done (unused, buf1, data1, bufsize1, w1) =>
                match rbtk_read_bytes i data1 read_offset unused with
                | Done (i1, data2, read) =>
                    let read_offset1 := size_add read_offset read in
                    (* [read] is a size_t *)
                    if read <? 0 then
                      Done (None, i1,
                            rbtk_signal_error (free w1 buf1) RBTK_ERROR_IO)
                    else
                      open_loop fuel' i1 w1 buf1 data2 bufsize1 read_offset1
                | Undefined => Undefined
                | OutOfFuel => OutOfFuel
                end
            | Undefined => Undefined
            | OutOfFuel => OutOfFuel
            end
      end
  end.

(** Returns [true] with the source filled in, or [false]. *)
Definition open_vorbis_decoder (fuel : nat) (v : rbtk_vorbis_audio_source)
    (w : world) : outcome (bool * rbtk_vorbis_audio_source * world) :=
  let bufsize := MIN_BUFSIZE in
  match malloc w bufsize with
  | (None, w1) =>
      Done (false, v, rbtk_signal_error w1 RBTK_ERROR_OUT_OF_MEMORY)
  | (Some b, w1) =>
      let buf := Some b in
      match rbtk_read_bytes (in_ v) (fresh_bytes bufsize) 0 bufsize with
      | Done (i1, data1, read_offset) =>
          match open_loop fuel i1 w1 buf data1 bufsize read_offset with
          | Done (None, i2, w2) => Done (false, set_in v i2, w2)
          | Done (Some o, i2, w2) =>
              match shift_unconsumed_to_front (op_data o) (op_read_offset o)
                      (size_wrap (op_bytes_consumed o)) with
              | Done (data3, read_offset3) =>
                  let v1 := set_in v i2 in
                  let v2 := set_buffer v1 (op_buf o) data3 (op_bufsize o) in
                  let v3 := set_buffer_offset v2 read_offset3 in
                  let v4 := set_decoder v3 (Some (op_decoder o)) in
                  let v5 := set_header_size v4
                              (size_wrap (op_bytes_consumed o)) in
                  Done (true, v5, w2)
              | Undefined => Undefined
              | OutOfFuel => OutOfFuel
              end
          | Undefined => Undefined
          | OutOfFuel => OutOfFuel
          end
      | Undefined => Undefined
      | OutOfFuel => OutOfFuel
      end
  end.

(** *** [close_vorbis_source] *)



(** *** [write_vorbis_samples] *)

(** The inner loop [for (c = 0; c < channels; c++)]: [n] iterations are
    left, the next channel is [c]. *)
Fixpoint write_channels (n : nat) (samples : frame) (s c : Z)
    (cbuf : list Z) (off : Z) : list Z * Z :=
  match n with
  | O => (cbuf, off)
  | S n' =>
      let pcm := PCM_FROM_VORBIS_SAMPLE (sample_at samples c s) in
      let cbuf1 := store cbuf (Z.to_nat (size_add off 0)) (pcm_low_byte pcm) in
      let cbuf2 := store cbuf1 (Z.to_nat (size_add off 1)) (pcm_high_byte pcm) in
      write_channels n' samples s (c + 1) cbuf2
        (size_add off VORBIS_BYTES_PER_SAMPLE)
  end.

(** The outer loop [for (s = sample_index; s < sample_count; s++)]: [n]
    iterations are left. *)
Fixpoint write_samples_loop (n : nat) (v : rbtk_vorbis_audio_source)
    (samples : frame) (chans channel_size s : Z) (cbuf : list Z)
    (off len : Z) : rbtk_vorbis_audio_source * list Z * Z :=
  match n with
  | O => (v, cbuf, off)
  | S n' =>
      if size_add off channel_size >? len then (v, cbuf, off)
      else
        let (cbuf1, off1) :=
          write_channels (Z.to_nat chans) samples s 0 cbuf off in
        write_samples_loop n'
          (set_outputs_index v (size_add (outputs_index v) 1))
          samples chans channel_size (s + 1) cbuf1 off1 len
  end.

(** Returns the source, the caller's buffer and [*bytes_written]. *)
Definition write_vorbis_samples (v : rbtk_vorbis_audio_source)
    (bytes_written : Z) (buf : list Z) (len : Z)
  : rbtk_vorbis_audio_source * list Z * Z :=
  match outputs v with
  | None => (v, buf, bytes_written)
  | Some samples =>
      let chans := channels v in
      let sample_index := outputs_index v in
      let sample_count := outputs_size v in
      let channel_size := size_mul VORBIS_BYTES_PER_SAMPLE chans in
      let off := bytes_written in
      let '(v1, cbuf, off1) :=
        write_samples_loop (Z.to_nat (sample_count - sample_index)) v
          samples chans channel_size sample_index buf off len in
      if outputs_index v1 >=? outputs_size v1 then
        (set_outputs_index (set_outputs_size (set_outputs v1 None) 0) 0,
         cbuf, off1)
      else (v1, cbuf, off1)
  end.

(** *** [read_vorbis_pcm] *)

(** How the [while (samples == 0)] loop is left: by one of its two
    [return EOF], or with a number of samples. *)
Inductive loop_exit : Type :=
| ReturnEOF
| Samples (samples : Z).

Fixpoint decode_loop (fuel : nat) (v : rbtk_vorbis_audio_source)
    (w : world) (read : Z)
  : outcome (loop_exit * rbtk_vorbis_audio_source * world) :=
  match fuel with
  | O => OutOfFuel
  | S fuel' =>
      match decoder v with
      | None => Undefined
      | Some d =>
          let r := stb_vorbis_decode_frame_pushdata d (buffer_data v)
                     (to_int (buffer_size v)) in
          let v1 := set_decoder v (Some (fr_decoder r)) in
          let v2 := match fr_output r with
                    | Some o => set_outputs v1 (Some o)
                    | None => v1
                    end in
          let samples := fr_samples r in
          let bytes_used := fr_bytes_used r in
          if bytes_used =? 0 then
            if read <=? 0 then Done (ReturnEOF, v2, w)
            else if buffer_size v2 >=? MAX_BUFSIZE then
              Done (ReturnEOF, v2, rbtk_signal_error w RBTK_ERROR_IO)
            else
              match double_buffer_size w (buffer v2) (buffer_data v2)
                      (buffer_size v2) with
              | Done (remaining, buf1, data1, bufsize1, w1) =>
                  match rbtk_read_bytes (in_ v2) data1 (buffer_offset v2)
                          remaining with
                  | Done (i1, data2, n) =>
                      let v3 := set_buffer (set_in v2 i1) buf1 data2 bufsize1 in
                      let v4 := set_buffer_offset v3
                                  (size_add (buffer_offset v3) n) in
                      (* continue *)
                      if samples =? 0 then decode_loop fuel' v4 w1 read
                      else Done (Samples samples, v4, w1)
                  | Undefined => Undefined
                  | OutOfFuel => OutOfFuel
                  end
              | Undefined => Undefined
              | OutOfFuel => OutOfFuel
              end
          else if buffer_offset v2 >=? to_uint bytes_used then
            match shift_unconsumed_to_front (buffer_data v2)
                    (buffer_offset v2) (size_wrap bytes_used) with
            | Done (data1, off1) =>
                let v3 := set_buffer_offset (set_buffer_data v2 data1) off1 in
                if samples =? 0 then decode_loop fuel' v3 w read
                else Done (Samples samples, v3, w)
            | Undefined => Undefined
            | OutOfFuel => OutOfFuel
            end
          else Undefined (* assert(buffer_offset >= bytes_used) *)
      end
  end.

(** Returns the [int] result, the source, the world and the caller's
    buffer.  [buf] holds [len] bytes. *)
Definition read_vorbis_pcm (fuel : nat) (v : rbtk_vorbis_audio_source)
    (w : world) (buf : list Z) (len : Z)
  : outcome (Z * rbtk_vorbis_audio_source * world * list Z) :=
  let '(v1, buf1, bytes_written) := write_vorbis_samples v 0 buf len in
  if bytes_written >=? len then
    Done (to_int bytes_written,
          set_expected_offset v1 (size_add (expected_offset v1) bytes_written),
          w, buf1)
  else
    match rbtk_read_bytes (in_ v1) (buffer_data v1) (buffer_offset v1)
            (size_sub (buffer_size v1) (buffer_offset v1)) with
    | Done (i1, data1, read) =>
        let v2 := set_buffer_data (set_in v1 i1) data1 in
        let v3 := set_buffer_offset v2 (size_add (buffer_offset v2) read) in
        match decode_loop fuel v3 w read with
        | Done (ReturnEOF, v4, w1) => Done (EOF, v4, w1, buf1)
        | Done (Samples samples, v4, w1) =>
            let v5 := set_outputs_size (set_outputs_index v4 0)
                        (size_wrap samples) in
            let '(v6, buf2, bytes_written2) :=
              write_vorbis_samples v5 bytes_written buf1 len in
            if bytes_written2 >? 0 then
              Done (to_int bytes_written2,
                    set_expected_offset v6
                      (size_add (expected_offset v6) bytes_written2),
                    w1, buf2)
            else Done (EOF, v6, w1, buf2)
        | Undefined => Undefined
        | OutOfFuel => OutOfFuel
        end
    | Undefined => Undefined
    | OutOfFuel => OutOfFuel
    end.

(** *** The audio source wrapper *)

Record rbtk_audio_source_info : Type := mkInfo {
  frequency_hz : Z;
  channel_count : Z;
  bits_per_sample : Z
}.

(** [struct RBTK_AUDIO_SOURCE] of a Vorbis source: the function table is
    [close_vorbis_source] and [read_vorbis_pcm]; [impl] points to the
    Vorbis source. *)
Record RBTK_AUDIO_SOURCE : Type := mkAudioSource {
  src_block : ptr;
  info : rbtk_audio_source_info;
  impl_block : ptr;
  impl : rbtk_vorbis_audio_source
}.

Definition rbtk_source_audio (w : world) (inf : rbtk_audio_source_info)
    (p : ptr) (v : rbtk_vorbis_audio_source)
  : option RBTK_AUDIO_SOURCE * world :=
  match malloc w sizeof_audio_source with
  | (None, w1) => (None, rbtk_signal_error w1 RBTK_ERROR_OUT_OF_MEMORY)
  | (Some b, w1) => (Some (mkAudioSource (Some b) inf p v), w1)
  end.

(** [rbtk_read_pcm]: the call through the function table and the overrun
    check [assert(read < 0 || ((unsigned int) read) <= len)]. *)
Definition rbtk_read_pcm (fuel : nat) (src : RBTK_AUDIO_SOURCE) (w : world)
    (off : Z) (buf : list Z) (len : Z)
  : outcome (Z * RBTK_AUDIO_SOURCE * world * list Z) :=
  match read_vorbis_pcm fuel (impl src) w buf len with
  | Done (read, v1, w1, buf1) =>
      if (read <? 0) || (to_uint read <=? len) then
        Done (read, mkAudioSource (src_block src) (info src)
                      (impl_block src) v1, w1, buf1)
      else Undefined
  | Undefined => Undefined
  | OutOfFuel => OutOfFuel
  end.

(** *** [rbtk_source_ogg] *)

(** Returns the audio source or [NULL]; the stream is the caller's and
    comes back in the state the call left it in. *)
Definition rbtk_source_ogg (fuel : nat) (i : Src) (w : world)
  : outcome (option RBTK_AUDIO_SOURCE * Src * world) :=
  match malloc w sizeof_vorbis_audio_source with
  | (None, w1) => Done (None, i, rbtk_signal_error w1 RBTK_ERROR_OUT_OF_MEMORY)
  | (Some b, w1) =>
      let vorbis := mkVorbis i NULL [] 0 0 None 0 0 0 None 0 0 in
      match open_vorbis_decoder fuel vorbis w1 with
      | Done (false, v1, w2) => Done (None, in_ v1, free w2 (Some b))
      | Done (true, v1, w2) =>
          match decoder v1 with
          | None => Undefined
          | Some d =>
              let (sample_rate, chans) := stb_vorbis_get_info d in
              let inf := mkInfo (to_uint sample_rate) (to_uint chans)
                           VORBIS_BITS_PER_SAMPLE in
              let v2 := set_channels v1 (to_uint chans) in
              let (r, w3) := rbtk_source_audio w2 inf (Some b) v2 in
              Done (r, in_ v2, w3)
          end
      | Undefined => Undefined
      | OutOfFuel => OutOfFuel
      end
  end.

End VorbisSource.

(* ================================================================= *)
(** ** Chunked buffering: [rbtk_buffer_remaining] and [buffer_pcm_data] *)

(** [src/runtime/stream.c] and [src/engine/audio.c] each have their own
    copy of the chunk structure and of the code that follows the reading
    loop (final allocation, cleanup on failure, copy of the chunks); the
    two copies are the same text, and are embedded once. *)

Definition BUFFER_CHUNK_DATA_SIZE : Z := 1024.
Definition PCM_BUFFER_CHUNK_SIZE : Z := 1024.

(** [struct buffer_chunk], with the heap block it lives in.  The [next]
    pointers are the order of the list of chunks, head first. *)
Record buffer_chunk : Type := mkChunk {
  chunk_block : nat;
  chunk_len : Z;
  chunk_data : list Z
}.

(** A new chunk holding the first [read] bytes of the stack array [data]:
    [chunk->len = read; memcpy(chunk->data, data, read)]. *)
Definition fill_chunk (b : nat) (data : list Z) (read : Z)
  : option buffer_chunk :=
  match slice data 0 read with
  | None => None
  | Some bytes =>
      match blit (fresh_bytes BUFFER_CHUNK_DATA_SIZE) 0 bytes with
      | None => None
      | Some cd => Some (mkChunk b read cd)
      end
  end.

(** The cleanup loop [while (chunk) { next = chunk->next; free(chunk); }]. *)
Fixpoint free_chunks (w : world) (chunks : list buffer_chunk) : world :=
  match chunks with
  | [] => w
  | c :: rest => free_chunks (free w (Some (chunk_block c))) rest
  end.

(** The copy loop: each chunk is copied at the running offset and freed. *)
Fixpoint copy_chunks (w : world) (chunks : list buffer_chunk)
    (data_buffer : list Z) (data_offset : Z) : outcome (list Z * Z * world) :=
  match chunks with
  | [] => Done (data_buffer, data_offset, w)
  | c :: rest =>
      match slice (chunk_data c) 0 (chunk_len c) with
      | None => Undefined
      | Some bytes =>
          match blit data_buffer data_offset bytes with
          | None => Undefined
          | Some data_buffer1 =>
              copy_chunks (free w (Some (chunk_block c))) rest data_buffer1
                (size_add data_offset (chunk_len c))
          end
      end
  end.

(** What follows the reading loop.  The result is [NULL], or the final
    buffer (its block and its bytes) with the size written to [*size]. *)
Definition assemble_chunks (w : world) (malloc_failure : bool)
    (chunks : list buffer_chunk) (data_size : Z)
  : outcome (option (nat * list Z * Z) * world) :=
  let '(data_buffer, malloc_failure1, w1) :=
    if negb malloc_failure then
      match malloc w data_size with
      | (None, w') =>
          (NULL, true, rbtk_signal_error w' RBTK_ERROR_OUT_OF_MEMORY)
      | (Some b, w') => (Some b, false, w')
      end
    else (NULL, malloc_failure, w) in
  if malloc_failure1 then
    Done (None, free (free_chunks w1 chunks) data_buffer)
  else
    match data_buffer with
    | None => Undefined
    | Some b =>
        match copy_chunks w1 chunks (fresh_bytes data_size) 0 with
        | Done (bytes, data_offset, w2) =>
            if data_offset =? data_size
            then Done (Some (b, bytes, data_size), w2)
            else Undefined (* assert(data_offset == data_size) *)
        | Undefined => Undefined
        | OutOfFuel => OutOfFuel
        end
    end.

Section BufferRemaining.

Context {Src : Type} {IS : InStream Src}.

(** The loop [while (read > 0)] of [rbtk_buffer_remaining]; it ends with
    the [malloc_failure] flag, the chunks and [data_size]. *)
Fixpoint read_chunks (fuel : nat) (i : Src) (w : world) (data : list Z)
    (read : Z) (chunks : list buffer_chunk) (chunk_count data_size : Z)
  : outcome (bool * Src * world * list buffer_chunk * Z) :=
  match fuel with
  | O => OutOfFuel
  | S fuel' =>
      if read >? 0 then
        if read <=? BUFFER_CHUNK_DATA_SIZE then
          match malloc w sizeof_buffer_chunk with
          | (None, w1) =>
              Done (true, i, rbtk_signal_error w1 RBTK_ERROR_OUT_OF_MEMORY,
                    chunks, data_size)
          | (Some b, w1) =>
              match fill_chunk b data read with
              | None => Undefined
              | Some chunk =>
                  let data_size1 := size_add data_size read in
                  let chunks1 := chunks ++ [chunk] in
                  match rbtk_read_bytes i data 0 BUFFER_CHUNK_DATA_SIZE with
                  | Done (i1, data1, read1) =>
                      read_chunks fuel' i1 w1 data1 read1 chunks1
                        (size_add chunk_count 1) data_size1
                  | Undefined => Undefined
                  | OutOfFuel => OutOfFuel
                  end
              end
          end
        else Undefined (* assert(read <= BUFFER_CHUNK_DATA_SIZE) *)
      else Done (false, i, w, chunks, data_size)
  end.

Definition rbtk_buffer_remaining (fuel : nat) (i : Src) (w : world)
  : outcome (option (nat * list Z * Z) * Src * world) :=
  let data := fresh_bytes BUFFER_CHUNK_DATA_SIZE in
  match rbtk_read_bytes i data 0 BUFFER_CHUNK_DATA_SIZE with
  | Done (i1, data1, read) =>
      match read_chunks fuel i1 w data1 read [] 0 0 with
      | Done (malloc_failure, i2, w1, chunks, data_size) =>
          match assemble_chunks w1 malloc_failure chunks data_size with
          | Done (r, w2) => Done (r, i2, w2)
          | Undefined => Undefined
          | OutOfFuel => OutOfFuel
          end
      | Undefined => Undefined
      | OutOfFuel => OutOfFuel
      end
  | Undefined => Undefined
  | OutOfFuel => OutOfFuel
  end.

End BufferRemaining.

Section BufferPcm.

Context {Src Dec : Type} {IS : InStream Src} {PD : PushDecoder Dec}.

(** The loop [while (read != EOF)] of [buffer_pcm_data]; [dfuel] is the
    budget of each [rbtk_read_pcm] call. *)
Fixpoint read_pcm_chunks (fuel dfuel : nat) (src : @RBTK_AUDIO_SOURCE Src Dec)
    (w : world) (data : list Z) (read : Z) (chunks : list buffer_chunk)
    (chunk_count size : Z)
  : outcome (bool * @RBTK_AUDIO_SOURCE Src Dec * world
             * list buffer_chunk * Z) :=
  match fuel with
  | O => OutOfFuel
  | S fuel' =>
      if negb (read =? EOF) then
        if read <=? PCM_BUFFER_CHUNK_SIZE then
          match malloc w sizeof_buffer_chunk with
          | (None, w1) =>
              Done (true, src, rbtk_signal_error w1 RBTK_ERROR_OUT_OF_MEMORY,
                    chunks, size)
          | (Some b, w1) =>
              match fill_chunk b data (size_wrap read) with
              | None => Undefined
              | Some chunk =>
                  let size1 := size_add size (size_wrap read) in
                  let chunks1 := chunks ++ [chunk] in
                  match rbtk_read_pcm dfuel src w1 size1 data
                          PCM_BUFFER_CHUNK_SIZE with
                  | Done (read1, src1, w2, data1) =>
                      read_pcm_chunks fuel' dfuel src1 w2 data1 read1 chunks1
                        (size_add chunk_count 1) size1
                  | Undefined => Undefined
                  | OutOfFuel => OutOfFuel
                  end
              end
          end
        else Undefined (* assert(read <= PCM_BUFFER_CHUNK_SIZE) *)
      else Done (false, src, w, chunks, size)
  end.

Definition buffer_pcm_data (fuel dfuel : nat)
    (src : @RBTK_AUDIO_SOURCE Src Dec) (w : world)
  : outcome (option (nat * list Z * Z) * @RBTK_AUDIO_SOURCE Src Dec * world) :=
  let data := fresh_bytes PCM_BUFFER_CHUNK_SIZE in
  match rbtk_read_pcm dfuel src w 0 data PCM_BUFFER_CHUNK_SIZE with
  | Done (read, src1, w1, data1) =>
      match read_pcm_chunks fuel dfuel src1 w1 data1 read [] 0 0 with
      | Done (malloc_failure, src2, w2, chunks, size) =>
          match assemble_chunks w2 malloc_failure chunks size with
          | Done (r, w3) => Done (r, src2, w3)
          | Undefined => Undefined
          | OutOfFuel => OutOfFuel
          end
      | Undefined => Undefined
      | OutOfFuel => OutOfFuel
      end
  | Undefined => Undefined
  | OutOfFuel => OutOfFuel
  end.

(** A caller that reads a source to its end with buffers of [len] bytes,
    as the playback backend does, and keeps the bytes each call reports:
    the subject of the comparison of one large read with many small ones. *)
Fixpoint read_to_end (calls dfuel : nat) (v : @rbtk_vorbis_audio_source Src Dec)
    (w : world) (len : Z) : outcome (list Z) :=
  match calls with
  | O => OutOfFuel
  | S calls' =>
      match read_vorbis_pcm dfuel v w (fresh_bytes len) len with
      | Done (n, v1, w1, buf) =>
          if n <? 0 then Done []
          else
            match read_to_end calls' dfuel v1 w1 len with
            | Done rest => Done (firstn (Z.to_nat n) buf ++ rest)
            | Undefined => Undefined
            | OutOfFuel => OutOfFuel
            end
      | Undefined => Undefined
      | OutOfFuel => OutOfFuel
      end
  end.

End BufferPcm.

(* ================================================================= *)
(** ** The states of a decode context *)

Section Reachability.

Context {Src Dec : Type} {IS : InStream Src} {PD : PushDecoder Dec}.

(** A decode context is in the state a successful [rbtk_source_ogg] left
    it in, or in one that a completed [read_pcm] call led to. *)
Inductive reachable : @rbtk_vorbis_audio_source Src Dec -> Prop :=
| reach_open fuel i w src i' w' :
    rbtk_source_ogg fuel i w = Done (Some src, i', w') ->
    reachable (impl src)
| reach_read fuel v w buf len n v' w' buf' :
    reachable v ->
    read_vorbis_pcm fuel v w buf len = Done (n, v', w', buf') ->
    reachable v'.





End Reachability.

(* ================================================================= *)
(** ** Concrete collaborators *)

(** Implementations of the two interfaces, to run the engine on. *)

Module Sample.

(** A memory stream: the bytes not yet read.  A read delivers as many of
    the [len] bytes asked for as are left. *)
Definition mem_stream : Type := list Z.

#[global] Instance mem_stream_in : InStream mem_stream := {
  funs_read_bytes s len := (skipn (Z.to_nat len) s, firstn (Z.to_nat len) s)
}.

(** A framed 8-bit codec behind the push-data interface.

    Header: the capture byte 79, any number of padding bytes 1, the byte
    2, then the channel count.  A frame: its sequence number (1, 2, ...),
    its sample count [n] on two bytes (high, low), then [n] interleaved
    samples of one byte per channel, the byte [b] standing for
    [(b - 128) / 128].  A zero byte where the header or a frame should
    continue, or a frame that is not the next one, means that the data has
    not arrived yet. *)
Record framed : Type := mkFramed {
  fd_channels : Z;
  fd_next_seq : Z
}.

Definition VORBIS_missing_capture_pattern : Z := 30.
Definition VORBIS_invalid_setup : Z := 20.

Fixpoint skip_padding (data : list Z) (n : Z) : list Z * Z :=
  match data with
  | 1 :: rest => skip_padding rest (n + 1)
  | _ => (data, n)
  end.

Definition framed_open (data : list Z) (len : Z) : open_result framed :=
  match firstn (Z.to_nat len) data with
  | [] => NotOpened VORBIS_need_more_data
  | 0 :: _ => NotOpened VORBIS_need_more_data
  | 79 :: rest =>
      match skip_padding rest 1 with
      | (2 :: c :: _, n) =>
          if c =? 0 then NotOpened VORBIS_need_more_data
          else Opened (mkFramed c 1) (n + 2)
      | (2 :: [], _) => NotOpened VORBIS_need_more_data
      | ([], _) => NotOpened VORBIS_need_more_data
      | (0 :: _, _) => NotOpened VORBIS_need_more_data
      | _ => NotOpened VORBIS_invalid_setup
      end
  | _ => NotOpened VORBIS_missing_capture_pattern
  end.

(** Channel [c] of [n] interleaved samples. *)
Definition channel_of (bytes : list Z) (chans n c : nat) : list Q :=
  map (fun s => (nth (s * chans + c) bytes 128 - 128) # 128) (seq 0 n).

Definition framed_decode (d : framed) (data : list Z) (len : Z)
  : frame_result framed :=
  match firstn (Z.to_nat len) data with
  | q :: hi :: lo :: rest =>
      let n := hi * 256 + lo in
      let chans := fd_channels d in
      if (q =? fd_next_seq d) && (3 + n * chans <=? len) then
        mkFrameResult (mkFramed chans (fd_next_seq d + 1)) (3 + n * chans)
          (Some (map (channel_of rest (Z.to_nat chans) (Z.to_nat n))
                     (seq 0 (Z.to_nat chans))))
          n
      else mkFrameResult d 0 None 0
  | _ => mkFrameResult d 0 None 0
  end.

#[global] Instance framed_decoder : PushDecoder framed := {
  stb_vorbis_open_pushdata := framed_open;
  stb_vorbis_decode_frame_pushdata := framed_decode;
  stb_vorbis_get_info d := (44100, fd_channels d)
}.

(** An empty heap on which every allocation succeeds. *)
Definition world0 : world := mkWorld [] 0 [] None.

(** The header of a stream of [c] channels with [pad] padding bytes. *)
Definition header (pad : nat) (c : Z) : list Z :=
  79 :: repeat 1 pad ++ [2; c].

(** A mono stream of one frame of three samples. *)
Definition three_samples : mem_stream :=
  header 0 1 ++ [1; 0; 3; 128 + 16; 128 + 32; 128 + 48].

(** A scripted stream: the pieces still to come.  A read delivers the
    next piece, or as much of it as was asked for: a source that hands its
    bytes over as they arrive. *)
Definition script_stream : Type := list (list Z).

#[global] Instance script_stream_in : InStream script_stream := {
  funs_read_bytes s len :=
    match s with
    | [] => ([], [])
    | c :: rest =>
        (match skipn (Z.to_nat len) c with
         | [] => rest
         | more => more :: rest
         end,
         firstn (Z.to_nat len) c)
    end
}.

Section Outcomes.

(** The parts of the outcomes of calls on a stream that is a list. *)

Context {A : Type} {IS : InStream (list A)}.

Definition closed_source : @RBTK_AUDIO_SOURCE (list A) framed :=
  mkAudioSource NULL (mkInfo 0 0 0) NULL
    (mkVorbis [] NULL [] 0 0 None 0 0 0 None 0 0).

Definition source_of
    (r : outcome (option (@RBTK_AUDIO_SOURCE (list A) framed)
                  * list A * world))
  : @RBTK_AUDIO_SOURCE (list A) framed :=
  match r with
  | Done (Some src, _, _) => src
  | _ => closed_source
  end.

Definition world_of
    (r : outcome (option (@RBTK_AUDIO_SOURCE (list A) framed)
                  * list A * world)) : world :=
  match r with
  | Done (_, _, w) => w
  | _ => world0
  end.

Definition returned_null
    (r : outcome (option (@RBTK_AUDIO_SOURCE (list A) framed)
                  * list A * world)) : bool :=
  match r with
  | Done (None, _, _) => true
  | _ => false
  end.

Definition result_of
    (r : outcome (Z * @rbtk_vorbis_audio_source (list A) framed
                  * world * list Z)) : option (Z * list Z) :=
  match r with
  | Done (n, _, _, buf) => Some (n, buf)
  | _ => None
  end.

Definition state_of
    (r : outcome (Z * @rbtk_vorbis_audio_source (list A) framed
                  * world * list Z))
  : @rbtk_vorbis_audio_source (list A) framed :=
  match r with
  | Done (_, v, _, _) => v
  | _ => impl closed_source
  end.

Definition world_after
    (r : outcome (Z * @rbtk_vorbis_audio_source (list A) framed
                  * world * list Z)) : world :=
  match r with
  | Done (_, _, w, _) => w
  | _ => world0
  end.

End Outcomes.

(** A mono stream that arrives a byte at a time while the header is read,
    so that the buffer is doubled six times, then delivers a frame of
    three samples, then one byte that does not start the next frame. *)
Definition trickle : script_stream :=
  [[79]; [1]; [1]; [1]; [1]; [2]; [1]; [1; 0; 3; 144; 160; 176]; [7]].

(** A header whose padding goes on for 300000 bytes. *)
Definition endless_padding : mem_stream := 79 :: repeat 1 (Z.to_nat 300000).

(** The source and the world after [three_samples] is opened. *)
Definition opened_three : @RBTK_AUDIO_SOURCE mem_stream framed :=
  Eval vm_compute in source_of (rbtk_source_ogg 8 three_samples world0).

Definition world_three : world :=
  Eval vm_compute in world_of (rbtk_source_ogg 8 three_samples world0).

(** A stream of 1025 bytes, and the chunks it is read in. *)
Definition stream_1025 : mem_stream := repeat 7 (Z.to_nat 1025).
Definition chunks_1025 : list (list Z) := [repeat 7 (Z.to_nat 1024); [7]].



(** A stereo context with a decoded frame of 512 samples pending. *)
Definition pending_512 : @rbtk_vorbis_audio_source mem_stream framed :=
  mkVorbis [] (Some 1%nat) (fresh_bytes 4096) 4096 0 (Some (mkFramed 2 2))
    4 0 2 (Some [repeat (1 # 2) 512; repeat (-1 # 4) 512]) 0 512.

Definition pending_512_source : @RBTK_AUDIO_SOURCE mem_stream framed :=
  mkAudioSource (Some 2%nat) (mkInfo 44100 2 16) (Some 0%nat) pending_512.

End Sample.

(* ================================================================= *)
(** ** What a pull source delivers *)

Section Delivery.

Context {Src : Type} {IS : InStream Src}.

(** Read [BUFFER_CHUNK_DATA_SIZE] bytes at a time, the source delivers the
    non-empty chunks [cs] in turn, then zero bytes: the end of the
    source. *)
Inductive delivers : Src -> list (list Z) -> Src -> Prop :=
| delivers_end i i' :
    funs_read_bytes i BUFFER_CHUNK_DATA_SIZE = (i', []) ->
    delivers i [] i'
| delivers_chunk i i1 c cs i' :
    funs_read_bytes i BUFFER_CHUNK_DATA_SIZE = (i1, c) ->
    c <> [] ->
    Z.of_nat (length c) <= BUFFER_CHUNK_DATA_SIZE ->
    delivers i1 cs i' ->
    delivers i (c :: cs) i'.

End Delivery.

(** The bytes a chunk holds: the first [len] bytes of its array. *)
Definition payload (c : buffer_chunk) : list Z :=
  firstn (Z.to_nat (chunk_len c)) (chunk_data c).

Definition chunk_entry (c : buffer_chunk) : nat * Z :=
  (chunk_block c, sizeof_buffer_chunk).

(** The identifiers of the live blocks are below the next identifier. *)
Definition heap_wf (w : world) : Prop :=
  Forall (fun blk => (fst blk < next_block w)%nat) (heap w).

(** The first [n] coming allocations succeed. *)
Definition all_succeed (n : nat) (plan : list bool) : bool :=
  forallb (fun b => b) (firstn n plan).

(* ================================================================= *)
(** ** Predicates of the proofs *)

Section SameBuffer.

Context {Src Dec : Type}.

(** Serialisation touches the output cursor only. *)
Definition same_buffer (v v' : @rbtk_vorbis_audio_source Src Dec) : Prop :=
  buffer_data v' = buffer_data v /\ buffer_size v' = buffer_size v
  /\ buffer_offset v' = buffer_offset v /\ in_ v' = in_ v
  /\ decoder v' = decoder v.

End SameBuffer.

(** A chunk holds no more bytes than its array has. *)
Definition chunk_wf (c : buffer_chunk) : Prop :=
  0 <= chunk_len c <= Z.of_nat (length (chunk_data c)).

(** The block [blk] is none of the chunk nodes [cs]. *)
Definition not_freed (cs : list buffer_chunk) (blk : nat * Z) : bool :=
  forallb (fun c => negb (Nat.eqb (fst blk) (chunk_block c))) cs.

(** The block [blk] is not one of the [k] blocks allocated in a row from
    [n0] on. *)
Definition outside (n0 k : nat) (blk : nat * Z) : Prop :=
  (fst blk < n0)%nat \/ (n0 + k <= fst blk)%nat.

(* ================================================================= *)
(** ** [src/engine/audio.c]: closing an audio source *)

Section CloseSource.

Context {Src Dec : Type} {IS : InStream Src} {PD : PushDecoder Dec}.


End CloseSource.


Section Cursor.

Context {Src Dec : Type}.

(** The output cursor: samples are pending, [outputs_index] below
    [outputs_size], or the cursor is reset. *)
Definition cursor_ok (v : @rbtk_vorbis_audio_source Src Dec) : Prop :=
  0 <= outputs_index v
  /\ outputs_size v < SIZE_MOD
  /\ (outputs_index v < outputs_size v
      \/ (outputs_index v = 0 /\ outputs_size v = 0)).


End Cursor.

Section Session.

Context {Src Dec : Type} {IS : InStream Src} {PD : PushDecoder Dec}.


End Session.

(* ================================================================= *)
(** ** [src/runtime/stream.c]: input streams and their function tables *)

Module Streams.

(** An entry of [rbtk_in_stream_funs]: one of the three sentinel values of
    [common.h] ([RBTK_NO_OP] is the null pointer, [RBTK_UNIMPLEMENTED] and
    [RBTK_DEFAULT_IMPL] the two highest addresses), or a function. *)
Inductive slot (F : Type) : Type :=
| RBTK_NO_OP
| RBTK_UNIMPLEMENTED
| RBTK_DEFAULT_IMPL
| Fun (f : F).
Arguments RBTK_NO_OP {F}.
Arguments RBTK_UNIMPLEMENTED {F}.
Arguments RBTK_DEFAULT_IMPL {F}.
Arguments Fun {F} f.

(** [(long) x], a [long] of 64 bits as [size_t]. *)
Definition to_long (x : Z) : Z := (x + 2 ^ 63) mod 2 ^ 64 - 2 ^ 63.


Section Table.

(** What [void *src] points to. *)
Context {T : Type}.

(** [rbtk_in_stream_funs].  The functions of the repository leave their
    first parameter [in] unused; an entry takes the source and the state
    of the heap and of the error, and gives its result with both. *)
Record rbtk_in_stream_funs : Type := mkFuns {
  close : slot (T -> world -> outcome (bool * T * world));
  available_bytes : slot (T -> world -> outcome (Z * T * world));
  read_byte : slot (T -> world -> outcome (Z * T * world));
  read_bytes :
    slot (T -> world -> list Z -> Z -> Z -> outcome (Z * T * world * list Z));
  skip_bytes : slot (T -> world -> Z -> outcome (Z * T * world));
  seek_to : slot (T -> world -> Z -> outcome (Z * T * world))
}.

(** [struct RBTK_IN_STREAM], with the block it lives in; [src] is the
    pointer and what it points to. *)
Record RBTK_IN_STREAM : Type := mkStream {
  in_block : nat;
  funs : rbtk_in_stream_funs;
  src_block : ptr;
  src : T
}.

Definition set_src (i : RBTK_IN_STREAM) (s : T) : RBTK_IN_STREAM :=
  mkStream (in_block i) (funs i) (src_block i) s.




Definition rbtk_supports_available_bytes (i : RBTK_IN_STREAM) : bool :=
  match available_bytes (funs i) with
  | RBTK_UNIMPLEMENTED => false
  | _ => true
  end.

Definition with_src (i : RBTK_IN_STREAM) (r : outcome (Z * T * world))
  : outcome (Z * RBTK_IN_STREAM * world) :=
  match r with
  | Done (n, s, w) => Done (n, set_src i s, w)
  | Undefined => Undefined
  | OutOfFuel => OutOfFuel
  end.

Definition rbtk_available_bytes (i : RBTK_IN_STREAM) (w : world)
  : outcome (Z * RBTK_IN_STREAM * world) :=
  match available_bytes (funs i) with
  | RBTK_UNIMPLEMENTED =>
      Done (SIZE_MAX, i, rbtk_signal_error w RBTK_ERROR_UNSUPPORTED)
  | Fun f => with_src i (f (src i) w)
  | _ => Undefined
  end.

Definition rbtk_read_byte (i : RBTK_IN_STREAM) (w : world)
  : outcome (Z * RBTK_IN_STREAM * world) :=
  match read_byte (funs i) with
  | Fun f => with_src i (f (src i) w)
  | _ => Undefined
  end.

(** The loop of [rbtk_default_read_bytes], with [n] iterations to go:
    [idx] counts them, [read] the bytes stored. *)
Fixpoint default_read_loop (n : nat) (i : RBTK_IN_STREAM) (w : world)
    (buf : list Z) (off idx read : Z)
  : outcome (Z * RBTK_IN_STREAM * world * list Z) :=
  match n with
  | O => Done (read, i, w, buf)
  | S n' =>
      match rbtk_read_byte i w with
      | Done (next, i1, w1) =>
          if next <? 0 then Done (read, i1, w1, buf)
          else
            match blit buf (size_add off idx) [to_uchar next] with
            | Some buf1 =>
                default_read_loop n' i1 w1 buf1 off (size_add idx 1)
                  (size_add read 1)
            | None => Undefined
            end
      | Undefined => Undefined
      | OutOfFuel => OutOfFuel
      end
  end.

Definition rbtk_default_read_bytes (i : RBTK_IN_STREAM) (w : world)
    (buf : list Z) (off len : Z)
  : outcome (Z * RBTK_IN_STREAM * world * list Z) :=
  default_read_loop (Z.to_nat len) i w buf off 0 0.

(** The loop of [rbtk_default_skip_bytes]. *)
Fixpoint default_skip_loop (n : nat) (i : RBTK_IN_STREAM) (w : world)
    (skipped : Z) : outcome (Z * RBTK_IN_STREAM * world) :=
  match n with
  | O => Done (skipped, i, w)
  | S n' =>
      match rbtk_read_byte i w with
      | Done (next, i1, w1) =>
          if next <? 0 then Done (skipped, i1, w1)
          else default_skip_loop n' i1 w1 (size_add skipped 1)
      | Undefined => Undefined
      | OutOfFuel => OutOfFuel
      end
  end.

Definition rbtk_default_skip_bytes (i : RBTK_IN_STREAM) (w : world)
    (amt : Z) : outcome (Z * RBTK_IN_STREAM * world) :=
  default_skip_loop (Z.to_nat amt) i w 0.

Definition rbtk_read_bytes (i : RBTK_IN_STREAM) (w : world) (buf : list Z)
    (off len : Z) : outcome (Z * RBTK_IN_STREAM * world * list Z) :=
  match read_bytes (funs i) with
  | RBTK_DEFAULT_IMPL => rbtk_default_read_bytes i w buf off len
  | Fun f =>
      match f (src i) w buf off len with
      | Done (n, s, w1, buf1) => Done (n, set_src i s, w1, buf1)
      | Undefined => Undefined
      | OutOfFuel => OutOfFuel
      end
  | _ => Undefined
  end.

Definition rbtk_skip_bytes (i : RBTK_IN_STREAM) (w : world) (amt : Z)
  : outcome (Z * RBTK_IN_STREAM * world) :=
  match skip_bytes (funs i) with
  | RBTK_DEFAULT_IMPL => rbtk_default_skip_bytes i w amt
  | Fun f => with_src i (f (src i) w amt)
  | _ => Undefined
  end.

Definition rbtk_supports_seek (i : RBTK_IN_STREAM) : bool :=
  match seek_to (funs i) with
  | RBTK_UNIMPLEMENTED => false
  | _ => true
  end.

Definition rbtk_seek_to (i : RBTK_IN_STREAM) (w : world) (pos : Z)
  : outcome (Z * RBTK_IN_STREAM * world) :=
  match seek_to (funs i) with
  | RBTK_UNIMPLEMENTED =>
      Done (SIZE_MAX, i, rbtk_signal_error w RBTK_ERROR_UNSUPPORTED)
  | Fun f => with_src i (f (src i) w pos)
  | _ => Undefined
  end.

End Table.

(** *** Memory streams *)

(** [rbtk_memory_in_stream_src]: [addr] is the memory the caller hands
    over, as the bytes it holds; [len] is the length the caller gives. *)
Record rbtk_memory_in_stream_src : Type := mkMemory {
  addr : list Z;
  len : Z;
  pos : Z
}.

Definition rbtk_available_bytes_in_memory_stream
    (s : rbtk_memory_in_stream_src) : Z :=
  size_sub (len s) (pos s).

(** The byte at [pos], or [EOF]; a byte read moves [pos] by one. *)
Definition rbtk_read_memory_stream_byte (s : rbtk_memory_in_stream_src)
  : outcome (Z * rbtk_memory_in_stream_src) :=
  if pos s >=? len s then Done (EOF, s)
  else
    match nth_error (addr s) (Z.to_nat (pos s)) with
    | Some next => Done (next, mkMemory (addr s) (len s) (size_add (pos s) 1))
    | None => Undefined
    end.

(** [memcpy(buf_bytes + off, src->addr, cpy_len)] followed by
    [memset(buf_bytes + off + cpy_len, 0x00, len - cpy_len)]. *)
Definition rbtk_read_memory_stream_bytes (s : rbtk_memory_in_stream_src)
    (buf : list Z) (off n : Z)
  : outcome (Z * rbtk_memory_in_stream_src * list Z) :=
  let cpy_len :=
    if size_add (pos s) n >=? len s then size_sub (len s) (pos s) else n in
  match slice (addr s) 0 cpy_len with
  | None => Undefined
  | Some bytes =>
      match blit buf off bytes with
      | None => Undefined
      | Some buf1 =>
          match blit buf1 (off + cpy_len)
                  (repeat 0 (Z.to_nat (size_sub n cpy_len))) with
          | None => Undefined
          | Some buf2 => Done (cpy_len, s, buf2)
          end
      end
  end.

Definition rbtk_skip_memory_stream_bytes (s : rbtk_memory_in_stream_src)
    (amt : Z) : Z * rbtk_memory_in_stream_src :=
  let current_pos := to_long (pos s) in
  let amt1 :=
    if size_wrap (current_pos + amt) >=? len s
    then size_wrap (len s - current_pos) else amt in
  (amt1, mkMemory (addr s) (len s) (size_add (pos s) amt1)).

Definition rbtk_seek_memory_stream_to (s : rbtk_memory_in_stream_src)
    (p : Z) : Z * rbtk_memory_in_stream_src :=
  (p, mkMemory (addr s) (len s) (if p >=? len s then len s else p)).

(** The memory functions touch neither the heap nor the error. *)
Definition rbtk_memory_in_stream_funs
  : @rbtk_in_stream_funs rbtk_memory_in_stream_src :=
  mkFuns
    RBTK_NO_OP
    (Fun (fun s w => Done (rbtk_available_bytes_in_memory_stream s, s, w)))
    (Fun (fun s w =>
            match rbtk_read_memory_stream_byte s with
            | Done (next, s') => Done (next, s', w)
            | Undefined => Undefined
            | OutOfFuel => OutOfFuel
            end))
    (Fun (fun s w buf off n =>
            match rbtk_read_memory_stream_bytes s buf off n with
            | Done (k, s', buf') => Done (k, s', w, buf')
            | Undefined => Undefined
            | OutOfFuel => OutOfFuel
            end))
    (Fun (fun s w amt =>
            let (k, s') := rbtk_skip_memory_stream_bytes s amt in
            Done (k, s', w)))
    (Fun (fun s w p =>
            let (k, s') := rbtk_seek_memory_stream_to s p in
            Done (k, s', w))).


(** A memory stream as the source of the readers of this file: a read of
    [n] bytes into a buffer of its own hands over the bytes that
    [rbtk_read_memory_stream_bytes] counts. *)
Definition memory_read (s : rbtk_memory_in_stream_src) (n : Z)
  : rbtk_memory_in_stream_src * list Z :=
  match rbtk_read_memory_stream_bytes s (fresh_bytes n) 0 n with
  | Done (k, s', buf) => (s', firstn (Z.to_nat k) buf)
  | _ => (s, [])
  end.

#[global] Instance memory_in_stream : InStream rbtk_memory_in_stream_src := {
  funs_read_bytes := memory_read
}.

(** The position of a memory stream is inside the memory, which holds
    [len] bytes. *)
Definition memory_wf (s : rbtk_memory_in_stream_src) : Prop :=
  Z.of_nat (length (addr s)) = len s
  /\ 0 <= pos s <= len s
  /\ len s < SIZE_MOD
  /\ Forall (fun b => 0 <= b < 256) (addr s).

(** An opened stream over a memory source, and one whose bytes are read
    by [rbtk_read_memory_stream_byte]. *)
Definition memory_stream : Type :=
  @RBTK_IN_STREAM rbtk_memory_in_stream_src.

Definition reads_memory_bytes (i : memory_stream) : Prop :=
  read_byte (funs i) = read_byte rbtk_memory_in_stream_funs.

(** The stream [i] with its position [k] bytes further. *)
Definition advanced (i : memory_stream) (k : Z) : memory_stream :=
  set_src i (mkMemory (addr (src i)) (len (src i)) (pos (src i) + k)).

End Streams.

(* ================================================================= *)
(** ** [src/runtime/common.c]: the other integer clamps *)









(* ================================================================= *)
(** ** [src/runtime/error.c]: the error module *)

(** The error module of one thread, with the thread-local storage of
    [src/runtime/platform/linux_error.c].  What the functions print on
    [stderr] is left out. *)
Module Errors.

Definition RBTK_ERROR_NONE : Z := 0.
Definition RBTK_ERROR_OUT_OF_MEMORY : Z := 5.
Definition RBTK_ERROR_MESSAGE_MAX_LENGTH : Z := 4096.

(** ["[! error message truncated !]"]. *)
Definition truncate_msg : list Z :=
  [91; 33; 32; 101; 114; 114; 111; 114; 32; 109; 101; 115; 115; 97; 103;
   101; 32; 116; 114; 117; 110; 99; 97; 116; 101; 100; 32; 33; 93].

Definition sizeof_error_info : Z := 4112.

(** How a call ends: it returns, it calls [abort], or its behaviour is
    undefined (a failed [assert], a null pointer dereferenced, a write
    outside an array). *)
Inductive ending (A : Type) : Type :=
| Returns (a : A)
| Aborts
| Undefined.
Arguments Returns {A} a.
Arguments Aborts {A}.
Arguments Undefined {A}.

(** [priv_rbtk_error_info]; [msg] is the array of
    [RBTK_ERROR_MESSAGE_MAX_LENGTH] characters, [uncaught_error_fun] the
    callback or [RBTK_NO_OP]. *)
Record priv_rbtk_error_info : Type := mkInfo {
  signaled : bool;
  error : Z;
  msg : list Z;
  uncaught_error_fun : option nat
}.

(** The statics of [error.c] and of [linux_error.c], the block and the
    contents of the thread's error info, and the calls made to uncaught
    error callbacks so far: the callback, the code and the message. *)
Record error_module : Type := mkErrors {
  initialized : bool;
  truncate_msg_len : Z;
  plat_initialized : bool;
  error_tls : option (nat * priv_rbtk_error_info);
  reported : list (nat * Z * list Z)
}.

(** The string an array of characters holds: the characters before the
    first [NUL]. *)
Fixpoint c_string (chars : list Z) : list Z :=
  match chars with
  | [] => []
  | c :: rest => if c =? 0 then [] else c :: c_string rest
  end.

Definition strlen (chars : list Z) : Z := Z.of_nat (length (c_string chars)).

Definition isspace (c : Z) : bool := (c =? 32) || ((9 <=? c) && (c <=? 13)).

(** [a[i] = c], defined inside the array only. *)
Definition poke (a : list Z) (i : Z) (c : Z) : option (list Z) :=
  blit a i [c].

Definition set_tls (st : error_module) (t : option (nat * priv_rbtk_error_info))
  : error_module :=
  mkErrors (initialized st) (truncate_msg_len st) (plat_initialized st) t
    (reported st).

Definition set_info (st : error_module) (i : priv_rbtk_error_info)
  : error_module :=
  match error_tls st with
  | Some (b, _) => set_tls st (Some (b, i))
  | None => st
  end.

Definition report (st : error_module) (i : priv_rbtk_error_info)
  : error_module :=
  match uncaught_error_fun i with
  | Some f =>
      mkErrors (initialized st) (truncate_msg_len st) (plat_initialized st)
        (error_tls st) (reported st ++ [(f, error i, c_string (msg i))])
  | None => st
  end.

(** [plat_rbtk_error_init] and [plat_rbtk_error_terminate] of
    [linux_error.c]: they set and clear the flag, and succeed. *)
Definition plat_rbtk_error_init (st : error_module) : bool * error_module :=
  (true, mkErrors (initialized st) (truncate_msg_len st) true (error_tls st)
           (reported st)).

Definition plat_rbtk_error_terminate (st : error_module)
  : bool * error_module :=
  (true, mkErrors (initialized st) (truncate_msg_len st) false (error_tls st)
           (reported st)).

(** [plat_rbtk_get_error_info]: the info of the thread, allocated if it is
    missing and asked for; the results are the info, [*allocated] and
    [*error].  The memory [malloc] returns is modelled as zeros. *)
Definition plat_rbtk_get_error_info (allocate_if_missing : bool)
    (st : error_module) (w : world)
  : option priv_rbtk_error_info * bool * Z * error_module * world :=
  match error_tls st with
  | Some (_, i) => (Some i, false, RBTK_ERROR_NONE, st, w)
  | None =>
      if allocate_if_missing then
        match malloc w sizeof_error_info with
        | (None, w1) => (None, false, RBTK_ERROR_OUT_OF_MEMORY, st, w1)
        | (Some b, w1) =>
            let i := mkInfo false 0
                       (fresh_bytes RBTK_ERROR_MESSAGE_MAX_LENGTH) None in
            (Some i, true, RBTK_ERROR_NONE, set_tls st (Some (b, i)), w1)
        end
      else (None, false, RBTK_ERROR_NONE, st, w)
  end.

(** [get_error_info]: a failed allocation aborts; an info just allocated
    is initialised. *)
Definition get_error_info (allocate_if_missing : bool) (st : error_module)
    (w : world)
  : ending (option priv_rbtk_error_info * error_module * world) :=
  let '(info, allocated, err, st1, w1) :=
    plat_rbtk_get_error_info allocate_if_missing st w in
  if negb (err =? 0) then Aborts
  else
    match info with
    | Some i =>
        if allocated then
          let i1 := mkInfo false RBTK_ERROR_NONE (store (msg i) 0 0) None in
          Returns (Some i1, set_info st1 i1, w1)
        else Returns (Some i, st1, w1)
    | None => Returns (None, st1, w1)
    end.

Definition priv_rbtk_error_init (st : error_module) : bool * error_module :=
  if initialized st then (true, st)
  else
    let (ok, st1) := plat_rbtk_error_init st in
    if negb ok then (false, st1)
    else
      (true, mkErrors true (strlen truncate_msg) (plat_initialized st1)
               (error_tls st1) (reported st1)).

Definition priv_rbtk_error_terminate (st : error_module) (w : world)
  : ending (bool * error_module * world) :=
  if negb (initialized st) then Returns (true, st, w)
  else
    match get_error_info false st w with
    | Returns (info, st1, w1) =>
        let st2 :=
          match info with
          | Some i => if signaled i then report st1 i else st1
          | None => st1
          end in
        let (ok, st3) := plat_rbtk_error_terminate st2 in
        if negb ok then Returns (false, st3, w1)
        else
          Returns (true,
                   mkErrors false 0 (plat_initialized st3) (error_tls st3)
                     (reported st3), w1)
    | Aborts => Aborts
    | Undefined => Undefined
    end.

Definition rbtk_set_uncaught_error_callback (callback : option nat)
    (st : error_module) (w : world) : ending (error_module * world) :=
  match get_error_info true st w with
  | Returns (Some i, st1, w1) =>
      Returns (set_info st1
                 (mkInfo (signaled i) (error i) (msg i) callback), w1)
  | Returns (None, _, _) => Undefined
  | Aborts => Aborts
  | Undefined => Undefined
  end.

(** [rbtk_get_last_error].  The parameter [msg] is [NULL] or points to a
    variable, which holds [NULL] or a string; the result is the code with
    the new value of the variable. *)
Definition rbtk_get_last_error (msg_arg : option (option (list Z)))
    (st : error_module) (w : world)
  : ending (Z * option (option (list Z)) * error_module * world) :=
  if negb (initialized st) then
    match msg_arg with
    | None => Undefined (* the test dereferences [msg] *)
    | Some _ => Returns (RBTK_ERROR_NONE, Some None, st, w)
    end
  else
    match get_error_info false st w with
    | Returns (info, st1, w1) =>
        let cleared :=
          match msg_arg with
          | None => None
          | Some _ => Some None
          end in
        match info with
        | None => Returns (RBTK_ERROR_NONE, cleared, st1, w1)
        | Some i =>
            if negb (signaled i) then
              Returns (RBTK_ERROR_NONE, cleared, st1, w1)
            else
              Returns (error i,
                       match msg_arg with
                       | None => None
                       | Some _ => Some (Some (c_string (msg i)))
                       end,
                       set_info st1
                         (mkInfo false (error i) (msg i)
                            (uncaught_error_fun i)),
                       w1)
        end
    | Aborts => Aborts
    | Undefined => Undefined
    end.

(** What [vsnprintf] makes of the format and its arguments: the text, or
    an encoding error, for which it returns [-1]. *)
Inductive formatted : Type :=
| Text (chars : list Z)
| EncodingError.

(** [vsnprintf(dest, n, ...)]: at most [n - 1] characters of the text and
    the terminator; the result is the length of the whole text. *)
Definition vsnprintf (dest : list Z) (n : Z) (f : formatted)
  : option (list Z * Z) :=
  match f with
  | Text chars =>
      match blit dest 0 (firstn (Z.to_nat (n - 1)) chars ++ [0]) with
      | Some dest1 => Some (dest1, to_int (Z.of_nat (length chars)))
      | None => None
      end
  | EncodingError => Some (dest, -1)
  end.

(** The branch [if (print_result == -1)] of [rbtk_signal_error_rt]. *)
Definition write_truncate_msg (st : error_module) (m : list Z)
  : option (list Z) :=
  let truncate_off :=
    size_sub (size_sub RBTK_ERROR_MESSAGE_MAX_LENGTH (truncate_msg_len st))
      1 in
  let msg_end := Streams.to_long (truncate_off - 1) in
  let m1 :=
    if msg_end >=? 0 then
      match nth_error m (Z.to_nat msg_end) with
      | Some c => if negb (isspace c) then poke m msg_end 32 else Some m
      | None => None
      end
    else Some m in
  match m1 with
  | None => None
  | Some m2 =>
      let len := size_sub RBTK_ERROR_MESSAGE_MAX_LENGTH truncate_off in
      (* strncpy(dest, truncate_msg, len - 1) *)
      let n := size_sub len 1 in
      let copied :=
        firstn (Z.to_nat n) truncate_msg
        ++ repeat 0 (Z.to_nat n - length truncate_msg) in
      match blit m2 truncate_off copied with
      | None => None
      | Some m3 => poke m3 (truncate_off + len) 0 (* dest[len] = '\0' *)
      end
  end.

(** [rbtk_signal_error_rt(error, error_name, msg, ...)]; the argument [f]
    is [None] when [msg] is [NULL], and otherwise what the format and its
    arguments come to. *)
Definition rbtk_signal_error_rt (err : Z) (f : option formatted)
    (st : error_module) (w : world) : ending (error_module * world) :=
  if negb (initialized st) then Undefined
  else if err =? RBTK_ERROR_NONE then Undefined
  else
    match get_error_info true st w with
    | Returns (Some i, st1, w1) =>
        let st2 := if signaled i then report st1 i else st1 in
        match f with
        | None =>
            Returns (set_info st2
                       (mkInfo true err (store (msg i) 0 0)
                          (uncaught_error_fun i)), w1)
        | Some fmt =>
            match vsnprintf (msg i) RBTK_ERROR_MESSAGE_MAX_LENGTH fmt with
            | None => Undefined
            | Some (m1, print_result) =>
                if print_result =? -1 then
                  match write_truncate_msg st2 m1 with
                  | None => Undefined
                  | Some m2 =>
                      Returns (set_info st2
                                 (mkInfo true err m2 (uncaught_error_fun i)),
                               w1)
                  end
                else
                  Returns (set_info st2
                             (mkInfo true err m1 (uncaught_error_fun i)), w1)
            end
        end
    | Returns (None, _, _) => Undefined
    | Aborts => Aborts
    | Undefined => Undefined
    end.

(** [rbtk_suggest_error], with [rbtk_signal_error] standing for
    [rbtk_signal_error_rt] as it does under [NDEBUG]. *)
Definition rbtk_suggest_error (err : Z) (f : option formatted)
    (st : error_module) (w : world) : ending (bool * error_module * world) :=
  if negb (initialized st) then Undefined
  else if err =? RBTK_ERROR_NONE then Undefined
  else
    match get_error_info true st w with
    | Returns (Some i, st1, w1) =>
        if signaled i then Returns (false, st1, w1)
        else
          match rbtk_signal_error_rt err f st1 w1 with
          | Returns (st2, w2) => Returns (true, st2, w2)
          | Aborts => Aborts
          | Undefined => Undefined
          end
    | Returns (None, _, _) => Undefined
    | Aborts => Aborts
    | Undefined => Undefined
    end.

(** [rbtk_abort_if_error]. *)
Definition rbtk_abort_if_error (st : error_module) (w : world)
  : ending (error_module * world) :=
  match rbtk_get_last_error (Some None) st w with
  | Returns (code, _, st1, w1) =>
      if negb (code =? 0) then Aborts else Returns (st1, w1)
  | Aborts => Aborts
  | Undefined => Undefined
  end.

(** The info of the thread, if it is allocated. *)
Definition info_of (st : error_module) : option priv_rbtk_error_info :=
  match error_tls st with
  | Some (_, i) => Some i
  | None => None
  end.

(** The module is initialised and the message array of the info, if
    there is one, has its full length. *)
Definition ready (st : error_module) : Prop :=
  initialized st = true
  /\ truncate_msg_len st = strlen truncate_msg
  /\ match info_of st with
     | Some i => Z.of_nat (length (msg i)) = RBTK_ERROR_MESSAGE_MAX_LENGTH
     | None => True
     end.

(** A text that [vsnprintf] can produce: characters other than [NUL]. *)
Definition plain_text (chars : list Z) : Prop :=
  Forall (fun c => c <> 0) chars
  /\ Z.of_nat (length chars) < 2 ^ 31.

(** The info of the thread is there, or the allocation to come
    succeeds. *)
Definition info_available (st : error_module) (w : world) : Prop :=
  error_tls st <> None \/ hd true (malloc_plan w) = true.

(** The message a caller reads back after a signal. *)
Definition message_of (f : option formatted) : list Z :=
  match f with
  | Some (Text chars) =>
      firstn (Z.to_nat (RBTK_ERROR_MESSAGE_MAX_LENGTH - 1)) chars
  | _ => []
  end.

(** The module of a thread that has signalled nothing yet, just
    initialised, and one with an error pending and a callback set. *)
Definition started : error_module :=
  snd (priv_rbtk_error_init (mkErrors false 0 false None [])).

Definition pending : error_module :=
  mkErrors true (strlen truncate_msg) true
    (Some (0%nat,
           mkInfo true 11
             (72 :: 105 :: repeat 0 (Z.to_nat 4094)) (Some 7%nat)))
    [].

End Errors.

(* ================================================================= *)
(** ** [src/runtime/common.h]: the doubly-linked list macros *)

Module Dll.

Section List.

(** What an element carries besides its links. *)
Context {A : Type}.

(** An element with its fields [prev] and [next]. *)
Record node : Type := mkNode {
  item : A;
  prev : ptr;
  next : ptr
}.

(** The elements in memory, by the block they live in. *)
Definition store : Type := nat -> option node.

Definition upd (s : store) (k : nat) (n : node) : store :=
  fun x => if Nat.eqb x k then Some n else s x.

(** [p->prev = v] and [p->next = v]; there is no result when [p] points
    to no element. *)
Definition set_prev (s : store) (p : nat) (v : ptr) : option store :=
  match s p with
  | Some n => Some (upd s p (mkNode (item n) v (next n)))
  | None => None
  end.

Definition set_next (s : store) (p : nat) (v : ptr) : option store :=
  match s p with
  | Some n => Some (upd s p (mkNode (item n) (prev n) v))
  | None => None
  end.

(** The store once the block of [k] is freed. *)
Definition drop (s : store) (k : nat) : store :=
  fun x => if Nat.eqb x k then None else s x.

Definition ptr_eqb (p q : ptr) : bool :=
  match p, q with
  | Some a, Some b => Nat.eqb a b
  | None, None => true
  | _, _ => false
  end.

(** [RBTK_DLL_PUSH(_head, _tail, _elem)]: the store, the head and the
    tail it leaves. *)
Definition RBTK_DLL_PUSH (s : store) (head tail : ptr) (elem : nat)
  : option (store * ptr * ptr) :=
  match head with
  | None =>
      match set_prev s elem NULL with
      | Some s1 =>
          match set_next s1 elem NULL with
          | Some s2 => Some (s2, Some elem, Some elem)
          | None => None
          end
      | None => None
      end
  | Some _ =>
      match set_prev s elem tail with
      | Some s1 =>
          match tail with
          | Some t =>
              match set_next s1 t (Some elem) with
              | Some s2 => Some (s2, head, Some elem)
              | None => None
              end
          | None => None
          end
      | None => None
      end
  end.

(** [RBTK_DLL_REMOVE(_head, _tail, _elem)]. *)
Definition RBTK_DLL_REMOVE (s : store) (head tail : ptr) (elem : nat)
  : option (store * ptr * ptr) :=
  match s elem with
  | None => None
  | Some n =>
      let head1 := if ptr_eqb (Some elem) head then next n else head in
      let tail1 := if ptr_eqb (Some elem) tail then prev n else tail in
      let s1 :=
        match prev n with
        | Some p => set_next s p (next n)
        | None => Some s
        end in
      match s1 with
      | None => None
      | Some s1 =>
          match s1 elem with
          | None => None
          | Some n1 =>
              match next n1 with
              | Some q =>
                  match set_prev s1 q (prev n1) with
                  | Some s2 => Some (s2, head1, tail1)
                  | None => None
                  end
              | None => Some (s1, head1, tail1)
              end
          end
      end
  end.

(** The store after the element whose links are [p] and [q] is taken out
    of its list: [p->next = q] and [q->prev = p]. *)
Definition unlinked (s : store) (p q : ptr) : store :=
  fun x =>
    match s x with
    | Some m =>
        Some (mkNode (item m)
                (if ptr_eqb (Some x) q then p else prev m)
                (if ptr_eqb (Some x) p then q else next m))
    | None => None
    end.

Definition first (l : list nat) : ptr :=
  match l with
  | [] => None
  | x :: _ => Some x
  end.

(** The elements [l], in this order, are linked to one another, the first
    of them after the element [before]; [tail] is the last element, or
    [before] if there is none. *)
Fixpoint chain (s : store) (before : ptr) (l : list nat) (tail : ptr)
  : Prop :=
  match l with
  | [] => tail = before
  | x :: rest =>
      (exists n, s x = Some n /\ prev n = before /\ next n = first rest)
      /\ chain s (Some x) rest tail
  end.

(** [head] and [tail] are the ends of the list of the elements [l]. *)
Definition dll (s : store) (head tail : ptr) (l : list nat) : Prop :=
  head = first l /\ chain s None l tail /\ NoDup l.

End List.

(** Two elements in a list, and a third that is in none. *)
Definition sample : @store nat :=
  upd (upd (upd (fun _ => None) 1 (mkNode 10%nat NULL (Some 2%nat)))
         2 (mkNode 20%nat (Some 1%nat) NULL))
    3 (mkNode 30%nat NULL NULL).

End Dll.

(* ================================================================= *)
(** ** [src/engine/audio.c]: the sounds the engine maintains *)

Module Sounds.

(** [RBTK_SOUND], the fields the bookkeeping reads and writes. *)
Record RBTK_SOUND : Type := mkSound {
  closed : bool;
  maintained : ptr
}.

Definition sizeof_maintained_sounds : Z := 24.

(** The statics of [audio.c], the [rbtk_maintained_sounds] elements and
    the sounds in memory, and the sounds handed to
    [plat_rbtk_close_sound] so far. *)
Record audio : Type := mkAudio {
  maintained_head : ptr;
  maintained_tail : ptr;
  initialized : bool;
  elems : @Dll.store nat;
  sounds : nat -> option RBTK_SOUND;
  plat_closed : list nat
}.

Definition set_sound (a : audio) (k : nat) (s : RBTK_SOUND) : audio :=
  mkAudio (maintained_head a) (maintained_tail a) (initialized a) (elems a)
    (fun x => if Nat.eqb x k then Some s else sounds a x) (plat_closed a).

Definition set_list (a : audio) (e : @Dll.store nat) (head tail : ptr)
  : audio :=
  mkAudio head tail (initialized a) e (sounds a) (plat_closed a).

(** [priv_rbtk_audio_init]; [plat_ok] is the result of
    [plat_rbtk_audio_init]. *)
Definition priv_rbtk_audio_init (plat_ok : bool) (a : audio) : bool * audio :=
  if initialized a then (true, a)
  else if negb plat_ok then (false, a)
  else (true, mkAudio NULL NULL true (elems a) (sounds a) (plat_closed a)).

(** [priv_rbtk_audio_maintain]; there is no result when an assertion
    fails. *)
Definition priv_rbtk_audio_maintain (sound : nat) (a : audio) (w : world)
  : outcome (bool * audio * world) :=
  match sounds a sound with
  | None => Undefined
  | Some s =>
      if negb (initialized a) then Undefined
      else
        match maintained s with
        | Some _ => Done (true, a, w)
        | None =>
            match malloc w sizeof_maintained_sounds with
            | (None, w1) =>
                Done (false, a, rbtk_signal_error w1 RBTK_ERROR_OUT_OF_MEMORY)
            | (Some elem, w1) =>
                let e := Dll.upd (elems a) elem (Dll.mkNode sound NULL NULL) in
                match Dll.RBTK_DLL_PUSH e (maintained_head a)
                        (maintained_tail a) elem with
                | Some (e1, head, tail) =>
                    Done (true,
                          set_sound (set_list a e1 head tail) sound
                            (mkSound (closed s) (Some elem)),
                          w1)
                | None => Undefined
                end
            end
        end
  end.

(** [priv_rbtk_audio_abandon]. *)
Definition priv_rbtk_audio_abandon (sound : nat) (a : audio) (w : world)
  : outcome (audio * world) :=
  match sounds a sound with
  | None => Undefined
  | Some s =>
      match maintained s with
      | Some elem =>
          if initialized a then
            match Dll.RBTK_DLL_REMOVE (elems a) (maintained_head a)
                    (maintained_tail a) elem with
            | Some (e1, head, tail) =>
                Done (set_sound (set_list a (Dll.drop e1 elem) head tail)
                        sound (mkSound (closed s) NULL),
                      free w (Some elem))
            | None => Undefined
            end
          else Done (a, w)
      | None => Done (a, w)
      end
  end.

(** [rbtk_close_sound]. *)
Definition rbtk_close_sound (sound : nat) (a : audio) (w : world)
  : outcome (audio * world) :=
  match sounds a sound with
  | None => Undefined
  | Some s =>
      if negb (closed s) then
        let a1 :=
          mkAudio (maintained_head a) (maintained_tail a) (initialized a)
            (elems a) (sounds a) (plat_closed a ++ [sound]) in
        match priv_rbtk_audio_abandon sound a1 w with
        | Done (a2, w1) =>
            match sounds a2 sound with
            | Some s2 =>
                Done (set_sound a2 sound (mkSound true (maintained s2)), w1)
            | None => Undefined
            end
        | Undefined => Undefined
        | OutOfFuel => OutOfFuel
        end
      else Done (a, w)
  end.

(** The loop [while (cur)] of [priv_rbtk_audio_terminate]. *)
Fixpoint close_maintained (fuel : nat) (cur : ptr) (a : audio) (w : world)
  : outcome (audio * world) :=
  match cur with
  | None => Done (a, w)
  | Some c =>
      match fuel with
      | O => OutOfFuel
      | S fuel' =>
          match elems a c with
          | None => Undefined
          | Some n =>
              let sound := Dll.item n in
              match rbtk_close_sound sound a w with
              | Done (a1, w1) =>
                  match priv_rbtk_audio_abandon sound a1 w1 with
                  | Done (a2, w2) =>
                      close_maintained fuel' (maintained_head a2) a2 w2
                  | Undefined => Undefined
                  | OutOfFuel => OutOfFuel
                  end
              | Undefined => Undefined
              | OutOfFuel => OutOfFuel
              end
          end
      end
  end.

(** [priv_rbtk_audio_terminate]; [plat_ok] is the result of
    [plat_rbtk_audio_terminate]. *)
Definition priv_rbtk_audio_terminate (fuel : nat) (plat_ok : bool)
    (a : audio) (w : world) : outcome (bool * audio * world) :=
  if negb (initialized a) then Done (true, a, w)
  else
    match close_maintained fuel (maintained_head a) a w with
    | Done (a1, w1) =>
        if negb plat_ok then Done (false, a1, w1)
        else
          Done (true,
                mkAudio NULL NULL false (elems a1) (sounds a1)
                  (plat_closed a1), w1)
    | Undefined => Undefined
    | OutOfFuel => OutOfFuel
    end.

(** The sound an element is for. *)
Definition sound_of (a : audio) (e : nat) : option nat :=
  match elems a e with
  | Some n => Some (Dll.item n)
  | None => None
  end.

(** The elements [es], oldest first, are the list between
    [maintained_head] and [maintained_tail]; each is a live block and the
    element its sound points to, and a sound points to no element but
    one of them. *)
Definition maintains (a : audio) (w : world) (es : list nat) : Prop :=
  initialized a = true
  /\ Dll.dll (elems a) (maintained_head a) (maintained_tail a) es
  /\ (forall e, In e es ->
        exists x s,
          sound_of a e = Some x /\ sounds a x = Some s
          /\ maintained s = Some e
          /\ In (e, sizeof_maintained_sounds) (heap w))
  /\ (forall x s e,
        sounds a x = Some s -> maintained s = Some e ->
        In e es /\ sound_of a e = Some x).

(** What [priv_rbtk_audio_terminate] makes of a sound: one that was
    maintained is closed and abandoned. *)
Definition terminated (s : RBTK_SOUND) : RBTK_SOUND :=
  match maintained s with
  | Some _ => mkSound true NULL
  | None => s
  end.

(** The sound of the element [e], if it is not closed yet. *)
Definition still_open (a : audio) (e : nat) : list nat :=
  match sound_of a e with
  | Some x =>
      match sounds a x with
      | Some s => if closed s then [] else [x]
      | None => []
      end
  | None => []
  end.

(** The block [blk] is none of the elements [es]. *)
Definition not_element (es : list nat) (blk : nat * Z) : bool :=
  negb (existsb (Nat.eqb (fst blk)) es).

(** The world once each of the elements [es] is freed. *)
Definition freed (es : list nat) (w : world) : world :=
  fold_left (fun w e => free w (Some e)) es w.

(** An initialised module with nothing to maintain, and the sound [0]
    that is open. *)
Definition started : audio :=
  mkAudio NULL NULL true (fun _ => None)
    (fun x => if Nat.eqb x 0 then Some (mkSound false NULL) else None) [].

(** The module that maintains the sound [0] with the element [0], and
    the heap that holds this element. *)
Definition maintaining : audio :=
  mkAudio (Some 0%nat) (Some 0%nat) true
    (Dll.upd (fun _ => None) 0 (Dll.mkNode 0%nat NULL NULL))
    (fun x => if Nat.eqb x 0 then Some (mkSound false (Some 0%nat)) else None)
    [].

Definition maintaining_world : world :=
  mkWorld [(0%nat, sizeof_maintained_sounds)] 1 [] None.

End Sounds.

(* ================================================================= *)
(** * Properties *)

#[local] Arguments Z.mul : simpl never.
#[local] Arguments Z.add : simpl never.
#[local] Arguments Z.sub : simpl never.
#[local] Arguments Z.pow : simpl never.
#[local] Arguments Z.modulo : simpl never.
#[local] Arguments Z.div : simpl never.
#[local] Arguments Z.to_nat : simpl never.
#[local] Arguments Z.of_nat : simpl never.

(** ** Machine integers and buffers *)

Lemma size_wrap_small x : 0 <= x < SIZE_MOD -> size_wrap x = x.
Proof. intros H. unfold size_wrap. now apply Z.mod_small. Qed.

Lemma size_wrap_range x : 0 <= size_wrap x < SIZE_MOD.
Proof. unfold size_wrap, SIZE_MOD. apply Z.mod_pos_bound. lia. Qed.

Lemma to_int_small x : - 2 ^ 31 <= x < 2 ^ 31 -> to_int x = x.
Proof. intros H. unfold to_int. rewrite Z.mod_small; lia. Qed.

Lemma to_short_range x : -32768 <= to_short x <= 32767.
Proof.
  unfold to_short.
  assert (0 <= (x + 32768) mod 65536 < 65536) by (apply Z.mod_pos_bound; lia).
  lia.
Qed.

Lemma to_short_small x : -32768 <= x <= 32767 -> to_short x = x.
Proof. intros H. unfold to_short. rewrite Z.mod_small; lia. Qed.

Lemma blit_length buf off bytes buf' :
  blit buf off bytes = Some buf' -> length buf' = length buf.
Proof.
  unfold blit. destruct (_ && _) eqn:E; [|discriminate].
  intros [= <-]. apply andb_true_iff in E as [E1 E2].
  apply Z.leb_le in E1, E2.
  rewrite !length_app, length_firstn, length_skipn. lia.
Qed.

Lemma store_length buf i b : length (store buf i b) = length buf.
Proof.
  revert i. induction buf as [|h t IH]; intros [|j]; simpl; auto.
Qed.

(** ** Sample conversion *)

Lemma rbtk_clamp_i16_of_short x :
  -32768 <= x <= 32767 -> rbtk_clamp_i16 x (-32768) 32767 = x.
Proof.
  intros H. unfold rbtk_clamp_i16.
  destruct (x <? -32768) eqn:E1; [apply Z.ltb_lt in E1; lia|].
  destruct (x >? 32767) eqn:E2; [|reflexivity].
  apply Z.gtb_lt in E2. lia.
Qed.

(** The clamp of [PCM_FROM_VORBIS_SAMPLE] receives a [short] and returns it
    as it is. *)
Lemma PCM_FROM_VORBIS_SAMPLE_narrows sample :
  PCM_FROM_VORBIS_SAMPLE sample
  = to_short (Qtrunc (inject_Z 32768 * sample)).
Proof.
  unfold PCM_FROM_VORBIS_SAMPLE.
  apply rbtk_clamp_i16_of_short, to_short_range.
Qed.

(** Inside the range of [short] the source and the specification agree. *)
Lemma PCM_FROM_VORBIS_SAMPLE_in_range sample :
  -32768 <= Qtrunc (inject_Z 32768 * sample) <= 32767 ->
  PCM_FROM_VORBIS_SAMPLE sample = spec_pcm_of_sample sample.
Proof.
  intros H. rewrite PCM_FROM_VORBIS_SAMPLE_narrows.
  unfold spec_pcm_of_sample.
  rewrite rbtk_clamp_i16_of_short by exact H.
  now apply to_short_small.
Qed.

Lemma pcm_low_byte_mod pcm : pcm_low_byte pcm = pcm mod 256.
Proof.
  unfold pcm_low_byte, to_uchar. rewrite Z.shiftr_0_r.
  change 255 with (Z.ones 8). rewrite Z.land_ones by lia.
  change (2 ^ 8) with 256. apply Z.mod_mod. lia.
Qed.

Lemma pcm_high_byte_mod pcm : pcm_high_byte pcm = (pcm / 256) mod 256.
Proof.
  unfold pcm_high_byte, to_uchar. rewrite Z.shiftr_land.
  change (Z.shiftr 65280 8) with (Z.ones 8). rewrite Z.land_ones by lia.
  rewrite Z.shiftr_div_pow2 by lia.
  change (2 ^ 8) with 256. apply Z.mod_mod. lia.
Qed.

(** The two bytes stored are the little-endian two's complement form of
    the 16-bit value: low byte first. *)
Lemma pcm_bytes_little_endian pcm :
  pcm_low_byte pcm + 256 * pcm_high_byte pcm = pcm mod 65536.
Proof.
  rewrite pcm_low_byte_mod, pcm_high_byte_mod.
  change 65536 with (256 * 256).
  rewrite Z.rem_mul_r by lia. reflexivity.
Qed.

(** C6, evaluated.  The source narrows the scaled sample to [short] before
    it clamps, so the clamp never acts: a full-scale sample of 1.0, scaled
    to 32768, is stored as the bytes 00 80 (-32768), where scaling and
    then clamping gives 32767. *)
Theorem C6_full_scale_sample_wraps :
  (forall sample,
      PCM_FROM_VORBIS_SAMPLE sample
      = to_short (Qtrunc (inject_Z 32768 * sample)))
  /\ PCM_FROM_VORBIS_SAMPLE (1 # 1) = -32768
  /\ spec_pcm_of_sample (1 # 1) = 32767
  /\ write_channels 1 [[1 # 1]] 0 0 [0; 0] 0 = ([0; 128], 2).
Proof.
  split; [exact PCM_FROM_VORBIS_SAMPLE_narrows|].
  repeat split; reflexivity.
Qed.

(** ** Serialisation of pending samples *)

Section Serialisation.

Context {Src Dec : Type} {IS : InStream Src} {PD : PushDecoder Dec}.

Local Abbreviation source := (@rbtk_vorbis_audio_source Src Dec).

Lemma write_channels_length n samples s : forall c cbuf off,
  length (fst (write_channels n samples s c cbuf off)) = length cbuf.
Proof.
  induction n as [|n IH]; intros c cbuf off; simpl; [reflexivity|].
  rewrite IH, !store_length. reflexivity.
Qed.

Lemma write_channels_offset n samples s : forall c cbuf off,
  0 <= off -> off + 2 * Z.of_nat n < SIZE_MOD ->
  snd (write_channels n samples s c cbuf off) = off + 2 * Z.of_nat n.
Proof.
  induction n as [|n IH]; intros c cbuf off Hoff Hmax; simpl (snd _).
  - simpl. lia.
  - unfold VORBIS_BYTES_PER_SAMPLE, size_add.
    rewrite (size_wrap_small (off + 2)) by lia.
    rewrite IH by lia. lia.
Qed.

(** The frame size [VORBIS_BYTES_PER_SAMPLE * channels], without
    wrap-around for an [unsigned int] number of channels. *)
Lemma channel_size_exact chans :
  0 <= chans < 2 ^ 32 ->
  size_mul VORBIS_BYTES_PER_SAMPLE chans = 2 * chans.
Proof.
  intros H. unfold size_mul, VORBIS_BYTES_PER_SAMPLE.
  apply size_wrap_small. unfold SIZE_MOD. lia.
Qed.

(** Each turn of the outer loop writes one whole frame or none: the offset
    stays a multiple of the frame size and inside the caller's buffer. *)
Lemma write_samples_loop_frames n : forall (v : source) samples chans s cbuf off len,
  0 <= chans < 2 ^ 32 -> 0 <= off <= len -> len < 2 ^ 62 ->
  (2 * chans | off) ->
  let r := write_samples_loop n v samples chans (2 * chans) s cbuf off len in
  off <= snd r <= len /\ (2 * chans | snd r)
  /\ channels (fst (fst r)) = channels v.
Proof.
  induction n as [|n IH]; intros v samples chans s cbuf off len Hc Hoff Hlen Hdiv;
    cbn [write_samples_loop].
  - simpl. repeat split; auto; lia.
  - assert (Hadd : size_add off (2 * chans) = off + 2 * chans).
    { apply size_wrap_small. unfold SIZE_MOD. lia. }
    rewrite Hadd.
    destruct (off + 2 * chans >? len) eqn:E; simpl.
    + repeat split; auto; lia.
    + assert (off + 2 * chans <= len).
      { destruct (Z.gtb_spec (off + 2 * chans) len); [discriminate|lia]. }
      destruct (write_channels (Z.to_nat chans) samples s 0 cbuf off)
        as [cbuf1 off1] eqn:W.
      assert (Hoff1 : off1 = off + 2 * chans).
      { change off1 with (snd (cbuf1, off1)). rewrite <- W.
        rewrite write_channels_offset; unfold SIZE_MOD; lia. }
      subst off1.
      specialize (IH (set_outputs_index v (size_add (outputs_index v) 1))
                     samples chans (s + 1) cbuf1 (off + 2 * chans) len).
      destruct IH as (I1 & I2 & I3); auto; try lia.
      { apply Z.divide_add_r; [assumption|apply Z.divide_refl]. }
      simpl in I3. cbv zeta. repeat split; try assumption; lia.
Qed.

Lemma write_vorbis_samples_frames (v : source) off buf len :
  0 <= channels v < 2 ^ 32 -> 0 <= off <= len -> len < 2 ^ 62 ->
  (2 * channels v | off) ->
  let r := write_vorbis_samples v off buf len in
  off <= snd r <= len /\ (2 * channels v | snd r)
  /\ channels (fst (fst r)) = channels v.
Proof.
  intros Hc Hoff Hlen Hdiv. unfold write_vorbis_samples.
  destruct (outputs v) as [samples|]; simpl.
  - rewrite channel_size_exact by assumption.
    pose proof (write_samples_loop_frames
                  (Z.to_nat (outputs_size v - outputs_index v)) v samples
                  (channels v) (outputs_index v) buf off len Hc Hoff Hlen Hdiv)
      as H.
    simpl in H.
    destruct (write_samples_loop _ v samples (channels v) (2 * channels v)
                (outputs_index v) buf off len) as [[v1 cbuf] off1].
    simpl in H. destruct H as (H1 & H2 & H3).
    destruct (outputs_index v1 >=? outputs_size v1); simpl; auto.
  - repeat split; auto; lia.
Qed.

End Serialisation.

(** ** The decode loop *)

Section DecodeLoop.

Context {Src Dec : Type} {IS : InStream Src} {PD : PushDecoder Dec}.

Local Abbreviation source := (@rbtk_vorbis_audio_source Src Dec).

Lemma decode_loop_channels fuel : forall (v : source) w read e v' w',
  decode_loop fuel v w read = Done (e, v', w') ->
  channels v' = channels v.
Proof.
  induction fuel as [|fuel IH]; intros v w read e v' w' H;
    cbn [decode_loop] in H; [discriminate|].
  destruct (decoder v) as [d|]; [|discriminate].
  set (r := stb_vorbis_decode_frame_pushdata d (buffer_data v)
              (to_int (buffer_size v))) in *.
  remember (match fr_output r with
            | Some o => set_outputs (set_decoder v (Some (fr_decoder r)))
                          (Some o)
            | None => set_decoder v (Some (fr_decoder r))
            end) as v2 eqn:Ev2.
  assert (Hv2 : channels v2 = channels v).
  { subst v2. destruct (fr_output r); reflexivity. }
  clear Ev2.
  cbv zeta in H.
  destruct (fr_bytes_used r =? 0).
  - destruct (read <=? 0); [injection H as <- <- <-; exact Hv2|].
    destruct (buffer_size v2 >=? MAX_BUFSIZE);
      [injection H as <- <- <-; exact Hv2|].
    destruct (double_buffer_size w (buffer v2) (buffer_data v2)
                (buffer_size v2)) as [[[[[rem b1] d1] s1] w1]| |];
      try discriminate.
    destruct (rbtk_read_bytes (in_ v2) d1 (buffer_offset v2) rem)
      as [[[i1 d2] k]| |]; try discriminate.
    destruct (fr_samples r =? 0).
    + apply IH in H. rewrite H. exact Hv2.
    + injection H as <- <- <-. exact Hv2.
  - destruct (buffer_offset v2 >=? to_uint (fr_bytes_used r));
      [|discriminate].
    destruct (shift_unconsumed_to_front (buffer_data v2) (buffer_offset v2)
                (size_wrap (fr_bytes_used r))) as [[d1 o1]| |];
      try discriminate.
    destruct (fr_samples r =? 0).
    + apply IH in H. rewrite H. exact Hv2.
    + injection H as <- <- <-. exact Hv2.
Qed.

(** C10.  A call of [read_pcm] on a Vorbis source that reports a byte
    count reports a whole number of interleaved frames of
    [2 * channels] bytes, and no more than the buffer holds: the serialiser
    stops before a frame that does not fit.  The buffer length is one that
    the [int] result can express. *)
Theorem C10_read_pcm_whole_frames :
  forall fuel (src : @RBTK_AUDIO_SOURCE Src Dec) w off buf len n src' w' buf',
    0 <= channels (impl src) < 2 ^ 32 ->
    0 <= len <= INT_MAX ->
    rbtk_read_pcm fuel src w off buf len = Done (n, src', w', buf') ->
    0 <= n ->
    (VORBIS_BYTES_PER_SAMPLE * channels (impl src) | n) /\ n <= len.
Proof.
  intros fuel src w off buf len n src' w' buf' Hc Hlen H Hn.
  unfold INT_MAX in Hlen. unfold VORBIS_BYTES_PER_SAMPLE.
  unfold rbtk_read_pcm in H.
  destruct (read_vorbis_pcm fuel (impl src) w buf len)
    as [[[[r v1] w1] b1]| |] eqn:R; try discriminate.
  assert (Hr : r = n).
  { destruct ((r <? 0) || (to_uint r <=? len)); [|discriminate].
    now injection H. }
  subst r. clear H.
  unfold read_vorbis_pcm in R.
  pose proof (write_vorbis_samples_frames (impl src) 0 buf len Hc) as W1.
  destruct (write_vorbis_samples (impl src) 0 buf len) as [[v2 b2] bw] eqn:E1.
  cbn [fst snd] in W1.
  destruct W1 as (B1 & D1 & C1); [lia|lia|apply Z.divide_0_r|].
  destruct (bw >=? len).
  - injection R as <- _ _ _. rewrite to_int_small by lia. split; [exact D1|lia].
  - destruct (rbtk_read_bytes (in_ v2) (buffer_data v2) (buffer_offset v2)
                (size_sub (buffer_size v2) (buffer_offset v2)))
      as [[[i1 d1] k]| |]; try discriminate.
    match type of R with
    | context [decode_loop fuel ?v ?w ?k] =>
        destruct (decode_loop fuel v w k) as [[[e v4] w4]| |] eqn:L;
          try discriminate
    end.
    apply decode_loop_channels in L. cbn in L.
    destruct e as [|samples]; [injection R as <- _ _ _; unfold EOF in Hn; lia|].
    match type of R with
    | context [write_vorbis_samples ?v ?o ?b ?l] =>
        pose proof (write_vorbis_samples_frames v o b l) as W2;
          destruct (write_vorbis_samples v o b l) as [[v6 b6] bw2]
    end.
    cbn [fst snd channels set_outputs_size set_outputs_index] in W2.
    rewrite L, C1 in W2.
    destruct W2 as (B2 & D2 & C2); [lia|lia|lia|exact D1|].
    destruct (bw2 >? 0).
    + injection R as <- _ _ _. rewrite to_int_small by lia.
      split; [exact D2|lia].
    + injection R as <- _ _ _. unfold EOF in Hn. lia.
Qed.

End DecodeLoop.

(** ** The continuation from pending samples *)

Section Continuation.

Context {Src Dec : Type} {IS : InStream Src} {PD : PushDecoder Dec}.

Local Abbreviation source := (@rbtk_vorbis_audio_source Src Dec).

Lemma set_outputs_index_same (v : source) :
  set_outputs_index v (outputs_index v) = v.
Proof. destruct v; reflexivity. Qed.

Lemma set_outputs_index_twice (v : source) a b :
  set_outputs_index (set_outputs_index v a) b = set_outputs_index v b.
Proof. reflexivity. Qed.

(** The outer loop writes as many frames as are pending or as fit, whichever
    is less, and advances [outputs_index] by that number. *)
Lemma write_samples_loop_count n :
  forall (v : source) samples chans s cbuf off len,
    0 < chans < 2 ^ 32 -> 0 <= off <= len -> len < 2 ^ 62 ->
    0 <= outputs_index v -> outputs_index v + Z.of_nat n < SIZE_MOD ->
    let k := Z.min (Z.of_nat n) ((len - off) / (2 * chans)) in
    let r := write_samples_loop n v samples chans (2 * chans) s cbuf off len in
    snd r = off + k * (2 * chans)
    /\ fst (fst r) = set_outputs_index v (outputs_index v + k).
Proof.
  induction n as [|n IH];
    intros v samples chans s cbuf off len Hc Hoff Hlen Hi Hn;
    cbn [write_samples_loop]; cbv zeta.
  - assert (0 <= (len - off) / (2 * chans)) by (apply Z.div_pos; lia).
    change (Z.of_nat 0) with 0.
    rewrite Z.min_l by lia. cbn [fst snd].
    rewrite (Z.add_0_r (outputs_index v)), set_outputs_index_same.
      split; [lia|reflexivity].
  - assert (Hadd : size_add off (2 * chans) = off + 2 * chans).
    { apply size_wrap_small. unfold SIZE_MOD. lia. }
    rewrite Hadd.
    destruct (Z.gtb_spec (off + 2 * chans) len) as [G|G]; cbn [fst snd].
    + rewrite (Z.div_small (len - off)) by lia.
      rewrite Z.min_r by lia.
      rewrite (Z.add_0_r (outputs_index v)), set_outputs_index_same.
      split; [lia|reflexivity].
    + destruct (write_channels (Z.to_nat chans) samples s 0 cbuf off)
        as [cbuf1 off1] eqn:W.
      assert (Hoff1 : off1 = off + 2 * chans).
      { change off1 with (snd (cbuf1, off1)). rewrite <- W.
        rewrite write_channels_offset; unfold SIZE_MOD; lia. }
      subst off1.
      assert (Hidx : size_add (outputs_index v) 1 = outputs_index v + 1).
      { apply size_wrap_small. lia. }
      rewrite Hidx.
      specialize (IH (set_outputs_index v (outputs_index v + 1))
                     samples chans (s + 1) cbuf1 (off + 2 * chans) len).
      cbv zeta in IH. cbn [outputs_index set_outputs_index] in IH.
      destruct IH as (I1 & I2); try lia.
      rewrite I1, I2, set_outputs_index_twice.
      assert (Hq : (len - off) / (2 * chans)
                   = (len - (off + 2 * chans)) / (2 * chans) + 1).
      { rewrite <- Z.div_add by lia. f_equal. lia. }
      assert (0 <= (len - (off + 2 * chans)) / (2 * chans))
        by (apply Z.div_pos; lia).
      rewrite Hq.
      replace (Z.min (Z.of_nat (S n))
                 ((len - (off + 2 * chans)) / (2 * chans) + 1))
        with (Z.min (Z.of_nat n)
                ((len - (off + 2 * chans)) / (2 * chans)) + 1) by lia.
      split; [lia|f_equal; lia].
Qed.

(** C2.  A call that finds decoded samples pending and whose buffer of
    [len] bytes is a whole number of frames that the pending samples can
    fill returns [len] at once: this holds for every iteration budget,
    zero included, so the decode loop is not entered; the world, the byte
    source, the decoder and the compressed buffer are as before, and the
    pending samples are fewer by the frames written.  With 2 channels, 512
    samples and 12 bytes, 3 frames are written and 509 are pending. *)
Theorem C2_pending_samples_fill_buffer :
  forall fuel (v : source) w buf len samples,
    outputs v = Some samples ->
    0 <= outputs_index v -> outputs_index v < outputs_size v ->
    outputs_size v < 2 ^ 62 ->
    0 < channels v < 2 ^ 32 ->
    0 <= len <= INT_MAX ->
    (2 * channels v | len) ->
    len <= 2 * channels v * (outputs_size v - outputs_index v) ->
    exists v' buf',
      read_vorbis_pcm fuel v w buf len = Done (len, v', w, buf')
      /\ in_ v' = in_ v /\ decoder v' = decoder v
      /\ buffer_data v' = buffer_data v
      /\ buffer_size v' = buffer_size v
      /\ buffer_offset v' = buffer_offset v
      /\ outputs_size v' - outputs_index v'
         = outputs_size v - outputs_index v - len / (2 * channels v)
      /\ (len < 2 * channels v * (outputs_size v - outputs_index v) ->
          outputs v' = Some samples
          /\ outputs_index v' = outputs_index v + len / (2 * channels v)
          /\ outputs_size v' = outputs_size v).
Proof.
  intros fuel v w buf len samples Ho Hi0 Hi Hs Hc Hlen [q Hq] Hfill.
  unfold INT_MAX in Hlen.
  set (pending := outputs_size v - outputs_index v) in *.
  assert (Hk : len / (2 * channels v) = q).
  { subst len. apply Z.div_mul. lia. }
  assert (Hqp : 0 <= q <= pending) by nia.
  unfold read_vorbis_pcm, write_vorbis_samples. rewrite Ho.
  rewrite channel_size_exact by lia.
  change (outputs_size v - outputs_index v) with pending.
  pose proof (write_samples_loop_count (Z.to_nat pending) v samples
                (channels v) (outputs_index v) buf 0 len) as W.
  cbv zeta in W.
  destruct (write_samples_loop (Z.to_nat pending) v samples (channels v)
              (2 * channels v) (outputs_index v) buf 0 len)
    as [[v1 cbuf] off1].
  cbn [fst snd] in W.
  destruct W as (W1 & W2); try lia.
  { unfold SIZE_MOD. rewrite Z2Nat.id by lia. lia. }
  rewrite Z2Nat.id, Z.sub_0_r, Hk, Z.min_r in W1, W2 by lia.
  rewrite Hk. subst v1 off1.
  cbn [outputs_index outputs_size set_outputs_index].
  destruct (Z.geb_spec (outputs_index v + q) (outputs_size v)) as [G|G].
  - (* every pending sample is written: the reference is cleared *)
    assert (Hall : q = pending) by lia.
    replace (0 + q * (2 * channels v) >=? len) with true
      by (symmetry; apply Z.geb_le; lia).
    eexists _, _. split.
    { rewrite to_int_small by lia. do 4 f_equal. lia. }
    cbn. repeat split; try lia.
  - replace (0 + q * (2 * channels v) >=? len) with true
      by (symmetry; apply Z.geb_le; lia).
    eexists _, _. split.
    { rewrite to_int_small by lia. do 4 f_equal. lia. }
    cbn. repeat split; try lia. exact Ho.
Qed.

End Continuation.

(** ** Growth of the compressed buffer *)

Section BufferGrowth.

Context {Src Dec : Type} {IS : InStream Src} {PD : PushDecoder Dec}.

Local Abbreviation source := (@rbtk_vorbis_audio_source Src Dec).

Lemma slice_Some buf off n bytes :
  slice buf off n = Some bytes ->
  0 <= off /\ 0 <= n /\ off + n <= Z.of_nat (length buf)
  /\ Z.of_nat (length bytes) = n.
Proof.
  unfold slice. destruct (_ && _) eqn:E; [|discriminate].
  intros [= <-].
  apply andb_true_iff in E as [E E3]. apply andb_true_iff in E as [E1 E2].
  apply Z.leb_le in E1, E2, E3.
  rewrite length_firstn, length_skipn. lia.
Qed.

Lemma blit_Some buf off bytes buf' :
  blit buf off bytes = Some buf' ->
  0 <= off /\ off + Z.of_nat (length bytes) <= Z.of_nat (length buf)
  /\ length buf' = length buf.
Proof.
  intros H. pose proof (blit_length _ _ _ _ H) as L.
  unfold blit in H. destruct (_ && _) eqn:E; [|discriminate].
  apply andb_true_iff in E as [E1 E2]. apply Z.leb_le in E1, E2. lia.
Qed.

Lemma rbtk_read_bytes_bound (i : Src) data off len i' data' n :
  rbtk_read_bytes i data off len = Done (i', data', n) ->
  length data' = length data /\ 0 <= n /\ 0 <= off
  /\ off + n <= Z.of_nat (length data).
Proof.
  unfold rbtk_read_bytes. destruct (funs_read_bytes i len) as [i1 bytes].
  destruct (blit data off bytes) as [b|] eqn:B; [|discriminate].
  intros [= <- <- <-]. apply blit_Some in B. lia.
Qed.


Lemma fresh_bytes_length n : 0 <= n -> Z.of_nat (length (fresh_bytes n)) = n.
Proof. intros H. unfold fresh_bytes. rewrite repeat_length. lia. Qed.






End BufferGrowth.

Section BufferInvariant.

Context {Src Dec : Type} {IS : InStream Src} {PD : PushDecoder Dec}.

Local Abbreviation source := (@rbtk_vorbis_audio_source Src Dec).

Lemma write_samples_loop_buffer n :
  forall (v : source) samples chans cs s cbuf off len,
    same_buffer v
      (fst (fst (write_samples_loop n v samples chans cs s cbuf off len))).
Proof.
  induction n as [|n IH]; intros v samples chans cs s cbuf off len;
    cbn [write_samples_loop].
  - repeat split.
  - destruct (size_add off cs >? len); [repeat split|].
    destruct (write_channels (Z.to_nat chans) samples s 0 cbuf off)
      as [cbuf1 off1].
    specialize (IH (set_outputs_index v (size_add (outputs_index v) 1))
                   samples chans cs (s + 1) cbuf1 off1 len).
    exact IH.
Qed.

Lemma write_vorbis_samples_buffer (v : source) off buf len :
  same_buffer v (fst (fst (write_vorbis_samples v off buf len))).
Proof.
  unfold write_vorbis_samples.
  destruct (outputs v) as [samples|]; [|repeat split].
  match goal with
  | |- context [write_samples_loop ?n ?v ?sa ?c ?cs ?s ?b ?o ?l] =>
      pose proof (write_samples_loop_buffer n v sa c cs s b o l) as H;
        destruct (write_samples_loop n v sa c cs s b o l) as [[v1 cbuf] off1]
  end.
  cbn [fst] in H.
  destruct (outputs_index v1 >=? outputs_size v1); exact H.
Qed.






End BufferInvariant.

(** ** The bounds of the compressed buffer *)

Section BufferBounds.

Context {Src Dec : Type} {IS : InStream Src} {PD : PushDecoder Dec}.

Local Abbreviation source := (@rbtk_vorbis_audio_source Src Dec).


(** At or past [MAX_BUFSIZE] the open loop does not grow the buffer: the
    open fails with an IO error. *)
Lemma open_loop_at_cap fuel (i : Src) w buf data bufsize read_offset :
  MAX_BUFSIZE <= bufsize ->
  stb_vorbis_open_pushdata data (to_int bufsize)
  = NotOpened VORBIS_need_more_data ->
  open_loop (S fuel) i w buf data bufsize read_offset
  = Done (None, i, rbtk_signal_error w RBTK_ERROR_IO).
Proof.
  intros Hcap Hopen. cbn [open_loop]. rewrite Hopen. cbn.
  destruct (Z.geb_spec bufsize MAX_BUFSIZE); [reflexivity|lia].
Qed.


End BufferBounds.



Lemma opened_three_reachable : reachable (impl Sample.opened_three).
Proof.
  apply (reach_open 8 Sample.three_samples Sample.world0 Sample.opened_three
           [] Sample.world_three).
  vm_compute. reflexivity.
Defined.


(** The scenario of the specification: 2 channels, 512 decoded samples
    pending, a buffer of 12 bytes.  The call returns 12 with no iteration
    budget at all, and 509 samples stay pending. *)
Lemma C2_pending_samples_fill_buffer_witness :
  exists v' buf',
    read_vorbis_pcm 0 Sample.pending_512 Sample.world0 (fresh_bytes 12) 12
    = Done (12, v', Sample.world0, buf')
    /\ outputs_size v' - outputs_index v' = 509
    /\ outputs_index v' = 3.
Proof.
  destruct (C2_pending_samples_fill_buffer 0 Sample.pending_512 Sample.world0
              (fresh_bytes 12) 12
              [repeat (1 # 2) 512; repeat (-1 # 4) 512])
    as (v' & buf' & R & _ & _ & _ & _ & _ & P & Q).
  - reflexivity.
  - vm_compute. discriminate.
  - reflexivity.
  - reflexivity.
  - vm_compute. split; reflexivity.
  - vm_compute. split; discriminate.
  - exists 3. reflexivity.
  - vm_compute. discriminate.
  - exists v', buf'. split; [exact R|]. split; [exact P|].
    apply Q. reflexivity.
Defined.

Lemma C10_read_pcm_whole_frames_witness :
  (VORBIS_BYTES_PER_SAMPLE * channels (impl Sample.pending_512_source) | 12)
  /\ 12 <= 12.
Proof.
  apply (C10_read_pcm_whole_frames 0 Sample.pending_512_source Sample.world0
           0 (fresh_bytes 12) 12 12
           (Sample.source_of
              (match rbtk_read_pcm 0 Sample.pending_512_source Sample.world0
                       0 (fresh_bytes 12) 12 with
               | Done (_, s, _, _) => Done (Some s, [], Sample.world0)
               | _ => Undefined
               end))
           Sample.world0
           (match rbtk_read_pcm 0 Sample.pending_512_source Sample.world0
                    0 (fresh_bytes 12) 12 with
            | Done (_, _, _, b) => b
            | _ => []
            end)).
  - vm_compute. split; [discriminate|reflexivity].
  - vm_compute. split; discriminate.
  - vm_compute. reflexivity.
  - vm_compute. discriminate.
Defined.

(** ** The source at its failure paths, evaluated *)

(** C1, evaluated.  The mono stream [three_samples] holds one frame of
    three samples, six bytes of PCM.  Read with buffers of 1024 bytes the
    source delivers the six bytes; read with buffers of 4 bytes it
    delivers four, and with buffers of 3 bytes two: the bytes of the calls
    that met the end of the stream, or that left a frame behind, are
    lost. *)
Theorem C1_small_reads_lose_samples :
  read_to_end 10 8 (impl Sample.opened_three) Sample.world_three 1024
  = Done [0; 16; 0; 32; 0; 48]
  /\ read_to_end 10 8 (impl Sample.opened_three) Sample.world_three 4
     = Done [0; 16; 0; 32]
  /\ read_to_end 10 8 (impl Sample.opened_three) Sample.world_three 3
     = Done [0; 16].
Proof. cbv zeta. repeat apply conj; vm_compute; reflexivity. Qed.

(** C4, evaluated.  After a first call with a 4-byte buffer has taken two
    of the three samples, the second call writes the third sample into the
    caller's buffer (bytes 00 30) and then returns [EOF]: on the memory
    stream because the stream is at its end, on the scripted stream because
    the decoder needs more data with the buffer at 262144 bytes (an IO
    error is signalled).  In both the written sample is no longer
    pending. *)
Theorem C4_written_bytes_discarded :
  (let r1 := read_vorbis_pcm 8 (impl Sample.opened_three) Sample.world_three
               (fresh_bytes 4) 4 in
   let r2 := read_vorbis_pcm 8 (Sample.state_of r1) (Sample.world_after r1)
               (fresh_bytes 4) 4 in
   Sample.result_of r1 = Some (4, [0; 16; 0; 32])
   /\ outputs_size (Sample.state_of r1) - outputs_index (Sample.state_of r1)
      = 1
   /\ Sample.result_of r2 = Some (EOF, [0; 48; 0; 0])
   /\ outputs (Sample.state_of r2) = None
   /\ last_error (Sample.world_after r2) = None)
  /\ (let r0 := rbtk_source_ogg 8 Sample.trickle Sample.world0 in
      let r1 := read_vorbis_pcm 8 (impl (Sample.source_of r0))
                  (Sample.world_of r0) (fresh_bytes 4) 4 in
      let r2 := read_vorbis_pcm 8 (Sample.state_of r1) (Sample.world_after r1)
                  (fresh_bytes 4) 4 in
      buffer_size (impl (Sample.source_of r0)) = 262144
      /\ Sample.result_of r1 = Some (4, [0; 16; 0; 32])
      /\ Sample.result_of r2 = Some (EOF, [0; 48; 0; 0])
      /\ outputs (Sample.state_of r2) = None
      /\ last_error (Sample.world_after r2) = Some RBTK_ERROR_IO).
Proof. cbv zeta. repeat apply conj; vm_compute; reflexivity. Qed.

(** The check [read < 0] of the open loop never holds: a count of bytes
    read is not negative. *)
Lemma open_loop_zero_read_check {Src : Type} {IS : InStream Src}
    (i : Src) data off len i' data' n :
  rbtk_read_bytes i data off len = Done (i', data', n) -> (n <? 0) = false.
Proof.
  intros H. apply rbtk_read_bytes_bound in H.
  apply Z.ltb_ge. lia.
Qed.

(** C5, evaluated.  On an empty stream the decoder asks for more data and
    every read delivers zero bytes.  The open loop is still running after
    its first doubling, and after its sixth; it ends at the seventh
    attempt, with the buffer at 262144 bytes. *)
Theorem C5_zero_read_keeps_doubling :
  rbtk_source_ogg 1 ([] : Sample.mem_stream) Sample.world0 = OutOfFuel
  /\ rbtk_source_ogg 6 ([] : Sample.mem_stream) Sample.world0 = OutOfFuel
  /\ rbtk_source_ogg 7 ([] : Sample.mem_stream) Sample.world0
     = Done (None, [],
             mkWorld [(7%nat, 262144)] 8 [] (Some RBTK_ERROR_IO)).
Proof. cbv zeta. repeat apply conj; vm_compute; reflexivity. Qed.

(** C9, evaluated.  When the decoder reports an error, and when the header
    does not resolve within the cap, the open fails with an IO error and
    the compressed buffer stays allocated: the heap, empty before the
    call, holds the 4096-byte and the 262144-byte buffer after it. *)
Theorem C9_failed_open_leaks_buffer :
  rbtk_source_ogg 8 ([1] : Sample.mem_stream) Sample.world0
  = Done (None, [], mkWorld [(1%nat, 4096)] 2 [] (Some RBTK_ERROR_IO))
  /\ (let r := rbtk_source_ogg 8 Sample.endless_padding Sample.world0 in
      Sample.returned_null r = true
      /\ Sample.world_of r
         = mkWorld [(7%nat, 262144)] 8 [] (Some RBTK_ERROR_IO)).
Proof. cbv zeta. repeat apply conj; vm_compute; reflexivity. Qed.

(** ** Chunked buffering *)

Lemma blit_front data c :
  Z.of_nat (length c) <= Z.of_nat (length data) ->
  blit data 0 c = Some (c ++ skipn (length c) data).
Proof.
  intros H. unfold blit.
  replace (0 + Z.of_nat (length c) <=? Z.of_nat (length data)) with true
    by (symmetry; apply Z.leb_le; lia).
  reflexivity.
Qed.

Lemma slice_front c rest :
  slice (c ++ rest) 0 (Z.of_nat (length c)) = Some c.
Proof.
  unfold slice. rewrite length_app.
  replace (0 + Z.of_nat (length c) <=? Z.of_nat (length c + length rest))
    with true by (symmetry; apply Z.leb_le; lia).
  replace (0 <=? Z.of_nat (length c)) with true
    by (symmetry; apply Z.leb_le; lia).
  cbn [Z.leb Z.compare andb]. rewrite Nat2Z.id.
  change (Z.to_nat 0) with 0%nat. cbn [skipn].
  rewrite firstn_app, Nat.sub_diag, firstn_all. cbn [firstn].
  now rewrite app_nil_r.
Qed.

Lemma slice_payload c :
  chunk_wf c -> slice (chunk_data c) 0 (chunk_len c) = Some (payload c).
Proof.
  intros [H1 H2]. unfold slice, payload.
  replace (0 + chunk_len c <=? Z.of_nat (length (chunk_data c))) with true
    by (symmetry; apply Z.leb_le; lia).
  replace (0 <=? chunk_len c) with true by (symmetry; apply Z.leb_le; lia).
  reflexivity.
Qed.

Lemma payload_length c :
  chunk_wf c -> Z.of_nat (length (payload c)) = chunk_len c.
Proof.
  intros [H1 H2]. unfold payload. rewrite length_firstn. lia.
Qed.

(** A chunk filled from the stack array holds the bytes just read. *)
Lemma fill_chunk_front b c rest :
  Z.of_nat (length c) <= BUFFER_CHUNK_DATA_SIZE ->
  exists chunk,
    fill_chunk b (c ++ rest) (Z.of_nat (length c)) = Some chunk
    /\ chunk_block chunk = b /\ payload chunk = c /\ chunk_wf chunk
    /\ chunk_len chunk = Z.of_nat (length c).
Proof.
  intros H. unfold fill_chunk. rewrite slice_front.
  assert (Hf : Z.of_nat (length (fresh_bytes BUFFER_CHUNK_DATA_SIZE))
               = BUFFER_CHUNK_DATA_SIZE)
    by (apply fresh_bytes_length; unfold BUFFER_CHUNK_DATA_SIZE; lia).
  rewrite blit_front by lia.
  eexists. split; [reflexivity|]. unfold payload, chunk_wf. cbn.
  rewrite Nat2Z.id, firstn_app, Nat.sub_diag, firstn_all. cbn [firstn].
  rewrite app_nil_r, length_app. repeat split; lia.
Qed.

Lemma all_succeed_S n plan :
  all_succeed (S n) plan
  = match plan with
    | [] => true
    | b :: rest => b && all_succeed n rest
    end.
Proof. destruct plan; reflexivity. Qed.

Lemma all_succeed_nil n : all_succeed n [] = true.
Proof. destruct n; reflexivity. Qed.

Section ReadChunks.

Context {Src : Type} {IS : InStream Src}.

(** The reading loop of [rbtk_buffer_remaining], run on a source that
    delivers the chunks [cs]: it ends, with one chunk node for each chunk
    read before the first failed allocation, if any. *)
Lemma read_chunks_run (cs : list (list Z)) (i0 i' : Src) :
  delivers i0 cs i' ->
  forall fuel w data0 chunks cc ds,
    Z.of_nat (length data0) = BUFFER_CHUNK_DATA_SIZE ->
    (length cs < fuel)%nat ->
    0 <= ds -> ds + Z.of_nat (length (concat cs)) < SIZE_MOD ->
    exists mf i'' w' new ds',
      match rbtk_read_bytes i0 data0 0 BUFFER_CHUNK_DATA_SIZE with
      | Done (i, data, read) => read_chunks fuel i w data read chunks cc ds
      | Undefined => Undefined
      | OutOfFuel => OutOfFuel
      end = Done (mf, i'', w', chunks ++ new, ds')
      /\ heap w' = rev (map chunk_entry new) ++ heap w
      /\ map chunk_block new = seq (next_block w) (length new)
      /\ next_block w' = (next_block w + length new)%nat
      /\ Forall chunk_wf new
      /\ mf = negb (all_succeed (length cs) (malloc_plan w))
      /\ (mf = true -> last_error w' = Some RBTK_ERROR_OUT_OF_MEMORY)
      /\ (mf = false ->
          map payload new = cs /\ i'' = i'
          /\ ds' = ds + Z.of_nat (length (concat cs))
          /\ malloc_plan w' = skipn (length cs) (malloc_plan w)
          /\ last_error w' = last_error w).
Proof.
  induction 1 as [i0 i' Hend|i0 i1 c cs i' Hread Hne Hlen Hrest IH];
    intros fuel w data0 chunks cc ds Hdata Hfuel Hds Hmax;
    (destruct fuel as [|fuel]; [cbn in Hfuel; lia|]).
  - unfold rbtk_read_bytes. rewrite Hend.
    rewrite blit_front by (cbn; lia). cbn [length Z.of_nat read_chunks].
    change (0 >? 0) with false. cbv iota.
    exists false, i', w, [], ds. rewrite app_nil_r.
    cbn. rewrite Z.add_0_r.
    repeat split; try reflexivity; try discriminate; try lia. constructor.
  - unfold rbtk_read_bytes at 1. rewrite Hread.
    rewrite blit_front by lia. cbn [read_chunks].
    assert (Hpos : 0 < Z.of_nat (length c)).
    { destruct c; [congruence|cbn [length]; lia]. }
    destruct (Z.gtb_spec (Z.of_nat (length c)) 0) as [_|?]; [|lia].
    destruct (Z.leb_spec (Z.of_nat (length c)) BUFFER_CHUNK_DATA_SIZE)
      as [_|?]; [|lia].
    cbn [concat] in Hmax. rewrite length_app in Hmax.
    unfold malloc. change (length (c :: cs)) with (S (length cs)).
    rewrite all_succeed_S.
    destruct (malloc_plan w) as [|[|] plan] eqn:Plan.
    1,2:
      (destruct (fill_chunk_front (next_block w) c (skipn (length c) data0)
                   Hlen) as (chunk & Hfill & Hb & Hp & Hwf & Hcl);
       rewrite Hfill;
       match goal with
       | |- context [read_chunks ?f _ ?w1 _ _ ?ch ?cc1 ?ds1] =>
           destruct (IH f w1 (c ++ skipn (length c) data0) ch cc1 ds1)
             as (mf & i'' & w' & new & ds' & R & Hh & Hids & Hn & Hw & Hmf
                 & Herr & Hok)
       end;
       [ rewrite length_app, length_skipn; lia
       | cbn in Hfuel; lia
       | unfold size_add; rewrite size_wrap_small; lia
       | unfold size_add; rewrite size_wrap_small; lia
       | ];
       rewrite R; cbn [heap next_block malloc_plan last_error tl] in *;
       exists mf, i'', w', (chunk :: new), ds';
       rewrite <- app_assoc; cbn [app];
       split; [reflexivity|];
       split; [rewrite Hh; cbn [map rev]; rewrite <- app_assoc;
               unfold chunk_entry at 3; rewrite Hb; reflexivity|];
       split; [cbn [map length seq]; rewrite Hb, Hids; reflexivity|];
       split; [rewrite Hn; cbn [length]; lia|];
       split; [constructor; assumption|];
       split; [rewrite Hmf; try rewrite all_succeed_nil; reflexivity|];
       split; [exact Herr|];
       intros Hfalse; destruct (Hok Hfalse) as (O1 & O2 & O3 & O4 & O5);
       repeat split;
       [ cbn [map]; rewrite Hp, O1; reflexivity
       | exact O2
       | cbn [concat]; rewrite length_app, O3; unfold size_add;
         rewrite size_wrap_small; lia
       | rewrite O4; cbn [length skipn]; try reflexivity;
         destruct (length cs); reflexivity
       | exact O5 ]).
    exists true, i1,
      (rbtk_signal_error (mkWorld (heap w) (next_block w) plan (last_error w))
         RBTK_ERROR_OUT_OF_MEMORY), [], ds.
    rewrite app_nil_r. cbn.
    repeat split; try reflexivity; try discriminate; try lia. constructor.
Qed.

End ReadChunks.

Lemma filter_none {A} (f : A -> bool) l :
  (forall x, In x l -> f x = false) -> filter f l = [].
Proof.
  induction l as [|a l IH]; intros H; cbn; [reflexivity|].
  rewrite (H a) by (left; reflexivity). apply IH.
  intros x Hx. apply H. right. exact Hx.
Qed.

Lemma filter_all {A} (f : A -> bool) l :
  (forall x, In x l -> f x = true) -> filter f l = l.
Proof.
  induction l as [|a l IH]; intros H; cbn; [reflexivity|].
  rewrite (H a) by (left; reflexivity). f_equal. apply IH.
  intros x Hx. apply H. right. exact Hx.
Qed.

Lemma free_chunks_world cs : forall w,
  heap (free_chunks w cs) = filter (not_freed cs) (heap w)
  /\ next_block (free_chunks w cs) = next_block w
  /\ malloc_plan (free_chunks w cs) = malloc_plan w
  /\ last_error (free_chunks w cs) = last_error w.
Proof.
  induction cs as [|c cs IH]; intros w; cbn [free_chunks].
  - repeat split. symmetry. apply filter_all. reflexivity.
  - destruct (IH (free w (Some (chunk_block c)))) as (H1 & H2 & H3 & H4).
    rewrite H1, H2, H3, H4. cbn [free heap next_block malloc_plan last_error].
    repeat split. clear.
    induction (heap w) as [|blk h IHh]; cbn [filter]; [reflexivity|].
    change (not_freed (c :: cs) blk)
      with (negb (Nat.eqb (fst blk) (chunk_block c)) && not_freed cs blk).
    destruct (Nat.eqb (fst blk) (chunk_block c)); cbn [negb andb filter];
      [exact IHh|].
    destruct (not_freed cs blk); [f_equal|]; exact IHh.
Qed.

(** Freeing the chunk nodes of a call removes their blocks, the ones
    allocated in a row from [n0] on, and no other. *)
Lemma free_chunks_restores w new h1 h0 n0 :
  heap w = h1 ++ rev (map chunk_entry new) ++ h0 ->
  map chunk_block new = seq n0 (length new) ->
  Forall (outside n0 (length new)) h1 ->
  Forall (outside n0 (length new)) h0 ->
  heap (free_chunks w new) = h1 ++ h0.
Proof.
  intros Hh Hids Hnew Hold.
  assert (Hkeep : forall h, Forall (outside n0 (length new)) h ->
                            filter (not_freed new) h = h).
  { intros h Hout. apply filter_all. intros blk Hin.
    unfold not_freed. apply forallb_forall.
    intros c Hc. apply negb_true_iff, Nat.eqb_neq.
    rewrite Forall_forall in Hout. specialize (Hout blk Hin).
    assert (Hs : In (chunk_block c) (seq n0 (length new)))
      by (rewrite <- Hids; apply in_map; exact Hc).
    apply in_seq in Hs. unfold outside in Hout. lia. }
  destruct (free_chunks_world new w) as (H & _).
  rewrite H, Hh, !filter_app, (Hkeep h1 Hnew), (Hkeep h0 Hold).
  rewrite filter_none; [reflexivity|].
  intros blk Hin. apply in_rev in Hin. apply in_map_iff in Hin.
  destruct Hin as (c & <- & Hc).
  unfold not_freed. apply not_true_is_false. intros Hall.
  rewrite forallb_forall in Hall. specialize (Hall c Hc).
  cbn in Hall. rewrite Nat.eqb_refl in Hall. discriminate.
Qed.

Lemma heap_wf_outside w k :
  heap_wf w -> Forall (outside (next_block w) k) (heap w).
Proof.
  unfold heap_wf. apply Forall_impl. intros blk H. left. exact H.
Qed.

(** The copy loop lays the chunks end to end and frees each node. *)
Lemma copy_chunks_concat new : forall w pre rest,
  Forall chunk_wf new ->
  length rest = length (concat (map payload new)) ->
  Z.of_nat (length pre) + Z.of_nat (length rest) < SIZE_MOD ->
  copy_chunks w new (pre ++ rest) (Z.of_nat (length pre))
  = Done (pre ++ concat (map payload new),
          Z.of_nat (length pre) + Z.of_nat (length rest),
          free_chunks w new).
Proof.
  induction new as [|c new IH]; intros w pre rest Hwf Hrest Hmax;
    cbn [copy_chunks free_chunks map concat] in *.
  - destruct rest; [|discriminate]. cbn. rewrite Z.add_0_r. reflexivity.
  - inversion Hwf as [|? ? Hc Hnew]; subst.
    rewrite slice_payload by exact Hc.
    pose proof (payload_length c Hc) as Hpl.
    rewrite length_app in Hrest.
    unfold blit.
    replace (0 <=? Z.of_nat (length pre)) with true
      by (symmetry; apply Z.leb_le; lia).
    replace (Z.of_nat (length pre) + Z.of_nat (length (payload c))
             <=? Z.of_nat (length (pre ++ rest))) with true
      by (symmetry; apply Z.leb_le; rewrite length_app; lia).
    cbn [andb]. rewrite Nat2Z.id.
    rewrite firstn_app, Nat.sub_diag, firstn_all. cbn [firstn].
    rewrite app_nil_r.
    rewrite skipn_app, skipn_all2 by lia. cbn [app].
    replace (length pre + length (payload c) - length pre)%nat
      with (length (payload c)) by lia.
    assert (Hoff : size_add (Z.of_nat (length pre)) (chunk_len c)
                   = Z.of_nat (length (pre ++ payload c))).
    { unfold size_add. rewrite length_app, size_wrap_small; lia. }
    rewrite Hoff.
    replace (pre ++ payload c ++ skipn (length (payload c)) rest)
      with ((pre ++ payload c) ++ skipn (length (payload c)) rest)
      by (rewrite <- app_assoc; reflexivity).
    rewrite IH.
    + rewrite <- app_assoc, length_app, length_skipn.
      do 3 f_equal. lia.
    + exact Hnew.
    + rewrite length_skipn. lia.
    + rewrite length_app, length_skipn. lia.
Qed.

Lemma all_succeed_last n : forall plan,
  all_succeed (S n) plan
  = all_succeed n plan && hd true (skipn n plan).
Proof.
  induction n as [|n IH]; intros plan.
  - rewrite all_succeed_S. destruct plan as [|b rest]; [reflexivity|].
    cbn. now rewrite andb_true_r.
  - rewrite all_succeed_S. destruct plan as [|b rest].
    + rewrite all_succeed_nil. reflexivity.
    + rewrite IH, (all_succeed_S n (b :: rest)). cbn [skipn].
      now rewrite andb_assoc.
Qed.


Section BufferRemainingCorrect.

Context {Src : Type} {IS : InStream Src}.

(** What a call of [rbtk_buffer_remaining] comes to, on a source that
    delivers the chunks [cs] and then zero bytes: if the allocations of
    the call succeed, one node for each chunk and the final buffer, the
    bytes delivered in one new block; if not, [NULL], the out-of-memory
    error and the heap of before the call. *)
Lemma rbtk_buffer_remaining_run (i i' : Src) cs fuel w :
  delivers i cs i' ->
  (length cs < fuel)%nat ->
  Z.of_nat (length (concat cs)) < SIZE_MOD ->
  heap_wf w ->
  if all_succeed (S (length cs)) (malloc_plan w) then
    exists b w',
      rbtk_buffer_remaining fuel i w
      = Done (Some (b, concat cs, Z.of_nat (length (concat cs))), i', w')
      /\ heap w' = (b, Z.of_nat (length (concat cs))) :: heap w
      /\ last_error w' = last_error w
  else
    exists i'' w',
      rbtk_buffer_remaining fuel i w = Done (None, i'', w')
      /\ heap w' = heap w
      /\ last_error w' = Some RBTK_ERROR_OUT_OF_MEMORY.
Proof.
  intros Hdel Hfuel Hmax Hwf.
  destruct (all_succeed (S (length cs)) (malloc_plan w)) eqn:Hplan.
  * rewrite all_succeed_last in Hplan. apply andb_true_iff in Hplan.
    destruct Hplan as [Hchunks Hfinal].
    unfold rbtk_buffer_remaining.
    destruct (read_chunks_run cs i i' Hdel fuel w
                (fresh_bytes BUFFER_CHUNK_DATA_SIZE) [] 0 0)
      as (mf & i'' & w1 & new & ds & R & Hh & Hids & Hn & Hcw & Hmf & _ & Hok);
      [apply fresh_bytes_length; unfold BUFFER_CHUNK_DATA_SIZE; lia
      |exact Hfuel|lia|lia|].
    rewrite Hchunks in Hmf. cbn [negb] in Hmf. subst mf.
    destruct (Hok eq_refl) as (Hp & -> & -> & Hpl & Herr). clear Hok.
    destruct (rbtk_read_bytes i (fresh_bytes BUFFER_CHUNK_DATA_SIZE) 0
                BUFFER_CHUNK_DATA_SIZE) as [[[i1 d1] n1]| |];
      try discriminate R.
    rewrite R. cbn [app]. rewrite Z.add_0_l.
    unfold assemble_chunks, malloc. cbn [negb].
    rewrite Hpl.
    replace (match skipn (length cs) (malloc_plan w) with
             | [] => true
             | b :: _ => b
             end) with true
      by (destruct (skipn (length cs) (malloc_plan w)); [reflexivity|];
          cbn in Hfinal; now rewrite Hfinal).
    cbv iota. cbv beta iota.
    pose proof (copy_chunks_concat new
                  (mkWorld
                     ((next_block w1, Z.of_nat (length (concat cs))) :: heap w1)
                     (S (next_block w1))
                     (tl (skipn (length cs) (malloc_plan w))) (last_error w1))
                  [] (fresh_bytes (Z.of_nat (length (concat cs)))) Hcw) as C.
    rewrite Hp in C. cbn [app length] in C.
    change (Z.of_nat 0) with 0 in C. rewrite Z.add_0_l in C.
    assert (Hlen : length (fresh_bytes (Z.of_nat (length (concat cs))))
                   = length (concat cs)).
    { unfold fresh_bytes. rewrite repeat_length. apply Nat2Z.id. }
    rewrite Hlen in C. rewrite C by (reflexivity || lia).
    rewrite Z.eqb_refl.
    eexists _, _. split; [reflexivity|].
    destruct (free_chunks_world new
                (mkWorld
                   ((next_block w1, Z.of_nat (length (concat cs))) :: heap w1)
                   (S (next_block w1))
                   (tl (skipn (length cs) (malloc_plan w))) (last_error w1)))
      as (_ & _ & _ & E).
    split; [|rewrite E; exact Herr].
    rewrite (free_chunks_restores _ new
               [(next_block w1, Z.of_nat (length (concat cs)))] (heap w)
               (next_block w)).
    - reflexivity.
    - cbn [heap app]. rewrite Hh. reflexivity.
    - exact Hids.
    - constructor; [|constructor]. right. cbn [fst]. lia.
    - apply heap_wf_outside, Hwf.
  * rewrite all_succeed_last in Hplan.
    unfold rbtk_buffer_remaining.
    destruct (read_chunks_run cs i i' Hdel fuel w
                (fresh_bytes BUFFER_CHUNK_DATA_SIZE) [] 0 0)
      as (mf & i'' & w1 & new & ds & R & Hh & Hids & Hn & Hcw & Hmf & Hoom & Hok);
      [apply fresh_bytes_length; unfold BUFFER_CHUNK_DATA_SIZE; lia
      |exact Hfuel|lia|lia|].
    destruct (rbtk_read_bytes i (fresh_bytes BUFFER_CHUNK_DATA_SIZE) 0
                BUFFER_CHUNK_DATA_SIZE) as [[[i1 d1] n1]| |];
      try discriminate R.
    rewrite R. cbn [app]. unfold assemble_chunks.
    destruct mf.
    - (* a chunk node could not be allocated *)
      cbn [negb free]. exists i'', (free_chunks w1 new).
      split; [reflexivity|].
      destruct (free_chunks_world new w1) as (_ & _ & _ & E).
      split; [|rewrite E; apply Hoom; reflexivity].
      rewrite (free_chunks_restores _ new [] (heap w) (next_block w));
        [reflexivity|exact Hh|exact Hids|constructor
        |apply heap_wf_outside, Hwf].
    - (* the final buffer could not be allocated *)
      destruct (Hok eq_refl) as (Hp & -> & -> & Hpl & Herr).
      apply (f_equal negb) in Hmf. rewrite negb_involutive in Hmf.
      cbn [negb] in Hmf. rewrite <- Hmf in Hplan. cbn [andb] in Hplan.
      unfold malloc. cbn [negb]. rewrite Hpl.
      replace (match skipn (length cs) (malloc_plan w) with
               | [] => true
               | b :: _ => b
               end) with false
        by (destruct (skipn (length cs) (malloc_plan w));
            [discriminate Hplan|cbn in Hplan; now rewrite Hplan]).
      cbv beta iota. unfold NULL. cbn [free].
      eexists _, _. split; [reflexivity|].
      match goal with
      | |- heap (free_chunks ?w2 new) = _ /\ _ =>
          destruct (free_chunks_world new w2) as (_ & _ & _ & E)
      end.
      split; [|rewrite E; reflexivity].
      rewrite (free_chunks_restores _ new [] (heap w) (next_block w));
        [reflexivity|exact Hh|exact Hids|constructor
        |apply heap_wf_outside, Hwf].
Qed.

(** C7.  On a source that delivers some chunks and then zero bytes, with
    the allocations succeeding, [rbtk_buffer_remaining] returns one
    buffer: its size is the number of bytes delivered, its bytes are the
    chunks in order, and it is the one block the call leaves on the
    heap. *)
Theorem C7_buffer_remaining_exact :
  forall (i i' : Src) cs fuel w,
    delivers i cs i' ->
    (length cs < fuel)%nat ->
    all_succeed (S (length cs)) (malloc_plan w) = true ->
    Z.of_nat (length (concat cs)) < SIZE_MOD ->
    heap_wf w ->
    exists b w',
      rbtk_buffer_remaining fuel i w
      = Done (Some (b, concat cs, Z.of_nat (length (concat cs))), i', w')
      /\ heap w' = (b, Z.of_nat (length (concat cs))) :: heap w
      /\ last_error w' = last_error w.
Proof.
  intros i i' cs fuel w Hdel Hfuel Hplan Hmax Hwf.
  pose proof (rbtk_buffer_remaining_run i i' cs fuel w Hdel Hfuel Hmax Hwf)
    as H.
  rewrite Hplan in H. exact H.
Qed.


End BufferRemainingCorrect.

(** The code after the reading loop is the same in [buffer_pcm_data]: when
    the loop has set [malloc_failure], or when the final buffer cannot be
    allocated, the result is [NULL] and no block of a chunk node is left on
    the heap. *)
Lemma assemble_chunks_cleanup w malloc_failure chunks data_size :
  malloc_failure = true \/ hd true (malloc_plan w) = false ->
  exists w',
    assemble_chunks w malloc_failure chunks data_size = Done (None, w')
    /\ heap w' = filter (not_freed chunks) (heap w)
    /\ (malloc_failure = false ->
        last_error w' = Some RBTK_ERROR_OUT_OF_MEMORY).
Proof.
  intros H. unfold assemble_chunks.
  destruct malloc_failure; cbn [negb].
  - eexists. split; [reflexivity|]. unfold NULL. cbn [free].
    split; [apply free_chunks_world|discriminate].
  - destruct H as [H|H]; [discriminate|].
    unfold malloc. unfold hd in H. rewrite H.
    eexists. split; [reflexivity|]. unfold NULL. cbn [free].
    match goal with
    | |- heap (free_chunks ?w2 chunks) = _ /\ _ =>
        destruct (free_chunks_world chunks w2) as (E1 & _ & _ & E2)
    end.
    rewrite E1, E2. split; reflexivity.
Qed.

(** A memory stream delivers its bytes in chunks of 1024 and then ends. *)
Lemma mem_stream_delivers n : forall s : Sample.mem_stream,
  (length s <= 1024 * n)%nat ->
  exists cs, delivers s cs [] /\ concat cs = s /\ (length cs <= n)%nat.
Proof.
  induction n as [|n IH]; intros s Hs.
  - destruct s; [|cbn [length] in Hs; lia].
    exists []. repeat split; [|cbn [length]; lia].
    apply delivers_end. reflexivity.
  - destruct s as [|a s'] eqn:Es.
    { exists []. repeat split; [|cbn [length]; lia].
      apply delivers_end. reflexivity. }
    rewrite <- Es in *.
    destruct (IH (skipn 1024 s)) as (cs & Hd & Hc & Hl).
    { rewrite length_skipn. lia. }
    exists (firstn 1024 s :: cs). repeat split.
    + apply (delivers_chunk s (skipn 1024 s)).
      * reflexivity.
      * rewrite Es. discriminate.
      * rewrite length_firstn. unfold BUFFER_CHUNK_DATA_SIZE. lia.
      * exact Hd.
    + cbn [concat]. rewrite Hc. apply firstn_skipn.
    + cbn [length]. lia.
Qed.

(** A memory stream of any length, be it 0, 1, 1023, 1024, 1025 or 1000000
    bytes, comes back whole. *)
Corollary rbtk_buffer_remaining_mem_stream (s : Sample.mem_stream) :
  Z.of_nat (length s) < SIZE_MOD ->
  exists b w',
    rbtk_buffer_remaining (S (length s)) s Sample.world0
    = Done (Some (b, s, Z.of_nat (length s)), [], w')
    /\ heap w' = [(b, Z.of_nat (length s))].
Proof.
  intros Hmax.
  destruct (mem_stream_delivers (length s) s) as (cs & Hd & Hc & Hl); [lia|].
  pose proof (rbtk_buffer_remaining_run s [] cs (S (length s)) Sample.world0
                Hd) as H.
  cbn [Sample.world0 malloc_plan] in H. rewrite all_succeed_nil, Hc in H.
  destruct H as (b & w' & R & Hh & _); [lia|exact Hmax|constructor|].
  exists b, w'. split; assumption.
Qed.

Lemma stream_1025_delivers :
  delivers Sample.stream_1025 Sample.chunks_1025 [].
Proof.
  apply (delivers_chunk _ [7]);
    [vm_compute; reflexivity|vm_compute; discriminate
    |vm_compute; discriminate|].
  apply (delivers_chunk _ []);
    [vm_compute; reflexivity|discriminate|vm_compute; discriminate|].
  apply delivers_end. reflexivity.
Defined.

Lemma C7_buffer_remaining_exact_witness :
  exists b w',
    rbtk_buffer_remaining 3 Sample.stream_1025 Sample.world0
    = Done (Some (b, concat Sample.chunks_1025,
                  Z.of_nat (length (concat Sample.chunks_1025))), [], w')
    /\ heap w'
       = (b, Z.of_nat (length (concat Sample.chunks_1025)))
           :: heap Sample.world0
    /\ last_error w' = last_error Sample.world0.
Proof.
  apply (C7_buffer_remaining_exact Sample.stream_1025 [] Sample.chunks_1025 3
           Sample.world0 stream_1025_delivers).
  - vm_compute. lia.
  - reflexivity.
  - vm_compute. reflexivity.
  - constructor.
Defined.


(** [buffer_pcm_data] on the stream [three_samples], opened: the six bytes
    of PCM in a block of six bytes when the allocations succeed; [NULL],
    the out-of-memory error and the heap of before the call when the chunk
    node or the final buffer cannot be allocated. *)
Example buffer_pcm_data_three_samples :
  (let r := buffer_pcm_data 10 8 Sample.opened_three Sample.world_three in
   match r with
   | Done (Some (_, bytes, size), _, w) =>
       bytes = [0; 16; 0; 32; 0; 48] /\ size = 6
       /\ heap w = (4%nat, 6) :: heap Sample.world_three
   | _ => False
   end)
  /\ (forall plan, plan = [false] \/ plan = [true; false] ->
      let w0 := mkWorld (heap Sample.world_three)
                  (next_block Sample.world_three) plan None in
      match buffer_pcm_data 10 8 Sample.opened_three w0 with
      | Done (None, _, w) =>
          heap w = heap Sample.world_three
          /\ last_error w = Some RBTK_ERROR_OUT_OF_MEMORY
      | _ => False
      end).
Proof.
  split; [vm_compute; repeat apply conj; reflexivity|].
  intros plan [-> | ->]; vm_compute; split; reflexivity.
Qed.

(** ** The failure paths, for every byte source and decoder *)

Section FailurePaths.

Context {Src Dec : Type} {IS : InStream Src} {PD : PushDecoder Dec}.

Local Abbreviation source := (@rbtk_vorbis_audio_source Src Dec).

Lemma blit_nothing buf off :
  0 <= off <= Z.of_nat (length buf) -> blit buf off [] = Some buf.
Proof.
  intros H. unfold blit. cbn [length]. change (Z.of_nat 0) with 0.
  rewrite Z.add_0_r, Nat.add_0_r.
  replace (0 <=? off) with true by (symmetry; apply Z.leb_le; lia).
  replace (off <=? Z.of_nat (length buf)) with true
    by (symmetry; apply Z.leb_le; lia).
  cbn [andb app]. now rewrite firstn_skipn.
Qed.

(** The defect behind C1 and C4.  A call that has written pending samples
    into the caller's buffer without filling it, and then finds that the
    byte source has nothing more and that the decoder uses no byte,
    returns [EOF]: the bytes written, [bytes_written] of them, are not
    reported. *)
Lemma read_vorbis_pcm_drops_written fuel (v : source) w buf len d i1 :
  let '(v1, buf1, bytes_written) := write_vorbis_samples v 0 buf len in
  0 < bytes_written < len ->
  0 <= buffer_offset v <= Z.of_nat (length (buffer_data v)) ->
  buffer_offset v < SIZE_MOD ->
  funs_read_bytes (in_ v) (size_sub (buffer_size v) (buffer_offset v))
  = (i1, []) ->
  decoder v = Some d ->
  fr_bytes_used (stb_vorbis_decode_frame_pushdata d (buffer_data v)
                   (to_int (buffer_size v))) = 0 ->
  exists v',
    read_vorbis_pcm (S fuel) v w buf len = Done (EOF, v', w, buf1).
Proof.
  pose proof (write_vorbis_samples_buffer v 0 buf len) as W.
  unfold read_vorbis_pcm.
  destruct (write_vorbis_samples v 0 buf len) as [[v1 buf1] bw].
  cbn [fst] in W. destruct W as (Hd & Hs & Ho & Hi & Hdec).
  intros Hbw Hoff Hmax Hread Hdecoder Hused.
  destruct (Z.geb_spec bw len); [lia|].
  unfold rbtk_read_bytes. rewrite Hi, Hs, Ho, Hread. cbv beta iota.
  rewrite Hd, ?Ho.
  rewrite blit_nothing by exact Hoff.
  cbn [decode_loop length Z.of_nat decoder buffer_data buffer_size
       set_buffer_offset set_buffer_data set_buffer set_in].
  rewrite Hdec, Hdecoder, ?Hd, ?Hs. cbv zeta. rewrite Hused.
  change (0 =? 0) with true. change (0 <=? 0) with true. cbv iota.
  eexists. reflexivity.
Qed.

(** The defect behind C5.  Below [MAX_BUFSIZE], when the decoder asks for
    more data and the byte source delivers zero bytes after the doubling,
    the open loop goes round again with the doubled buffer. *)
Lemma open_loop_zero_read_continues fuel (i i1 : Src) w buf data bufsize
    read_offset :
  Z.of_nat (length data) = bufsize -> 0 < bufsize < MAX_BUFSIZE ->
  0 <= read_offset <= bufsize ->
  hd true (malloc_plan w) = true ->
  stb_vorbis_open_pushdata data (to_int bufsize)
  = NotOpened VORBIS_need_more_data ->
  funs_read_bytes i bufsize = (i1, []) ->
  exists w1 buf1 data1,
    open_loop (S fuel) i w buf data bufsize read_offset
    = open_loop fuel i1 w1 buf1 data1 (2 * bufsize) read_offset.
Proof.
  intros Hlen Hsize Hoff Hplan Hopen Hread. unfold MAX_BUFSIZE in Hsize.
  cbn [open_loop]. rewrite Hopen. cbn [negb Z.eqb VORBIS_need_more_data].
  change (1 =? 1) with true. cbn [negb].
  destruct (Z.geb_spec bufsize MAX_BUFSIZE); [unfold MAX_BUFSIZE in *; lia|].
  unfold double_buffer_size, malloc. unfold hd in Hplan. rewrite Hplan.
  assert (Hm : size_mul bufsize 2 = 2 * bufsize).
  { unfold size_mul. rewrite size_wrap_small; unfold SIZE_MOD; lia. }
  rewrite Hm.
  assert (Hs : size_sub (2 * bufsize) bufsize = bufsize).
  { unfold size_sub. rewrite size_wrap_small; unfold SIZE_MOD; lia. }
  rewrite Hs.
  destruct (slice data 0 bufsize) as [old|] eqn:Sl.
  2:{ unfold slice in Sl. rewrite Hlen in Sl.
      replace (0 <=? bufsize) with true in Sl
        by (symmetry; apply Z.leb_le; lia).
      replace (0 + bufsize <=? bufsize) with true in Sl
        by (symmetry; apply Z.leb_le; lia).
      discriminate Sl. }
  apply slice_Some in Sl. destruct Sl as (_ & _ & _ & Hold).
  rewrite blit_front by (rewrite fresh_bytes_length; lia).
  unfold rbtk_read_bytes. rewrite Hread.
  rewrite blit_nothing.
  2:{ rewrite length_app, length_skipn.
      pose proof (fresh_bytes_length (2 * bufsize)). lia. }
  cbn [length Z.of_nat]. change (0 <? 0) with false. cbv iota.
  unfold size_add. rewrite Z.add_0_r, size_wrap_small
    by (unfold SIZE_MOD; lia).
  eexists _, _, _. reflexivity.
Qed.

(** The defect behind C9.  When the decoder rejects the first 4096 bytes,
    [rbtk_source_ogg] returns [NULL] with an IO error and leaves the
    4096-byte buffer on the heap. *)
Lemma failed_open_leaks_buffer fuel (i i1 : Src) w bytes err :
  malloc_plan w = [] -> heap_wf w ->
  funs_read_bytes i MIN_BUFSIZE = (i1, bytes) ->
  Z.of_nat (length bytes) <= MIN_BUFSIZE ->
  stb_vorbis_open_pushdata
    (bytes ++ skipn (length bytes) (fresh_bytes MIN_BUFSIZE))
    (to_int MIN_BUFSIZE) = NotOpened err ->
  err <> VORBIS_need_more_data ->
  rbtk_source_ogg (S fuel) i w
  = Done (None, i1,
          mkWorld ((S (next_block w), MIN_BUFSIZE) :: heap w)
            (S (S (next_block w))) [] (Some RBTK_ERROR_IO)).
Proof.
  intros Hplan Hwf Hread Hlen Hopen Herr.
  unfold rbtk_source_ogg, open_vorbis_decoder, malloc. rewrite Hplan.
  cbn [tl heap next_block malloc_plan last_error in_].
  unfold rbtk_read_bytes. rewrite Hread.
  rewrite blit_front
    by (rewrite fresh_bytes_length; unfold MIN_BUFSIZE in *; lia).
  cbn [open_loop]. rewrite Hopen.
  replace (err =? VORBIS_need_more_data) with false
    by (symmetry; apply Z.eqb_neq; exact Herr).
  cbn [negb in_ set_in free rbtk_signal_error heap next_block malloc_plan
       last_error filter fst].
  rewrite Nat.eqb_refl.
  replace (Nat.eqb (S (next_block w)) (next_block w)) with false
    by (symmetry; apply Nat.eqb_neq; lia).
  cbn [negb]. do 3 f_equal.
  f_equal. apply filter_all. intros blk Hin.
  unfold heap_wf in Hwf. rewrite Forall_forall in Hwf.
  specialize (Hwf blk Hin). apply negb_true_iff, Nat.eqb_neq. lia.
Qed.

End FailurePaths.

(* ================================================================= *)
(** * Further properties of the code *)


(** ** The growth and the shift of the compressed buffer *)


Lemma firstn_app_exact {A} (l1 l2 : list A) n :
  n = length l1 -> firstn n (l1 ++ l2) = l1.
Proof.
  intros ->. rewrite firstn_app, Nat.sub_diag, firstn_all. cbn [firstn].
  apply app_nil_r.
Qed.

Lemma skipn_app_exact {A} (l1 l2 : list A) n :
  n = length l1 -> skipn n (l1 ++ l2) = l2.
Proof.
  intros ->. rewrite skipn_app, Nat.sub_diag, skipn_all. reflexivity.
Qed.




(** X2: [shift_unconsumed_to_front].  With [consumed] bytes used out of the
    [read] bytes buffered, and the unconsumed bytes no more than the
    consumed ones, so that the two regions of the [memcpy] do not overlap,
    the unconsumed bytes move to the front and the new count is
    [read - consumed]; the bytes after them are left as they were, as the
    note in the source says.  If more is consumed than was read the length
    of the copy wraps around and the behaviour is undefined. *)
Theorem shift_unconsumed_to_front_contract :
  forall buf read consumed,
    0 <= consumed -> read <= Z.of_nat (length buf) ->
    Z.of_nat (length buf) < SIZE_MOD ->
    (consumed <= read -> read - consumed <= consumed ->
     exists buf',
       shift_unconsumed_to_front buf read consumed
       = Done (buf', read - consumed)
       /\ length buf' = length buf
       /\ firstn (Z.to_nat (read - consumed)) buf'
          = firstn (Z.to_nat (read - consumed)) (skipn (Z.to_nat consumed) buf)
       /\ skipn (Z.to_nat (read - consumed)) buf'
          = skipn (Z.to_nat (read - consumed)) buf)
    /\ (read < consumed -> consumed < SIZE_MOD -> 0 <= read ->
        shift_unconsumed_to_front buf read consumed = Undefined).
Proof.
  intros buf read consumed Hc Hr Hmax. split.
  - intros Hle _. unfold shift_unconsumed_to_front.
    assert (Hs : size_sub read consumed = read - consumed).
    { unfold size_sub. apply size_wrap_small. lia. }
    rewrite Hs. unfold slice.
    replace (0 <=? consumed) with true by (symmetry; apply Z.leb_le; lia).
    replace (0 <=? read - consumed) with true
      by (symmetry; apply Z.leb_le; lia).
    replace (consumed + (read - consumed) <=? Z.of_nat (length buf)) with true
      by (symmetry; apply Z.leb_le; lia).
    cbn [andb].
    set (bytes := firstn (Z.to_nat (read - consumed))
                    (skipn (Z.to_nat consumed) buf)).
    assert (Hbl : length bytes = Z.to_nat (read - consumed)).
    { unfold bytes. rewrite length_firstn, length_skipn. lia. }
    rewrite blit_front by lia.
    eexists. split; [reflexivity|].
    rewrite length_app, length_skipn, Hbl.
    split; [lia|]. split.
    + apply firstn_app_exact. now rewrite Hbl.
    + rewrite skipn_app_exact by now rewrite Hbl. reflexivity.
  - intros Hlt Hcm Hr0. unfold shift_unconsumed_to_front.
    assert (Hs : size_sub read consumed = read - consumed + SIZE_MOD).
    { unfold size_sub, size_wrap.
      rewrite <- (Z.mod_add _ 1) by (unfold SIZE_MOD; lia).
      rewrite Z.mul_1_l. apply Z.mod_small. lia. }
    rewrite Hs. unfold slice.
    replace (consumed + (read - consumed + SIZE_MOD)
             <=? Z.of_nat (length buf)) with false
      by (symmetry; apply Z.leb_gt; lia).
    rewrite andb_false_r. reflexivity.
Qed.

Lemma shift_unconsumed_to_front_contract_witness :
  exists buf',
    shift_unconsumed_to_front [1; 2; 3; 4; 5; 6] 5 3 = Done (buf', 2)
    /\ firstn 2 buf' = [4; 5]
    /\ skipn 2 buf' = [3; 4; 5; 6].
Proof.
  destruct (shift_unconsumed_to_front_contract [1; 2; 3; 4; 5; 6] 5 3)
    as [H _].
  - lia.
  - cbn [length]. lia.
  - vm_compute. reflexivity.
  - destruct H as (buf' & R & _ & F & S); [lia|lia|].
    exists buf'. split; [exact R|]. split; [exact F|exact S].
Defined.


(** ** The heap through open, read and close *)

Section Lifecycle.

Context {Src Dec : Type} {IS : InStream Src} {PD : PushDecoder Dec}.

Local Abbreviation source := (@rbtk_vorbis_audio_source Src Dec).

Lemma malloc_fresh w size :
  heap_wf w ->
  match malloc w size with
  | (Some b, w1) =>
      b = next_block w /\ heap w1 = (b, size) :: heap w
      /\ next_block w1 = S b /\ heap_wf w1
      /\ Forall (fun blk => fst blk <> b) (heap w)
      /\ last_error w1 = last_error w
  | (None, w1) =>
      heap w1 = heap w /\ next_block w1 = next_block w
      /\ last_error w1 = last_error w
  end.
Proof.
  intros Hwf. unfold malloc.
  destruct (match malloc_plan w with [] => true | b :: _ => b end).
  - repeat split; try reflexivity.
    + unfold heap_wf. cbn [heap next_block]. constructor; [cbn; lia|].
      eapply Forall_impl; [|exact Hwf]. cbn. intros; lia.
    + eapply Forall_impl; [|exact Hwf]. cbn. intros; lia.
  - repeat split; reflexivity.
Qed.

Lemma heap_wf_signal w e : heap_wf w -> heap_wf (rbtk_signal_error w e).
Proof. exact (fun H => H). Qed.






Lemma free_unallocated w b :
  heap_wf w -> (next_block w <= b)%nat -> heap (free w (Some b)) = heap w.
Proof.
  intros Hwf Hb. cbn [free heap]. apply filter_all.
  intros blk Hin. unfold heap_wf in Hwf. rewrite Forall_forall in Hwf.
  specialize (Hwf blk Hin). apply negb_true_iff, Nat.eqb_neq. lia.
Qed.










End Lifecycle.



(** ** The output cursor and the byte count *)

Section Bookkeeping.

Context {Src Dec : Type} {IS : InStream Src} {PD : PushDecoder Dec}.

Local Abbreviation source := (@rbtk_vorbis_audio_source Src Dec).

(** The outer loop of the serialiser changes [outputs_index] only, and
    advances it by at most the number of its iterations. *)
Lemma write_samples_loop_advance n :
  forall (v : source) samples chans cs s cbuf off len,
    0 <= outputs_index v -> outputs_index v + Z.of_nat n < SIZE_MOD ->
    exists k,
      0 <= k <= Z.of_nat n
      /\ fst (fst (write_samples_loop n v samples chans cs s cbuf off len))
         = set_outputs_index v (outputs_index v + k).
Proof.
  induction n as [|n IH]; intros v samples chans cs s cbuf off len Hi Hn;
    cbn [write_samples_loop].
  - exists 0. rewrite Z.add_0_r, set_outputs_index_same. cbn [fst].
    split; [|reflexivity]. change (Z.of_nat 0) with 0. lia.
  - destruct (size_add off cs >? len).
    + exists 0. rewrite Z.add_0_r, set_outputs_index_same. cbn [fst].
      split; [lia|reflexivity].
    + destruct (write_channels (Z.to_nat chans) samples s 0 cbuf off)
        as [cbuf1 off1].
      assert (Hidx : size_add (outputs_index v) 1 = outputs_index v + 1).
      { apply size_wrap_small. lia. }
      rewrite Hidx.
      destruct (IH (set_outputs_index v (outputs_index v + 1)) samples chans
                  cs (s + 1) cbuf1 off1 len) as (k & Hk & E);
        cbn [outputs_index set_outputs_index]; try lia.
      exists (k + 1). split; [lia|].
      rewrite E. cbn [outputs_index set_outputs_index].
      rewrite set_outputs_index_twice. f_equal. lia.
Qed.

(** What [write_vorbis_samples] does to the source: the cursor moves and
    stays in order, nothing else changes but the reference to the pending
    samples, cleared when the last one is written. *)
Lemma write_vorbis_samples_cursor (v : source) off buf len :
  cursor_ok v ->
  let v1 := fst (fst (write_vorbis_samples v off buf len)) in
  cursor_ok v1
  /\ expected_offset v1 = expected_offset v
  /\ channels v1 = channels v
  /\ header_size v1 = header_size v
  /\ decoder v1 = decoder v
  /\ (outputs v1 = outputs v \/ outputs v1 = None).
Proof.
  intros (Hi & Hs & Hc). unfold write_vorbis_samples.
  destruct (outputs v) as [samples|] eqn:Ho; cbn [fst].
  2:{ rewrite Ho. repeat split; auto. }
  match goal with
  | |- context [write_samples_loop ?n ?v ?sa ?c ?cs ?s ?b ?o ?l] =>
      destruct (write_samples_loop_advance n v sa c cs s b o l)
        as (k & Hk & E);
        [lia|lia|];
        destruct (write_samples_loop n v sa c cs s b o l) as [[v1 cbuf] off1]
  end.
  cbn [fst] in E. subst v1.
  cbn [outputs_index outputs_size set_outputs_index].
  destruct (Z.geb_spec (outputs_index v + k) (outputs_size v)) as [G|G];
    cbn [fst].
  - unfold cursor_ok. cbn. unfold SIZE_MOD. repeat split; auto; lia.
  - unfold cursor_ok. cbn. rewrite Ho. repeat split; auto; lia.
Qed.

Lemma decode_loop_fields fuel :
  forall (v : source) w read e v' w',
    decode_loop fuel v w read = Done (e, v', w') ->
    outputs_index v' = outputs_index v
    /\ outputs_size v' = outputs_size v
    /\ expected_offset v' = expected_offset v
    /\ header_size v' = header_size v
    /\ decoder v' <> None.
Proof.
  induction fuel as [|fuel IH]; intros v w read e v' w' H;
    cbn [decode_loop] in H; [discriminate|].
  destruct (decoder v) as [d|]; [|discriminate].
  set (r := stb_vorbis_decode_frame_pushdata d (buffer_data v)
              (to_int (buffer_size v))) in *.
  remember (match fr_output r with
            | Some o => set_outputs (set_decoder v (Some (fr_decoder r)))
                          (Some o)
            | None => set_decoder v (Some (fr_decoder r))
            end) as v2 eqn:Ev2.
  assert (Hv2 : outputs_index v2 = outputs_index v
                /\ outputs_size v2 = outputs_size v
                /\ expected_offset v2 = expected_offset v
                /\ header_size v2 = header_size v
                /\ decoder v2 <> None).
  { subst v2. destruct (fr_output r); repeat split; discriminate. }
  clear Ev2. destruct Hv2 as (F1 & F2 & F3 & F4 & F5).
  rewrite <- F1, <- F2, <- F3, <- F4.
  cbv zeta in H.
  destruct (fr_bytes_used r =? 0).
  - destruct (read <=? 0); [injection H as _ <- _; auto|].
    destruct (buffer_size v2 >=? MAX_BUFSIZE); [injection H as _ <- _; auto|].
    destruct (double_buffer_size w (buffer v2) (buffer_data v2)
                (buffer_size v2)) as [[[[[rem b1] d1] s1] w1]| |];
      try discriminate.
    destruct (rbtk_read_bytes (in_ v2) d1 (buffer_offset v2) rem)
      as [[[i1 d2] n]| |]; try discriminate.
    destruct (fr_samples r =? 0).
    + apply IH in H. exact H.
    + injection H as _ <- _. cbn. auto.
  - destruct (buffer_offset v2 >=? to_uint (fr_bytes_used r));
      [|discriminate].
    destruct (shift_unconsumed_to_front (buffer_data v2) (buffer_offset v2)
                (size_wrap (fr_bytes_used r))) as [[d1 o1]| |];
      try discriminate.
    destruct (fr_samples r =? 0).
    + apply IH in H. exact H.
    + injection H as _ <- _. cbn. auto.
Qed.

(** One [read_pcm] call keeps the cursor in order, and adds to
    [expected_offset] the bytes it reports: nothing when it returns
    [EOF]. *)
Lemma read_vorbis_pcm_bookkeeping fuel (v : source) w buf len n v' w' buf' :
  cursor_ok v -> 0 <= channels v < 2 ^ 32 -> 0 <= len <= INT_MAX ->
  read_vorbis_pcm fuel v w buf len = Done (n, v', w', buf') ->
  cursor_ok v' /\ channels v' = channels v
  /\ (decoder v <> None -> decoder v' <> None)
  /\ header_size v' = header_size v
  /\ ((n = EOF /\ expected_offset v' = expected_offset v)
      \/ (0 <= n <= len
          /\ expected_offset v' = size_add (expected_offset v) n)).
Proof.
  intros Hcur Hc Hlen H. unfold INT_MAX in Hlen.
  unfold read_vorbis_pcm in H.
  pose proof (write_vorbis_samples_cursor v 0 buf len Hcur) as W1.
  pose proof (write_vorbis_samples_frames v 0 buf len Hc) as F1.
  destruct (write_vorbis_samples v 0 buf len) as [[v1 b1] bw].
  cbn [fst snd] in W1, F1.
  destruct W1 as (Hcur1 & He1 & Hch1 & Hh1 & Hd1 & _).
  destruct F1 as (B1 & D1 & _); [lia|lia|apply Z.divide_0_r|].
  destruct (bw >=? len).
  { injection H as <- <- _ _. rewrite to_int_small by lia.
    cbn [channels decoder header_size expected_offset set_expected_offset].
    split; [exact Hcur1|]. split; [exact Hch1|].
    split; [rewrite Hd1; auto|]. split; [exact Hh1|].
    right. split; [lia|rewrite He1; reflexivity]. }
  destruct (rbtk_read_bytes (in_ v1) (buffer_data v1) (buffer_offset v1)
              (size_sub (buffer_size v1) (buffer_offset v1)))
    as [[[i1 d1] k]| |]; try discriminate.
  match type of H with
  | context [decode_loop fuel ?a w k] =>
      destruct (decode_loop fuel a w k) as [[[e v4] w4]| |] eqn:L;
        try discriminate
  end.
  pose proof (decode_loop_channels _ _ _ _ _ _ _ L) as Lc.
  apply decode_loop_fields in L. cbn in L, Lc.
  destruct L as (L1 & L2 & L3 & L4 & L5).
  destruct e as [|samples].
  { injection H as <- <- _ _.
    split; [unfold cursor_ok; rewrite L1, L2; exact Hcur1|].
    split; [congruence|]. split; [auto|]. split; [congruence|].
    left. split; [reflexivity|congruence]. }
  match type of H with
  | context [write_vorbis_samples ?a ?o ?b ?l] =>
      assert (Hcur5 : cursor_ok a);
        [|pose proof (write_vorbis_samples_cursor a o b l Hcur5) as W2;
          pose proof (write_vorbis_samples_frames a o b l) as F2;
          destruct (write_vorbis_samples a o b l) as [[v6 b6] bw2]]
  end.
  { unfold cursor_ok. cbn.
    pose proof (size_wrap_range samples). lia. }
  cbn [fst snd channels expected_offset header_size decoder
       set_outputs_size set_outputs_index] in W2, F2.
  destruct W2 as (Hcur6 & He6 & Hch6 & Hh6 & Hd6 & _).
  rewrite Lc, Hch1 in F2.
  destruct F2 as (B2 & D2 & _); [lia|lia|lia|exact D1|].
  destruct (Z.gtb_spec bw2 0) as [G|G].
  - injection H as <- <- _ _. rewrite to_int_small by lia. cbn.
    rewrite He6, Hd6, Hch6, Hh6.
    split; [exact Hcur6|]. split; [congruence|]. split; [auto|].
    split; [congruence|]. right. split; [lia|congruence].
  - injection H as <- <- _ _.
    rewrite He6, Hd6, Hch6, Hh6.
    split; [exact Hcur6|]. split; [congruence|]. split; [auto|].
    split; [congruence|]. left. split; [reflexivity|congruence].
Qed.


(** The same without bounds on the buffer length: the cursor, the channel
    count, the header size and the decoder handle through one call. *)
Lemma read_vorbis_pcm_cursor fuel (v : source) w buf len n v' w' buf' :
  cursor_ok v ->
  read_vorbis_pcm fuel v w buf len = Done (n, v', w', buf') ->
  cursor_ok v' /\ channels v' = channels v
  /\ header_size v' = header_size v
  /\ (decoder v <> None -> decoder v' <> None).
Proof.
  intros Hcur H. unfold read_vorbis_pcm in H.
  pose proof (write_vorbis_samples_cursor v 0 buf len Hcur) as W1.
  destruct (write_vorbis_samples v 0 buf len) as [[v1 b1] bw].
  cbn [fst] in W1.
  destruct W1 as (Hcur1 & He1 & Hch1 & Hh1 & Hd1 & _).
  destruct (bw >=? len).
  { injection H as _ <- _ _.
    cbn [channels decoder header_size set_expected_offset].
    split; [exact Hcur1|]. split; [exact Hch1|]. split; [exact Hh1|].
    rewrite Hd1. auto. }
  destruct (rbtk_read_bytes (in_ v1) (buffer_data v1) (buffer_offset v1)
              (size_sub (buffer_size v1) (buffer_offset v1)))
    as [[[i1 d1] k]| |]; try discriminate.
  match type of H with
  | context [decode_loop fuel ?a w k] =>
      destruct (decode_loop fuel a w k) as [[[e v4] w4]| |] eqn:L;
        try discriminate
  end.
  pose proof (decode_loop_channels _ _ _ _ _ _ _ L) as Lc.
  apply decode_loop_fields in L. cbn in L, Lc.
  destruct L as (L1 & L2 & L3 & L4 & L5).
  destruct e as [|samples].
  { injection H as _ <- _ _.
    split; [unfold cursor_ok; rewrite L1, L2; exact Hcur1|].
    split; [congruence|]. split; [congruence|auto]. }
  match type of H with
  | context [write_vorbis_samples ?a ?o ?b ?l] =>
      assert (Hcur5 : cursor_ok a);
        [|pose proof (write_vorbis_samples_cursor a o b l Hcur5) as W2;
          destruct (write_vorbis_samples a o b l) as [[v6 b6] bw2]]
  end.
  { unfold cursor_ok. cbn.
    pose proof (size_wrap_range samples). lia. }
  cbn [fst channels expected_offset header_size decoder
       set_outputs_size set_outputs_index] in W2.
  destruct W2 as (Hcur6 & He6 & Hch6 & Hh6 & Hd6 & _).
  destruct (bw2 >? 0); injection H as _ <- _ _;
    cbn [channels decoder header_size set_expected_offset];
    rewrite ?Hd6;
    (split; [exact Hcur6|]; split; [congruence|]; split; [congruence|auto]).
Qed.

Lemma rbtk_source_ogg_fresh fuel (i : Src) w src i' w' :
  rbtk_source_ogg fuel i w = Done (Some src, i', w') ->
  bits_per_sample (info src) = 16
  /\ channel_count (info src) = channels (impl src)
  /\ 0 <= channels (impl src) < 2 ^ 32
  /\ (exists d, decoder (impl src) = Some d
                /\ channels (impl src)
                   = to_uint (snd (stb_vorbis_get_info d))
                /\ frequency_hz (info src)
                   = to_uint (fst (stb_vorbis_get_info d)))
  /\ outputs (impl src) = None
  /\ cursor_ok (impl src)
  /\ expected_offset (impl src) = 0.
Proof.
  unfold rbtk_source_ogg.
  destruct (malloc w sizeof_vorbis_audio_source) as [[b|] w1];
    [|discriminate].
  unfold open_vorbis_decoder.
  destruct (malloc w1 MIN_BUFSIZE) as [[b1|] w2]; [|discriminate].
  cbn [in_].
  destruct (rbtk_read_bytes i (fresh_bytes MIN_BUFSIZE) 0 MIN_BUFSIZE)
    as [[[i1 d1] ro]| |]; try discriminate.
  destruct (open_loop fuel i1 w2 (Some b1) d1 MIN_BUFSIZE ro)
    as [[[[o|] i2] w3]| |]; try discriminate.
  destruct (shift_unconsumed_to_front (op_data o) (op_read_offset o)
              (size_wrap (op_bytes_consumed o))) as [[d3 ro3]| |];
    try discriminate.
  cbv zeta.
  cbn [decoder set_header_size set_decoder set_buffer_offset set_buffer
       set_in].
  destruct (stb_vorbis_get_info (op_decoder o)) as [rate chans] eqn:Info.
  unfold rbtk_source_audio.
  destruct (malloc w3 sizeof_audio_source) as [[nsrc|] w4]; [|discriminate].
  intros [= <- _ _]. cbn.
  assert (R : 0 <= to_uint chans < 2 ^ 32)
    by (unfold to_uint; apply Z.mod_pos_bound; lia).
  split; [reflexivity|]. split; [reflexivity|]. split; [exact R|].
  split.
  { exists (op_decoder o). rewrite Info. repeat split. }
  split; [reflexivity|]. split; [|reflexivity].
  unfold cursor_ok. cbn. unfold SIZE_MOD. lia.
Qed.

Lemma reachable_cursor_aux (v : source) :
  reachable v ->
  cursor_ok v /\ 0 <= channels v < 2 ^ 32 /\ decoder v <> None.
Proof.
  induction 1 as [fuel i w src i' w' H
                 |fuel v w buf len n v' w' buf' _ IH H].
  - destruct (rbtk_source_ogg_fresh _ _ _ _ _ _ H)
      as (_ & _ & Hc & (d & Hd & _) & _ & Hcur & _).
    split; [exact Hcur|]. split; [exact Hc|congruence].
  - destruct IH as (Hcur & Hc & Hd).
    destruct (read_vorbis_pcm_cursor _ _ _ _ _ _ _ _ _ Hcur H)
      as (Hcur' & Hc' & _ & Hd').
    split; [exact Hcur'|]. split; [rewrite Hc'; exact Hc|auto].
Qed.


(** X5: in every reachable state of a decode context the output cursor is in
    order: [outputs_index] is below [outputs_size] while samples are
    pending, and both are zero otherwise; the channel count is that of an
    [unsigned int] and does not change, and the decoder handle is set. *)
Theorem reachable_cursor_in_order :
  forall v : source,
    reachable v ->
    0 <= outputs_index v
    /\ (outputs_index v < outputs_size v
        \/ (outputs_index v = 0 /\ outputs_size v = 0))
    /\ 0 <= channels v < 2 ^ 32
    /\ decoder v <> None.
Proof.
  intros v Hr.
  destruct (reachable_cursor_aux v Hr) as ((H1 & _ & H2) & H3 & H4). auto.
Qed.

(** X6: [expected_offset] counts the bytes reported to the caller: a call on
    a reachable context that returns a byte count adds it to
    [expected_offset]; a call that returns [EOF] leaves it as it is, also
    when it has written into the buffer. *)
Theorem expected_offset_counts_reported_bytes :
  forall fuel (v : source) w buf len n v' w' buf',
    reachable v ->
    0 <= len <= INT_MAX ->
    read_vorbis_pcm fuel v w buf len = Done (n, v', w', buf') ->
    (n = EOF /\ expected_offset v' = expected_offset v)
    \/ (0 <= n <= len
        /\ expected_offset v' = size_add (expected_offset v) n).
Proof.
  intros fuel v w buf len n v' w' buf' Hr Hlen H.
  destruct (reachable_cursor_aux v Hr) as (Hcur & Hc & _).
  destruct (read_vorbis_pcm_bookkeeping _ _ _ _ _ _ _ _ _ Hcur Hc Hlen H)
    as (_ & _ & _ & _ & R).
  exact R.
Qed.

End Bookkeeping.


Lemma reachable_cursor_in_order_witness :
  0 <= outputs_index (impl Sample.opened_three)
  /\ (outputs_index (impl Sample.opened_three)
      < outputs_size (impl Sample.opened_three)
      \/ (outputs_index (impl Sample.opened_three) = 0
          /\ outputs_size (impl Sample.opened_three) = 0))
  /\ 0 <= channels (impl Sample.opened_three) < 2 ^ 32
  /\ decoder (impl Sample.opened_three) <> None.
Proof.
  apply (reachable_cursor_in_order (impl Sample.opened_three)).
  exact opened_three_reachable.
Defined.

Lemma expected_offset_counts_reported_bytes_witness :
  exists n v' w' buf',
    read_vorbis_pcm 8 (impl Sample.opened_three) Sample.world_three
      (fresh_bytes 6) 6 = Done (n, v', w', buf')
    /\ ((n = EOF
         /\ expected_offset v' = expected_offset (impl Sample.opened_three))
        \/ (0 <= n <= 6
            /\ expected_offset v'
               = size_add (expected_offset (impl Sample.opened_three)) n)).
Proof.
  destruct (read_vorbis_pcm 8 (impl Sample.opened_three) Sample.world_three
              (fresh_bytes 6) 6) as [[[[n v'] w'] buf']| |] eqn:R.
  - exists n, v', w', buf'. split; [reflexivity|].
    apply (expected_offset_counts_reported_bytes 8 (impl Sample.opened_three)
             Sample.world_three (fresh_bytes 6) 6 n v' w' buf').
    + exact opened_three_reachable.
    + unfold INT_MAX. lia.
    + exact R.
  - vm_compute in R. discriminate R.
  - vm_compute in R. discriminate R.
Defined.

(* ================================================================= *)
(** ** Input streams ([src/runtime/stream.c]) *)

Lemma blit_Some_eq buf off bytes :
  0 <= off -> off + Z.of_nat (length bytes) <= Z.of_nat (length buf) ->
  blit buf off bytes
  = Some (firstn (Z.to_nat off) buf ++ bytes
          ++ skipn (Z.to_nat off + length bytes) buf).
Proof.
  intros H0 H1. unfold blit.
  replace (0 <=? off) with true by (symmetry; apply Z.leb_le; lia).
  replace (off + Z.of_nat (length bytes) <=? Z.of_nat (length buf)) with true
    by (symmetry; apply Z.leb_le; lia).
  reflexivity.
Qed.

Lemma slice_Some_eq buf off n :
  0 <= off -> 0 <= n -> off + n <= Z.of_nat (length buf) ->
  slice buf off n = Some (firstn (Z.to_nat n) (skipn (Z.to_nat off) buf)).
Proof.
  intros H0 H1 H2. unfold slice.
  replace (0 <=? off) with true by (symmetry; apply Z.leb_le; lia).
  replace (0 <=? n) with true by (symmetry; apply Z.leb_le; lia).
  replace (off + n <=? Z.of_nat (length buf)) with true
    by (symmetry; apply Z.leb_le; lia).
  reflexivity.
Qed.

(** Storing a run of bytes one by one is one [memcpy] of the run. *)
Lemma blit_cons buf p b rest :
  0 <= p -> p + 1 + Z.of_nat (length rest) <= Z.of_nat (length buf) ->
  exists buf1,
    blit buf p [b] = Some buf1
    /\ blit buf1 (p + 1) rest = blit buf p (b :: rest).
Proof.
  intros H0 H1.
  rewrite (blit_Some_eq buf p [b]) by (cbn [length]; lia).
  eexists. split; [reflexivity|].
  set (A := firstn (Z.to_nat p) buf).
  assert (HA : length A = Z.to_nat p).
  { unfold A. rewrite length_firstn. lia. }
  rewrite blit_Some_eq.
  2:{ lia. }
  2:{ rewrite !length_app, length_skipn, HA. cbn [length]. clear - H0 H1. lia. }
  rewrite (blit_Some_eq buf p (b :: rest)) by (cbn [length]; lia).
  f_equal. fold A.
  assert (HF : firstn (Z.to_nat (p + 1))
                 (A ++ [b] ++ skipn (Z.to_nat p + length [b]) buf)
               = A ++ [b]).
  { rewrite app_assoc. apply firstn_app_exact.
    rewrite length_app, HA. cbn [length]. lia. }
  assert (HS : skipn (Z.to_nat (p + 1) + length rest)
                 (A ++ [b] ++ skipn (Z.to_nat p + length [b]) buf)
               = skipn (Z.to_nat p + length (b :: rest)) buf).
  { replace (Z.to_nat (p + 1) + length rest)%nat
      with (length rest + length (A ++ [b]))%nat
      by (rewrite length_app, HA; cbn [length]; lia).
    rewrite app_assoc, <- skipn_skipn.
    rewrite skipn_app_exact by reflexivity.
    rewrite skipn_skipn. f_equal. cbn [length]. lia. }
  rewrite HF, HS, <- app_assoc. reflexivity.
Qed.

Lemma to_uchar_byte b : 0 <= b < 256 -> to_uchar b = b.
Proof. intros H. unfold to_uchar. now apply Z.mod_small. Qed.

Lemma memory_byte_inside (s : Streams.rbtk_memory_in_stream_src) :
  Streams.memory_wf s -> Streams.pos s < Streams.len s ->
  exists b rest,
    skipn (Z.to_nat (Streams.pos s)) (Streams.addr s) = b :: rest
    /\ 0 <= b < 256
    /\ Streams.rbtk_read_memory_stream_byte s
       = Done (b, Streams.mkMemory (Streams.addr s) (Streams.len s)
                    (Streams.pos s + 1)).
Proof.
  intros (Hlen & Hpos & Hmax & Hbytes) Hlt.
  destruct (skipn (Z.to_nat (Streams.pos s)) (Streams.addr s))
    as [|b rest] eqn:Hsk.
  { apply (f_equal (@length Z)) in Hsk. rewrite length_skipn in Hsk.
    cbn [length] in Hsk. lia. }
  exists b, rest. split; [reflexivity|].
  assert (Hnth : nth_error (Streams.addr s) (Z.to_nat (Streams.pos s))
                 = Some b).
  { rewrite <- (firstn_skipn (Z.to_nat (Streams.pos s)) (Streams.addr s)).
    rewrite Hsk. rewrite nth_error_app2 by (rewrite length_firstn; lia).
    rewrite length_firstn.
    replace (Z.to_nat (Streams.pos s)
             - Nat.min (Z.to_nat (Streams.pos s)) (length (Streams.addr s)))%nat
      with 0%nat by lia.
    reflexivity. }
  split.
  { rewrite Forall_forall in Hbytes. apply Hbytes.
    eapply nth_error_In, Hnth. }
  unfold Streams.rbtk_read_memory_stream_byte.
  destruct (Z.geb_spec (Streams.pos s) (Streams.len s)) as [?|_]; [lia|].
  rewrite Hnth. unfold size_add.
  rewrite size_wrap_small by lia. reflexivity.
Qed.

Lemma memory_wf_advance (s : Streams.rbtk_memory_in_stream_src) k :
  Streams.memory_wf s -> 0 <= k -> Streams.pos s + k <= Streams.len s ->
  Streams.memory_wf
    (Streams.mkMemory (Streams.addr s) (Streams.len s) (Streams.pos s + k)).
Proof.
  intros (Hlen & Hpos & Hmax & Hbytes) Hk Hle.
  unfold Streams.memory_wf. cbn [Streams.addr Streams.len Streams.pos].
  repeat split; try assumption; lia.
Qed.


Lemma advanced_0 (i : Streams.memory_stream) : Streams.advanced i 0 = i.
Proof.
  unfold Streams.advanced, Streams.set_src. rewrite Z.add_0_r.
  destruct i as [b f p [a l q]]. reflexivity.
Qed.

Lemma advanced_advanced (i : Streams.memory_stream) j k :
  Streams.advanced (Streams.advanced i j) k = Streams.advanced i (j + k).
Proof.
  unfold Streams.advanced, Streams.set_src.
  cbn [Streams.src Streams.addr Streams.len Streams.pos Streams.in_block
       Streams.funs Streams.src_block].
  now rewrite Z.add_assoc.
Qed.

Lemma rbtk_read_byte_memory (i : Streams.memory_stream) w :
  Streams.reads_memory_bytes i -> Streams.memory_wf (Streams.src i) ->
  (Streams.pos (Streams.src i) < Streams.len (Streams.src i) ->
   exists b rest,
     skipn (Z.to_nat (Streams.pos (Streams.src i)))
       (Streams.addr (Streams.src i)) = b :: rest
     /\ 0 <= b < 256
     /\ Streams.rbtk_read_byte i w = Done (b, Streams.advanced i 1, w))
  /\ (Streams.pos (Streams.src i) = Streams.len (Streams.src i) ->
      Streams.rbtk_read_byte i w = Done (EOF, i, w)).
Proof.
  intros Hf Hwf. unfold Streams.rbtk_read_byte. rewrite Hf.
  cbn [Streams.read_byte Streams.rbtk_memory_in_stream_funs]. split.
  - intros Hlt.
    destruct (memory_byte_inside _ Hwf Hlt) as (b & rest & Hsk & Hb & Hrd).
    exists b, rest. split; [exact Hsk|]. split; [exact Hb|].
    rewrite Hrd. reflexivity.
  - intros Heq. unfold Streams.rbtk_read_memory_stream_byte.
    destruct (Z.geb_spec (Streams.pos (Streams.src i))
                (Streams.len (Streams.src i))) as [_|?]; [|lia].
    cbn [Streams.with_src]. rewrite <- (advanced_0 i) at 2.
    unfold Streams.advanced. rewrite Z.add_0_r.
    destruct i as [b f p [a l q]]. reflexivity.
Qed.

Lemma default_read_loop_memory (n : nat) :
  forall (i : Streams.memory_stream) w buf off idx read,
    Streams.reads_memory_bytes i -> Streams.memory_wf (Streams.src i) ->
    0 <= off -> 0 <= idx ->
    off + idx + Z.of_nat n <= Z.of_nat (length buf) ->
    Z.of_nat (length buf) < SIZE_MOD ->
    0 <= read -> read + Z.of_nat n < SIZE_MOD ->
    let k := Z.min (Z.of_nat n)
               (Streams.len (Streams.src i) - Streams.pos (Streams.src i)) in
    let bytes := firstn (Z.to_nat k)
                   (skipn (Z.to_nat (Streams.pos (Streams.src i)))
                      (Streams.addr (Streams.src i))) in
    exists buf',
      blit buf (off + idx) bytes = Some buf'
      /\ Streams.default_read_loop n i w buf off idx read
         = Done (read + k, Streams.advanced i k, w, buf').
Proof.
  induction n as [|n IH];
    intros i w buf off idx read Hf Hwf Hoff Hidx Hfit Hmax Hread Hrmax k bytes.
  - assert (Hk : k = 0).
    { unfold k. destruct Hwf as (_ & ? & _). lia. }
    subst bytes. rewrite Hk. cbn [firstn Z.to_nat].
    exists buf. split; [apply blit_nothing; lia|].
    cbn [Streams.default_read_loop]. rewrite Z.add_0_r, advanced_0.
    reflexivity.
  - cbn [Streams.default_read_loop].
    destruct (rbtk_read_byte_memory i w Hf Hwf) as [Hin Hend].
    destruct (Z.eq_dec (Streams.pos (Streams.src i))
                (Streams.len (Streams.src i))) as [Heq|Hne].
    + rewrite (Hend Heq). change (EOF <? 0) with true. cbv iota.
      assert (Hk : k = 0) by (unfold k; lia).
      subst bytes. rewrite Hk. cbn [firstn Z.to_nat].
      exists buf. split; [apply blit_nothing; lia|].
      rewrite Z.add_0_r, advanced_0. reflexivity.
    + assert (Hlt : Streams.pos (Streams.src i) < Streams.len (Streams.src i)).
      { destruct Hwf as (_ & ? & _). lia. }
      destruct (Hin Hlt) as (b & rest & Hsk & Hb & Hrd). rewrite Hrd.
      destruct (Z.ltb_spec b 0) as [?|_]; [lia|].
      rewrite to_uchar_byte by exact Hb.
      assert (Hp : size_add off idx = off + idx).
      { unfold size_add. apply size_wrap_small. lia. }
      rewrite Hp.
      assert (Hwf1 : Streams.memory_wf (Streams.src (Streams.advanced i 1))).
      { apply memory_wf_advance; [exact Hwf|lia|lia]. }
      assert (Hk : k = 1 + Z.min (Z.of_nat n)
                         (Streams.len (Streams.src (Streams.advanced i 1))
                          - Streams.pos (Streams.src (Streams.advanced i 1)))).
      { unfold k, Streams.advanced.
        cbn [Streams.src Streams.set_src Streams.len Streams.pos]. lia. }
      set (k1 := Z.min (Z.of_nat n)
                   (Streams.len (Streams.src (Streams.advanced i 1))
                    - Streams.pos (Streams.src (Streams.advanced i 1)))) in *.
      assert (Hk1 : 0 <= k1 <= Z.of_nat n).
      { unfold k1, Streams.advanced.
        cbn [Streams.src Streams.set_src Streams.len Streams.pos]. lia. }
      assert (Hbytes : bytes
                       = b :: firstn (Z.to_nat k1)
                                (skipn (Z.to_nat
                                          (Streams.pos
                                             (Streams.src (Streams.advanced i 1))))
                                   (Streams.addr
                                      (Streams.src (Streams.advanced i 1))))).
      { unfold bytes. rewrite Hk, Hsk.
        replace (Z.to_nat (1 + k1)) with (S (Z.to_nat k1)) by lia.
        cbn [firstn]. f_equal.
        unfold Streams.advanced.
        cbn [Streams.src Streams.set_src Streams.addr Streams.pos].
        replace (Z.to_nat (Streams.pos (Streams.src i) + 1))
          with (1 + Z.to_nat (Streams.pos (Streams.src i)))%nat
          by (destruct Hwf as (_ & ? & _); lia).
        rewrite <- skipn_skipn, Hsk. reflexivity. }
      set (rest1 := firstn (Z.to_nat k1)
                      (skipn (Z.to_nat
                                (Streams.pos (Streams.src (Streams.advanced i 1))))
                         (Streams.addr (Streams.src (Streams.advanced i 1))))) in *.
      assert (Hl1 : Z.of_nat (length rest1) <= k1).
      { unfold rest1. rewrite length_firstn. lia. }
      destruct (blit_cons buf (off + idx) b rest1) as (buf1 & Hb1 & Hb2);
        [lia|lia|].
      rewrite Hb1.
      assert (Hlen1 : length buf1 = length buf)
        by (eapply blit_length; exact Hb1).
      assert (Hi1 : size_add idx 1 = idx + 1).
      { unfold size_add. apply size_wrap_small. lia. }
      assert (Hr1 : size_add read 1 = read + 1).
      { unfold size_add. apply size_wrap_small. lia. }
      rewrite Hi1, Hr1.
      destruct (IH (Streams.advanced i 1) w buf1 off (idx + 1) (read + 1))
        as (buf' & Hblit & Hrun); try lia.
      { exact Hf. }
      { exact Hwf1. }
      exists buf'. split.
      * rewrite Hbytes, <- Hb2. fold k1 in Hblit. fold rest1 in Hblit.
        rewrite <- Hblit. f_equal. lia.
      * rewrite Hrun. fold k1. rewrite advanced_advanced, Hk.
        do 4 f_equal. lia.
Qed.

Lemma default_skip_loop_memory (n : nat) :
  forall (i : Streams.memory_stream) w skipped,
    Streams.reads_memory_bytes i -> Streams.memory_wf (Streams.src i) ->
    0 <= skipped -> skipped + Z.of_nat n < SIZE_MOD ->
    let k := Z.min (Z.of_nat n)
               (Streams.len (Streams.src i) - Streams.pos (Streams.src i)) in
    Streams.default_skip_loop n i w skipped
    = Done (skipped + k, Streams.advanced i k, w).
Proof.
  induction n as [|n IH]; intros i w skipped Hf Hwf Hs Hmax k.
  - assert (Hk : k = 0).
    { unfold k. destruct Hwf as (_ & ? & _). lia. }
    rewrite Hk. cbn [Streams.default_skip_loop].
    rewrite Z.add_0_r, advanced_0. reflexivity.
  - cbn [Streams.default_skip_loop].
    destruct (rbtk_read_byte_memory i w Hf Hwf) as [Hin Hend].
    destruct (Z.eq_dec (Streams.pos (Streams.src i))
                (Streams.len (Streams.src i))) as [Heq|Hne].
    + rewrite (Hend Heq). change (EOF <? 0) with true. cbv iota.
      assert (Hk : k = 0) by (unfold k; lia).
      rewrite Hk, Z.add_0_r, advanced_0. reflexivity.
    + assert (Hlt : Streams.pos (Streams.src i) < Streams.len (Streams.src i)).
      { destruct Hwf as (_ & ? & _). lia. }
      destruct (Hin Hlt) as (b & rest & Hsk & Hb & Hrd). rewrite Hrd.
      destruct (Z.ltb_spec b 0) as [?|_]; [lia|].
      assert (Hs1 : size_add skipped 1 = skipped + 1).
      { unfold size_add. apply size_wrap_small. lia. }
      rewrite Hs1.
      assert (Hwf1 : Streams.memory_wf (Streams.src (Streams.advanced i 1))).
      { apply memory_wf_advance; [exact Hwf|lia|lia]. }
      rewrite (IH (Streams.advanced i 1) w (skipped + 1) Hf Hwf1) by lia.
      rewrite advanced_advanced.
      assert (Hk : k = 1 + Z.min (Z.of_nat n)
                         (Streams.len (Streams.src (Streams.advanced i 1))
                          - Streams.pos (Streams.src (Streams.advanced i 1)))).
      { unfold k, Streams.advanced.
        cbn [Streams.src Streams.set_src Streams.len Streams.pos]. lia. }
      rewrite Hk. do 3 f_equal. lia.
Qed.

Lemma to_long_wrap x y : size_wrap (Streams.to_long x + y) = size_wrap (x + y).
Proof.
  unfold size_wrap, Streams.to_long, SIZE_MOD.
  pose proof (Z.div_mod (x + 2 ^ 63) (2 ^ 64) ltac:(lia)) as H.
  replace ((x + 2 ^ 63) mod 2 ^ 64 - 2 ^ 63 + y)
    with (x + y + (- ((x + 2 ^ 63) / 2 ^ 64)) * 2 ^ 64) by lia.
  apply Z.mod_add. lia.
Qed.

Lemma rbtk_read_memory_stream_bytes_spec
    (s : Streams.rbtk_memory_in_stream_src) buf off n :
  Streams.memory_wf s -> 0 <= off -> 0 <= n ->
  off + n <= Z.of_nat (length buf) ->
  Streams.len s + n < SIZE_MOD ->
  let k := Z.min n (Streams.len s - Streams.pos s) in
  Streams.rbtk_read_memory_stream_bytes s buf off n
  = Done (k, s,
          firstn (Z.to_nat off) buf
          ++ (firstn (Z.to_nat k) (Streams.addr s)
              ++ repeat 0 (Z.to_nat (n - k)))
          ++ skipn (Z.to_nat (off + n)) buf).
Proof.
  intros (Hlen & Hpos & Hmax & Hbytes) Hoff Hn Hfit Hsum k.
  unfold Streams.rbtk_read_memory_stream_bytes.
  assert (Hcpy : (if size_add (Streams.pos s) n >=? Streams.len s
                  then size_sub (Streams.len s) (Streams.pos s) else n) = k).
  { unfold size_add, size_sub. rewrite !size_wrap_small by lia.
    unfold k. destruct (Z.geb_spec (Streams.pos s + n) (Streams.len s)); lia. }
  rewrite Hcpy.
  assert (Hk : 0 <= k <= n) by (unfold k; lia).
  assert (Hkl : k <= Streams.len s) by (unfold k; lia).
  rewrite slice_Some_eq by lia. change (Z.to_nat 0) with 0%nat.
  cbn [skipn].
  set (bytes := firstn (Z.to_nat k) (Streams.addr s)).
  assert (Hbl : length bytes = Z.to_nat k).
  { unfold bytes. rewrite length_firstn. lia. }
  rewrite (blit_Some_eq buf off bytes) by lia.
  set (A := firstn (Z.to_nat off) buf).
  assert (HA : length A = Z.to_nat off).
  { unfold A. rewrite length_firstn. lia. }
  assert (Hs : size_sub n k = n - k).
  { unfold size_sub. apply size_wrap_small. lia. }
  rewrite Hs.
  rewrite blit_Some_eq.
  2:{ lia. }
  2:{ rewrite !length_app, length_skipn, repeat_length, HA, Hbl. lia. }
  do 2 f_equal.
  assert (HF : firstn (Z.to_nat (off + k))
                 (A ++ bytes ++ skipn (Z.to_nat off + length bytes) buf)
               = A ++ bytes).
  { rewrite app_assoc. apply firstn_app_exact.
    rewrite length_app, HA, Hbl. lia. }
  assert (HS : skipn (Z.to_nat (off + k) + length (repeat 0 (Z.to_nat (n - k))))
                 (A ++ bytes ++ skipn (Z.to_nat off + length bytes) buf)
               = skipn (Z.to_nat (off + n)) buf).
  { rewrite repeat_length.
    replace (Z.to_nat (off + k) + Z.to_nat (n - k))%nat
      with (Z.to_nat (n - k) + length (A ++ bytes))%nat
      by (rewrite length_app, HA, Hbl; lia).
    rewrite app_assoc, <- skipn_skipn.
    rewrite skipn_app_exact by reflexivity.
    rewrite skipn_skipn. f_equal. rewrite Hbl. lia. }
  rewrite HF, HS, <- !app_assoc. reflexivity.
Qed.




Lemma rbtk_skip_memory_stream_bytes_spec
    (s : Streams.rbtk_memory_in_stream_src) amt :
  Streams.memory_wf s -> 0 <= amt ->
  Streams.pos s + amt < SIZE_MOD ->
  Streams.rbtk_skip_memory_stream_bytes s amt
  = (Z.min amt (Streams.len s - Streams.pos s),
     Streams.mkMemory (Streams.addr s) (Streams.len s)
       (Streams.pos s + Z.min amt (Streams.len s - Streams.pos s))).
Proof.
  intros (Hlen & Hpos & Hmax & Hbytes) Hamt Hsum.
  unfold Streams.rbtk_skip_memory_stream_bytes. cbv zeta.
  rewrite to_long_wrap.
  replace (Streams.len s - Streams.to_long (Streams.pos s))
    with (- Streams.to_long (Streams.pos s) + Streams.len s) by lia.
  assert (Hneg : size_wrap (- Streams.to_long (Streams.pos s) + Streams.len s)
                 = Streams.len s - Streams.pos s).
  { unfold size_wrap, Streams.to_long, SIZE_MOD in *.
    pose proof (Z.div_mod (Streams.pos s + 2 ^ 63) (2 ^ 64) ltac:(lia)) as H.
    replace (- ((Streams.pos s + 2 ^ 63) mod 2 ^ 64 - 2 ^ 63) + Streams.len s)
      with (Streams.len s - Streams.pos s
            + ((Streams.pos s + 2 ^ 63) / 2 ^ 64) * 2 ^ 64) by lia.
    rewrite Z.mod_add by lia. apply Z.mod_small. lia. }
  rewrite Hneg. rewrite size_wrap_small by lia.
  destruct (Z.geb_spec (Streams.pos s + amt) (Streams.len s)).
  - replace (Z.min amt (Streams.len s - Streams.pos s))
      with (Streams.len s - Streams.pos s) by lia.
    unfold size_add. rewrite size_wrap_small by lia. reflexivity.
  - replace (Z.min amt (Streams.len s - Streams.pos s)) with amt by lia.
    unfold size_add. rewrite size_wrap_small by lia. reflexivity.
Qed.

Lemma rbtk_skip_memory_stream_bytes_wf
    (s : Streams.rbtk_memory_in_stream_src) amt :
  Streams.memory_wf s ->
  Streams.memory_wf (snd (Streams.rbtk_skip_memory_stream_bytes s amt)).
Proof.
  intros (Hlen & Hpos & Hmax & Hbytes).
  unfold Streams.rbtk_skip_memory_stream_bytes. cbv zeta. cbn [snd].
  unfold Streams.memory_wf. cbn [Streams.addr Streams.len Streams.pos].
  split; [exact Hlen|]. split; [|split; assumption].
  rewrite to_long_wrap.
  replace (Streams.len s - Streams.to_long (Streams.pos s))
    with (- Streams.to_long (Streams.pos s) + Streams.len s) by lia.
  assert (Hneg : size_wrap (- Streams.to_long (Streams.pos s) + Streams.len s)
                 = Streams.len s - Streams.pos s).
  { unfold size_wrap, Streams.to_long, SIZE_MOD in *.
    pose proof (Z.div_mod (Streams.pos s + 2 ^ 63) (2 ^ 64) ltac:(lia)) as H.
    replace (- ((Streams.pos s + 2 ^ 63) mod 2 ^ 64 - 2 ^ 63) + Streams.len s)
      with (Streams.len s - Streams.pos s
            + ((Streams.pos s + 2 ^ 63) / 2 ^ 64) * 2 ^ 64) by lia.
    rewrite Z.mod_add by lia. apply Z.mod_small. lia. }
  rewrite Hneg.
  destruct (Z.geb_spec (size_wrap (Streams.pos s + amt)) (Streams.len s)).
  - unfold size_add. rewrite size_wrap_small by lia. lia.
  - unfold size_add. pose proof (size_wrap_range (Streams.pos s + amt)).
    fold (size_wrap (Streams.pos s + amt)) in *. lia.
Qed.

Lemma set_src_same {T} (i : @Streams.RBTK_IN_STREAM T) :
  Streams.set_src i (Streams.src i) = i.
Proof. destruct i. reflexivity. Qed.

Lemma heap_wf_fresh w b :
  heap_wf w -> (next_block w <= b)%nat ->
  filter (fun blk => negb (Nat.eqb (fst blk) b)) (heap w) = heap w.
Proof.
  intros Hwf Hb. apply filter_all. intros blk Hin.
  unfold heap_wf in Hwf. rewrite Forall_forall in Hwf.
  specialize (Hwf blk Hin). apply negb_true_iff, Nat.eqb_neq. lia.
Qed.

(** X7: [rbtk_default_read_bytes] over [rbtk_read_memory_stream_byte].  A
    stream that reads its bytes one by one from memory and leaves
    [read_bytes] to the default hands over the bytes from its position on,
    as many as were asked for or as are left, stores them at [off] and
    moves its position past them; nothing else of the buffer changes. *)
Theorem default_read_bytes_delivers_from_position :
  forall (i : Streams.memory_stream) w buf off n,
    Streams.read_bytes (Streams.funs i) = Streams.RBTK_DEFAULT_IMPL ->
    Streams.reads_memory_bytes i ->
    Streams.memory_wf (Streams.src i) ->
    0 <= off -> 0 <= n ->
    off + n <= Z.of_nat (length buf) ->
    Z.of_nat (length buf) < SIZE_MOD ->
    let s := Streams.src i in
    let k := Z.min n (Streams.len s - Streams.pos s) in
    exists bytes buf',
      slice (Streams.addr s) (Streams.pos s) k = Some bytes
      /\ blit buf off bytes = Some buf'
      /\ Streams.rbtk_read_bytes i w buf off n
         = Done (k, Streams.advanced i k, w, buf').
Proof.
  intros i w buf off n Hdef Hf Hwf Hoff Hn Hfit Hmax s k. subst s.
  unfold Streams.rbtk_read_bytes. rewrite Hdef.
  unfold Streams.rbtk_default_read_bytes.
  destruct (default_read_loop_memory (Z.to_nat n) i w buf off 0 0 Hf Hwf)
    as (buf' & Hblit & Hrun); try lia.
  rewrite Z2Nat.id in Hblit, Hrun by lia.
  fold k in Hblit, Hrun.
  rewrite Z.add_0_r in Hblit. rewrite Z.add_0_l in Hrun.
  exists (firstn (Z.to_nat k)
            (skipn (Z.to_nat (Streams.pos (Streams.src i)))
               (Streams.addr (Streams.src i)))), buf'.
  split; [|split; assumption].
  destruct Hwf as (Hlen & Hpos & _).
  apply slice_Some_eq; unfold k; lia.
Qed.

Lemma default_read_bytes_delivers_from_position_witness :
  exists bytes buf',
    slice [10; 20; 30; 40; 50] 1 3 = Some bytes
    /\ blit [0; 0; 0; 0; 0; 0] 2 bytes = Some buf'
    /\ Streams.rbtk_read_bytes
         (Streams.mkStream 1
            (Streams.mkFuns Streams.RBTK_NO_OP Streams.RBTK_UNIMPLEMENTED
               (Streams.read_byte Streams.rbtk_memory_in_stream_funs)
               Streams.RBTK_DEFAULT_IMPL Streams.RBTK_DEFAULT_IMPL
               Streams.RBTK_UNIMPLEMENTED)
            (Some 0%nat) (Streams.mkMemory [10; 20; 30; 40; 50] 5 1))
         Sample.world0 [0; 0; 0; 0; 0; 0] 2 3
       = Done (3,
               Streams.advanced
                 (Streams.mkStream 1
                    (Streams.mkFuns Streams.RBTK_NO_OP
                       Streams.RBTK_UNIMPLEMENTED
                       (Streams.read_byte Streams.rbtk_memory_in_stream_funs)
                       Streams.RBTK_DEFAULT_IMPL Streams.RBTK_DEFAULT_IMPL
                       Streams.RBTK_UNIMPLEMENTED)
                    (Some 0%nat) (Streams.mkMemory [10; 20; 30; 40; 50] 5 1))
                 3,
               Sample.world0, buf').
Proof.
  apply (default_read_bytes_delivers_from_position
           (Streams.mkStream 1
              (Streams.mkFuns Streams.RBTK_NO_OP Streams.RBTK_UNIMPLEMENTED
                 (Streams.read_byte Streams.rbtk_memory_in_stream_funs)
                 Streams.RBTK_DEFAULT_IMPL Streams.RBTK_DEFAULT_IMPL
                 Streams.RBTK_UNIMPLEMENTED)
              (Some 0%nat) (Streams.mkMemory [10; 20; 30; 40; 50] 5 1))
           Sample.world0 [0; 0; 0; 0; 0; 0] 2 3).
  - reflexivity.
  - reflexivity.
  - unfold Streams.memory_wf. cbn [Streams.src Streams.addr Streams.len
                                     Streams.pos].
    split; [reflexivity|]. split; [lia|]. split; [vm_compute; reflexivity|].
    repeat constructor; lia.
  - lia.
  - lia.
  - cbn [length]. lia.
  - vm_compute. reflexivity.
Defined.

(** X8: [rbtk_read_memory_stream_bytes] behind [rbtk_read_bytes].  A read
    of [n] bytes from an opened memory stream counts as many bytes as are
    left after the position, at most [n]; the bytes it stores are the
    first bytes of the memory, whatever the position is, followed by
    zeros up to [n]; and the stream is left as it was, its position
    included. *)
Theorem memory_read_bytes_copies_from_start :
  forall (i : Streams.memory_stream) w buf off n,
    Streams.funs i = Streams.rbtk_memory_in_stream_funs ->
    Streams.memory_wf (Streams.src i) ->
    0 <= off -> 0 <= n ->
    off + n <= Z.of_nat (length buf) ->
    Streams.len (Streams.src i) + n < SIZE_MOD ->
    let s := Streams.src i in
    let k := Z.min n (Streams.len s - Streams.pos s) in
    Streams.rbtk_read_bytes i w buf off n
    = Done (k, i, w,
            firstn (Z.to_nat off) buf
            ++ (firstn (Z.to_nat k) (Streams.addr s)
                ++ repeat 0 (Z.to_nat (n - k)))
            ++ skipn (Z.to_nat (off + n)) buf).
Proof.
  intros i w buf off n Hf Hwf Hoff Hn Hfit Hsum s k.
  unfold Streams.rbtk_read_bytes. rewrite Hf.
  cbn [Streams.read_bytes Streams.rbtk_memory_in_stream_funs].
  rewrite rbtk_read_memory_stream_bytes_spec by assumption.
  rewrite set_src_same. reflexivity.
Qed.

Lemma memory_read_bytes_copies_from_start_witness :
  Streams.rbtk_read_bytes
    (Streams.mkStream 1 Streams.rbtk_memory_in_stream_funs (Some 0%nat)
       (Streams.mkMemory [10; 20; 30; 40; 50] 5 3))
    Sample.world0 [7; 7; 7; 7; 7; 7] 1 4
  = Done (2,
          Streams.mkStream 1 Streams.rbtk_memory_in_stream_funs (Some 0%nat)
            (Streams.mkMemory [10; 20; 30; 40; 50] 5 3),
          Sample.world0, [7; 10; 20; 0; 0; 7]).
Proof.
  apply (memory_read_bytes_copies_from_start
           (Streams.mkStream 1 Streams.rbtk_memory_in_stream_funs (Some 0%nat)
              (Streams.mkMemory [10; 20; 30; 40; 50] 5 3))
           Sample.world0 [7; 7; 7; 7; 7; 7] 1 4).
  - reflexivity.
  - unfold Streams.memory_wf. cbn [Streams.src Streams.addr Streams.len
                                     Streams.pos].
    split; [reflexivity|]. split; [lia|]. split; [vm_compute; reflexivity|].
    repeat constructor; lia.
  - lia.
  - lia.
  - cbn [length]. lia.
  - vm_compute. reflexivity.
Defined.

(** X9: [rbtk_skip_memory_stream_bytes] and [rbtk_default_skip_bytes].  On
    an opened memory stream a skip of [amt] bytes skips as many bytes as
    are left, at most [amt], returns that count and moves the position by
    it; the default skip, which reads the bytes one by one, does the same.
    Whatever [amt] is, the position stays inside the memory. *)
Theorem memory_skip_agrees_with_default :
  forall (i : Streams.memory_stream) w amt,
    Streams.funs i = Streams.rbtk_memory_in_stream_funs ->
    Streams.memory_wf (Streams.src i) ->
    0 <= amt ->
    Streams.pos (Streams.src i) + amt < SIZE_MOD ->
    let s := Streams.src i in
    let k := Z.min amt (Streams.len s - Streams.pos s) in
    Streams.rbtk_skip_bytes i w amt = Done (k, Streams.advanced i k, w)
    /\ Streams.rbtk_default_skip_bytes i w amt
       = Done (k, Streams.advanced i k, w)
    /\ Streams.memory_wf (Streams.src (Streams.advanced i k))
    /\ forall amt',
         Streams.memory_wf
           (snd (Streams.rbtk_skip_memory_stream_bytes s amt')).
Proof.
  intros i w amt Hf Hwf Hamt Hsum s k. subst s.
  split; [|split; [|split]].
  - unfold Streams.rbtk_skip_bytes. rewrite Hf.
    cbn [Streams.skip_bytes Streams.rbtk_memory_in_stream_funs].
    rewrite rbtk_skip_memory_stream_bytes_spec by assumption.
    reflexivity.
  - unfold Streams.rbtk_default_skip_bytes.
    rewrite default_skip_loop_memory.
    + rewrite Z2Nat.id by lia. reflexivity.
    + unfold Streams.reads_memory_bytes. now rewrite Hf.
    + exact Hwf.
    + lia.
    + destruct Hwf as (_ & ? & _). lia.
  - apply memory_wf_advance; [exact Hwf|unfold k|unfold k].
    + destruct Hwf as (_ & ? & _). lia.
    + lia.
  - intros amt'. apply rbtk_skip_memory_stream_bytes_wf. exact Hwf.
Qed.

Lemma memory_skip_agrees_with_default_witness :
  Streams.rbtk_skip_bytes
    (Streams.mkStream 1 Streams.rbtk_memory_in_stream_funs (Some 0%nat)
       (Streams.mkMemory [10; 20; 30; 40; 50] 5 3))
    Sample.world0 4
  = Done (2,
          Streams.mkStream 1 Streams.rbtk_memory_in_stream_funs (Some 0%nat)
            (Streams.mkMemory [10; 20; 30; 40; 50] 5 5),
          Sample.world0).
Proof.
  apply (memory_skip_agrees_with_default
           (Streams.mkStream 1 Streams.rbtk_memory_in_stream_funs (Some 0%nat)
              (Streams.mkMemory [10; 20; 30; 40; 50] 5 3))
           Sample.world0 4).
  - reflexivity.
  - unfold Streams.memory_wf. cbn [Streams.src Streams.addr Streams.len
                                     Streams.pos].
    split; [reflexivity|]. split; [lia|]. split; [vm_compute; reflexivity|].
    repeat constructor; lia.
  - lia.
  - vm_compute. reflexivity.
Defined.

(** X10: [rbtk_seek_memory_stream_to], then [rbtk_available_bytes] and
    [rbtk_read_byte].  A seek on an opened memory stream returns the
    position asked for, also when that lies past the end; the position of
    the stream becomes the smaller of the two; the bytes then available
    are those from there to the end, and the next byte read is the byte of
    the memory at the position asked for, or [EOF] past the end. *)
Theorem memory_seek_then_read :
  forall (i : Streams.memory_stream) w p,
    Streams.funs i = Streams.rbtk_memory_in_stream_funs ->
    Streams.memory_wf (Streams.src i) ->
    0 <= p ->
    let s := Streams.src i in
    let i1 :=
      Streams.set_src i
        (Streams.mkMemory (Streams.addr s) (Streams.len s)
           (Z.min p (Streams.len s))) in
    Streams.rbtk_seek_to i w p = Done (p, i1, w)
    /\ Streams.memory_wf (Streams.src i1)
    /\ Streams.rbtk_available_bytes i1 w
       = Done (Streams.len s - Z.min p (Streams.len s), i1, w)
    /\ (p < Streams.len s ->
        exists b rest,
          skipn (Z.to_nat p) (Streams.addr s) = b :: rest
          /\ Streams.rbtk_read_byte i1 w = Done (b, Streams.advanced i1 1, w))
    /\ (Streams.len s <= p ->
        Streams.rbtk_read_byte i1 w = Done (EOF, i1, w)).
Proof.
  intros i w p Hf Hwf Hp s i1. subst s.
  assert (Hwf1 : Streams.memory_wf (Streams.src i1)).
  { destruct Hwf as (Hlen & Hpos & Hmax & Hbytes).
    unfold i1, Streams.memory_wf.
    cbn [Streams.src Streams.set_src Streams.addr Streams.len Streams.pos].
    split; [exact Hlen|]. split; [lia|]. split; assumption. }
  assert (Hf1 : Streams.reads_memory_bytes i1).
  { unfold Streams.reads_memory_bytes, i1. cbn [Streams.funs Streams.set_src].
    now rewrite Hf. }
  split; [|split; [exact Hwf1|split; [|split]]].
  - unfold Streams.rbtk_seek_to. rewrite Hf.
    cbn [Streams.seek_to Streams.rbtk_memory_in_stream_funs].
    unfold Streams.rbtk_seek_memory_stream_to. cbn [Streams.with_src].
    assert (Hif : (if p >=? Streams.len (Streams.src i)
                   then Streams.len (Streams.src i) else p)
                  = Z.min p (Streams.len (Streams.src i))).
    { destruct (Z.geb_spec p (Streams.len (Streams.src i))); lia. }
    rewrite Hif. reflexivity.
  - unfold Streams.rbtk_available_bytes, i1.
    cbn [Streams.funs Streams.set_src]. rewrite Hf.
    cbn [Streams.available_bytes Streams.rbtk_memory_in_stream_funs
         Streams.with_src Streams.src Streams.set_src Streams.in_block
         Streams.funs Streams.src_block].
    unfold Streams.rbtk_available_bytes_in_memory_stream.
    cbn [Streams.len Streams.pos]. unfold size_sub.
    destruct Hwf as (Hlen & Hpos & Hmax & Hbytes).
    rewrite size_wrap_small by lia. reflexivity.
  - intros Hlt.
    destruct (rbtk_read_byte_memory i1 w Hf1 Hwf1) as [Hin _].
    destruct Hin as (b & rest & Hsk & _ & Hrd).
    { unfold i1. cbn [Streams.src Streams.set_src Streams.len Streams.pos].
      lia. }
    exists b, rest. split; [|exact Hrd].
    unfold i1 in Hsk.
    cbn [Streams.src Streams.set_src Streams.addr Streams.pos] in Hsk.
    replace (Z.min p (Streams.len (Streams.src i))) with p in Hsk by lia.
    exact Hsk.
  - intros Hge.
    destruct (rbtk_read_byte_memory i1 w Hf1 Hwf1) as [_ Hend].
    apply Hend. unfold i1.
    cbn [Streams.src Streams.set_src Streams.len Streams.pos]. lia.
Qed.

Lemma memory_seek_then_read_witness :
  Streams.rbtk_seek_to
    (Streams.mkStream 1 Streams.rbtk_memory_in_stream_funs (Some 0%nat)
       (Streams.mkMemory [10; 20; 30; 40; 50] 5 0))
    Sample.world0 9
  = Done (9,
          Streams.mkStream 1 Streams.rbtk_memory_in_stream_funs (Some 0%nat)
            (Streams.mkMemory [10; 20; 30; 40; 50] 5 5),
          Sample.world0).
Proof.
  apply (memory_seek_then_read
           (Streams.mkStream 1 Streams.rbtk_memory_in_stream_funs (Some 0%nat)
              (Streams.mkMemory [10; 20; 30; 40; 50] 5 0))
           Sample.world0 9).
  - reflexivity.
  - unfold Streams.memory_wf. cbn [Streams.src Streams.addr Streams.len
                                     Streams.pos].
    split; [reflexivity|]. split; [lia|]. split; [vm_compute; reflexivity|].
    repeat constructor; lia.
  - lia.
Defined.





(* ================================================================= *)
(** ** The integer clamps ([src/runtime/common.c]) *)




(* ================================================================= *)
(** ** A failed growth of the compressed buffer *)

Section FailedGrowth.

Context {Src Dec : Type} {IS : InStream Src} {PD : PushDecoder Dec}.

Local Abbreviation source := (@rbtk_vorbis_audio_source Src Dec).

(** When the allocation fails [double_buffer_size] leaves the buffer as it
    is and returns [SIZE_MAX], which the callers hand to [rbtk_read_bytes]
    as the number of bytes to read. *)
Lemma double_buffer_size_fails w buf data bufsize :
  hd true (malloc_plan w) = false ->
  double_buffer_size w buf data bufsize
  = Done (SIZE_MAX, buf, data, bufsize,
          rbtk_signal_error
            (mkWorld (heap w) (next_block w) (tl (malloc_plan w))
               (last_error w))
            RBTK_ERROR_OUT_OF_MEMORY).
Proof.
  intros Hplan. unfold double_buffer_size, malloc.
  change (match malloc_plan w with [] => true | b :: _ => b end)
    with (hd true (malloc_plan w)).
  rewrite Hplan. reflexivity.
Qed.

Lemma rbtk_read_bytes_past (i i1 : Src) data off n bytes :
  funs_read_bytes i n = (i1, bytes) ->
  Z.of_nat (length data) < off + Z.of_nat (length bytes) ->
  rbtk_read_bytes i data off n = Undefined.
Proof.
  intros Hread Hover. unfold rbtk_read_bytes. rewrite Hread.
  unfold blit.
  replace (off + Z.of_nat (length bytes) <=? Z.of_nat (length data))
    with false by (symmetry; apply Z.leb_gt; lia).
  rewrite andb_false_r. reflexivity.
Qed.

(** X14: the read after a failed growth.  In the loop of
    [open_vorbis_decoder] and in the loop of [read_vorbis_pcm], when the
    decoder asks for more data and the allocation of the larger buffer
    fails, the stream is asked for [SIZE_MAX] bytes at the current offset
    of the buffer that was kept; if it hands over more bytes than the
    buffer has room for, they are written past its end: the behaviour is
    undefined. *)
Theorem failed_growth_reads_past_buffer :
  (forall fuel (i i1 : Src) w buf data bufsize read_offset bytes,
      stb_vorbis_open_pushdata data (to_int bufsize)
      = NotOpened VORBIS_need_more_data ->
      bufsize < MAX_BUFSIZE ->
      hd true (malloc_plan w) = false ->
      funs_read_bytes i SIZE_MAX = (i1, bytes) ->
      Z.of_nat (length data) < read_offset + Z.of_nat (length bytes) ->
      open_loop (S fuel) i w buf data bufsize read_offset = Undefined)
  /\ (forall fuel (v : source) w read d (i1 : Src) bytes,
         decoder v = Some d ->
         fr_bytes_used
           (stb_vorbis_decode_frame_pushdata d (buffer_data v)
              (to_int (buffer_size v))) = 0 ->
         0 < read ->
         buffer_size v < MAX_BUFSIZE ->
         hd true (malloc_plan w) = false ->
         funs_read_bytes (in_ v) SIZE_MAX = (i1, bytes) ->
         Z.of_nat (length (buffer_data v))
         < buffer_offset v + Z.of_nat (length bytes) ->
         decode_loop (S fuel) v w read = Undefined).
Proof.
  split.
  - intros fuel i i1 w buf data bufsize ro bytes Hopen Hcap Hplan Hread Hover.
    cbn [open_loop]. rewrite Hopen.
    change (VORBIS_need_more_data =? VORBIS_need_more_data) with true.
    cbn [negb].
    destruct (Z.geb_spec bufsize MAX_BUFSIZE) as [?|_]; [lia|].
    rewrite double_buffer_size_fails by exact Hplan.
    rewrite (rbtk_read_bytes_past i i1 data ro SIZE_MAX bytes Hread Hover).
    reflexivity.
  - intros fuel v w read d i1 bytes Hd Hused Hread0 Hcap Hplan Hread Hover.
    cbn [decode_loop]. rewrite Hd. cbv zeta. rewrite Hused.
    change (0 =? 0) with true. cbv iota.
    destruct (Z.leb_spec read 0) as [?|_]; [lia|].
    set (r := stb_vorbis_decode_frame_pushdata d (buffer_data v)
                (to_int (buffer_size v))) in *.
    set (v2 := match fr_output r with
               | Some o => set_outputs (set_decoder v (Some (fr_decoder r)))
                             (Some o)
               | None => set_decoder v (Some (fr_decoder r))
               end).
    assert (E : buffer_size v2 = buffer_size v
                /\ buffer_data v2 = buffer_data v
                /\ buffer_offset v2 = buffer_offset v
                /\ in_ v2 = in_ v).
    { unfold v2. destruct (fr_output r); repeat split. }
    destruct E as (E1 & E2 & E3 & E4). rewrite E1, E2, E3, E4.
    destruct (Z.geb_spec (buffer_size v) MAX_BUFSIZE) as [?|_]; [lia|].
    rewrite double_buffer_size_fails by exact Hplan.
    rewrite (rbtk_read_bytes_past (in_ v) i1 (buffer_data v) (buffer_offset v)
               SIZE_MAX bytes Hread Hover).
    reflexivity.
Qed.

End FailedGrowth.

Lemma failed_growth_reads_past_buffer_witness :
  open_loop 1 (Sample.three_samples : Sample.mem_stream)
    (mkWorld [(0%nat, 4)] 1 [false] None) (Some 0%nat) [0; 0; 0; 0] 4 2
  = (Undefined : outcome (option (@opened Sample.framed)
                          * Sample.mem_stream * world)).
Proof.
  destruct (@failed_growth_reads_past_buffer Sample.mem_stream Sample.framed
              _ _) as [H _].
  apply (H 0%nat Sample.three_samples [] (mkWorld [(0%nat, 4)] 1 [false] None)
           (Some 0%nat) [0; 0; 0; 0] 4 2 Sample.three_samples).
  - reflexivity.
  - unfold MAX_BUFSIZE. lia.
  - reflexivity.
  - reflexivity.
  - vm_compute. reflexivity.
Defined.

(* ================================================================= *)
(** ** The blocks of a source during a session *)

Section LiveBuffer.

Context {Src Dec : Type} {IS : InStream Src} {PD : PushDecoder Dec}.

Local Abbreviation source := (@rbtk_vorbis_audio_source Src Dec).









End LiveBuffer.


(* ================================================================= *)
(** ** [buffer_pcm_data] and the heap *)





Section BufferPcmHeap.

Context {Src Dec : Type} {IS : InStream Src} {PD : PushDecoder Dec}.




End BufferPcmHeap.


(* ================================================================= *)
(** ** The error module ([src/runtime/error.c]) *)

Lemma c_string_terminated t rest :
  Forall (fun c => c <> 0) t -> Errors.c_string (t ++ 0 :: rest) = t.
Proof.
  induction 1 as [|c t Hc _ IH]; cbn [app Errors.c_string].
  - reflexivity.
  - destruct (Z.eqb_spec c 0) as [?|_]; [contradiction|]. now rewrite IH.
Qed.

Lemma Forall_prefix {A} (P : A -> Prop) n : forall l,
  Forall P l -> Forall P (firstn n l).
Proof.
  induction n as [|n IH]; intros l H; cbn [firstn]; [constructor|].
  destruct H as [|x l Hx Hl]; constructor; auto.
Qed.

Lemma set_info_tls st b i0 i :
  Errors.error_tls st = Some (b, i0) ->
  Errors.error_tls (Errors.set_info st i) = Some (b, i)
  /\ Errors.initialized (Errors.set_info st i) = Errors.initialized st
  /\ Errors.truncate_msg_len (Errors.set_info st i)
     = Errors.truncate_msg_len st
  /\ Errors.reported (Errors.set_info st i) = Errors.reported st.
Proof.
  intros H. unfold Errors.set_info. rewrite H. repeat split.
Qed.

Lemma store_length_same buf i b : length (store buf i b) = length buf.
Proof.
  revert i. induction buf as [|h t IH]; intros [|i]; cbn [store length];
    try reflexivity. now rewrite IH.
Qed.

(** [get_error_info(true)] on a module that is ready: the info, as it was
    or just allocated and initialised. *)
Lemma get_error_info_ready st w :
  Errors.ready st -> Errors.info_available st w ->
  exists b i st1 w1,
    Errors.get_error_info true st w = Errors.Returns (Some i, st1, w1)
    /\ Errors.error_tls st1 = Some (b, i)
    /\ Errors.initialized st1 = true
    /\ Errors.truncate_msg_len st1 = Errors.strlen Errors.truncate_msg
    /\ Errors.reported st1 = Errors.reported st
    /\ Z.of_nat (length (Errors.msg i)) = Errors.RBTK_ERROR_MESSAGE_MAX_LENGTH
    /\ match Errors.error_tls st with
       | Some (b0, i0) => b = b0 /\ i = i0 /\ st1 = st /\ w1 = w
       | None =>
           Errors.signaled i = false /\ Errors.uncaught_error_fun i = None
           /\ heap w1 = (b, Errors.sizeof_error_info) :: heap w
       end.
Proof.
  intros (Hinit & Htrunc & Hmsg) Havail.
  unfold Errors.get_error_info, Errors.plat_rbtk_get_error_info.
  unfold Errors.info_of in Hmsg.
  destruct (Errors.error_tls st) as [[b0 i0]|] eqn:Htls.
  - exists b0, i0, st, w. cbn. repeat split; assumption.
  - destruct Havail as [H|H]; [congruence|].
    unfold malloc.
    change (match malloc_plan w with [] => true | b :: _ => b end)
      with (hd true (malloc_plan w)).
    rewrite H. cbn [negb Z.eqb Errors.RBTK_ERROR_NONE].
    eexists _, _, _, _. split; [reflexivity|].
    unfold Errors.set_info, Errors.set_tls.
    cbn [Errors.error_tls Errors.initialized Errors.truncate_msg_len
         Errors.reported Errors.msg Errors.signaled
         Errors.uncaught_error_fun heap].
    repeat split; try assumption.
Qed.

Lemma vsnprintf_text m text :
  Z.of_nat (length m) = Errors.RBTK_ERROR_MESSAGE_MAX_LENGTH ->
  Errors.plain_text text ->
  exists m1,
    Errors.vsnprintf m Errors.RBTK_ERROR_MESSAGE_MAX_LENGTH (Errors.Text text)
    = Some (m1, Z.of_nat (length text))
    /\ Z.of_nat (length m1) = Errors.RBTK_ERROR_MESSAGE_MAX_LENGTH
    /\ Errors.c_string m1 = Errors.message_of (Some (Errors.Text text)).
Proof.
  intros Hm (Hplain & Hlen). unfold Errors.vsnprintf.
  unfold Errors.RBTK_ERROR_MESSAGE_MAX_LENGTH in *.
  set (t := firstn (Z.to_nat (4096 - 1)) text).
  assert (Ht : (length t <= 4095)%nat).
  { unfold t. rewrite length_firstn. lia. }
  rewrite blit_front by (rewrite length_app; cbn [length]; lia).
  eexists. split; [|split].
  - rewrite to_int_small by lia. reflexivity.
  - rewrite !length_app, length_skipn, ?length_app. cbn [length]. lia.
  - rewrite <- app_assoc. cbn [app].
    rewrite c_string_terminated; [reflexivity|].
    unfold t. apply Forall_prefix. exact Hplain.
Qed.

(** A signal on a module that is ready, with a message that is [NULL] or
    formats to a text. *)
Lemma rbtk_signal_error_rt_ready st w e f :
  Errors.ready st -> Errors.info_available st w ->
  e <> 0 ->
  match f with
  | Some (Errors.Text text) => Errors.plain_text text
  | Some Errors.EncodingError => False
  | None => True
  end ->
  exists b i i1 st0 st1 w1,
    Errors.get_error_info true st w = Errors.Returns (Some i, st0, w1)
    /\ Errors.rbtk_signal_error_rt e f st w = Errors.Returns (st1, w1)
    /\ Errors.error_tls st1 = Some (b, i1)
    /\ Errors.signaled i1 = true /\ Errors.error i1 = e
    /\ Errors.c_string (Errors.msg i1) = Errors.message_of f
    /\ Errors.uncaught_error_fun i1 = Errors.uncaught_error_fun i
    /\ Z.of_nat (length (Errors.msg i1))
       = Errors.RBTK_ERROR_MESSAGE_MAX_LENGTH
    /\ Errors.initialized st1 = true
    /\ Errors.truncate_msg_len st1 = Errors.strlen Errors.truncate_msg
    /\ Errors.reported st1
       = Errors.reported st
         ++ (if Errors.signaled i then
               match Errors.uncaught_error_fun i with
               | Some cb => [(cb, Errors.error i, Errors.c_string (Errors.msg i))]
               | None => []
               end
             else []).
Proof.
  intros Hready Havail He Hf.
  destruct (get_error_info_ready st w Hready Havail)
    as (b & i & st0 & w1 & Hget & Htls & Hinit & Htrunc & Hrep & Hmsg & _).
  destruct Hready as (Hinit0 & _).
  unfold Errors.rbtk_signal_error_rt. rewrite Hinit0. cbn [negb].
  unfold Errors.RBTK_ERROR_NONE.
  destruct (Z.eqb_spec e 0) as [?|_]; [contradiction|].
  rewrite Hget.
  set (st2 := if Errors.signaled i then Errors.report st0 i else st0).
  assert (Hst2 : Errors.error_tls st2 = Some (b, i)
                 /\ Errors.initialized st2 = true
                 /\ Errors.truncate_msg_len st2
                    = Errors.strlen Errors.truncate_msg
                 /\ Errors.reported st2
                    = Errors.reported st
                      ++ (if Errors.signaled i then
                            match Errors.uncaught_error_fun i with
                            | Some cb =>
                                [(cb, Errors.error i,
                                  Errors.c_string (Errors.msg i))]
                            | None => []
                            end
                          else [])).
  { unfold st2, Errors.report.
    destruct (Errors.signaled i); [destruct (Errors.uncaught_error_fun i)|];
      cbn [Errors.error_tls Errors.initialized Errors.truncate_msg_len
           Errors.reported];
      rewrite ?Hrep, ?app_nil_r; repeat split; assumption. }
  destruct Hst2 as (Htls2 & Hinit2 & Htrunc2 & Hrep2).
  destruct f as [[text|]|]; [| contradiction |].
  - destruct (vsnprintf_text (Errors.msg i) text Hmsg Hf)
      as (m1 & Hv & Hl1 & Hc1).
    rewrite Hv.
    destruct (Z.eqb_spec (Z.of_nat (length text)) (-1)) as [?|_]; [lia|].
    destruct (set_info_tls st2 b i
                (Errors.mkInfo true e m1 (Errors.uncaught_error_fun i)) Htls2)
      as (S1 & S2 & S3 & S4).
    eexists b, i, _, st0, _, w1. split; [reflexivity|].
    split; [reflexivity|]. split; [exact S1|].
    cbn [Errors.signaled Errors.error Errors.msg Errors.uncaught_error_fun].
    rewrite S2, S3, S4.
    repeat split; assumption.
  - destruct (set_info_tls st2 b i
                (Errors.mkInfo true e (store (Errors.msg i) 0 0)
                   (Errors.uncaught_error_fun i)) Htls2)
      as (S1 & S2 & S3 & S4).
    eexists b, i, _, st0, _, w1. split; [reflexivity|].
    split; [reflexivity|]. split; [exact S1|].
    cbn [Errors.signaled Errors.error Errors.msg Errors.uncaught_error_fun].
    rewrite S2, S3, S4, store_length_same.
    repeat split; try assumption.
    cbn [Errors.message_of].
    destruct (Errors.msg i) as [|c rest]; [cbn in Hmsg; discriminate|].
    reflexivity.
Qed.

(** Reading the error of a module whose info is there. *)
Lemma rbtk_get_last_error_ready st w b i v :
  Errors.initialized st = true ->
  Errors.error_tls st = Some (b, i) ->
  Errors.rbtk_get_last_error (Some v) st w
  = if Errors.signaled i then
      Errors.Returns
        (Errors.error i, Some (Some (Errors.c_string (Errors.msg i))),
         Errors.set_info st
           (Errors.mkInfo false (Errors.error i) (Errors.msg i)
              (Errors.uncaught_error_fun i)), w)
    else Errors.Returns (Errors.RBTK_ERROR_NONE, Some None, st, w).
Proof.
  intros Hinit Htls.
  unfold Errors.rbtk_get_last_error, Errors.get_error_info,
    Errors.plat_rbtk_get_error_info.
  rewrite Hinit, Htls. cbn [negb Z.eqb Errors.RBTK_ERROR_NONE].
  destruct (Errors.signaled i); reflexivity.
Qed.

(** X17: [rbtk_signal_error_rt], then [rbtk_get_last_error].  On an
    initialised error module, with the error info there or its allocation
    succeeding, signalling a code other than [RBTK_ERROR_NONE] returns; the
    next [rbtk_get_last_error] returns that code and the message: the
    empty string for a [NULL] message, and otherwise the formatted text,
    cut to [RBTK_ERROR_MESSAGE_MAX_LENGTH - 1] characters without any
    notice of the cut.  Reading consumes the error: the call after that
    returns [RBTK_ERROR_NONE] and a [NULL] message. *)
Theorem signal_then_get_last_error :
  forall st w e f v v',
    Errors.ready st -> Errors.info_available st w ->
    e <> 0 ->
    match f with
    | Some (Errors.Text text) => Errors.plain_text text
    | Some Errors.EncodingError => False
    | None => True
    end ->
    exists st1 w1 st2,
      Errors.rbtk_signal_error_rt e f st w = Errors.Returns (st1, w1)
      /\ Errors.rbtk_get_last_error (Some v) st1 w1
         = Errors.Returns (e, Some (Some (Errors.message_of f)), st2, w1)
      /\ Errors.rbtk_get_last_error (Some v') st2 w1
         = Errors.Returns (Errors.RBTK_ERROR_NONE, Some None, st2, w1)
      /\ Errors.ready st2.
Proof.
  intros st w e f v v' Hready Havail He Hf.
  destruct (rbtk_signal_error_rt_ready st w e f Hready Havail He Hf)
    as (b & i & i1 & st0 & st1 & w1 & _ & Hsig & Htls & Hs & Herr & Hmsg
        & _ & Hlen & Hinit & Htrunc & _).
  destruct (set_info_tls st1 b i1
              (Errors.mkInfo false (Errors.error i1) (Errors.msg i1)
                 (Errors.uncaught_error_fun i1)) Htls)
    as (S1 & S2 & S3 & S4).
  exists st1, w1,
    (Errors.set_info st1
       (Errors.mkInfo false (Errors.error i1) (Errors.msg i1)
          (Errors.uncaught_error_fun i1))).
  split; [exact Hsig|]. split; [|split].
  - rewrite (rbtk_get_last_error_ready st1 w1 b i1 v Hinit Htls).
    rewrite Hs, Herr, Hmsg. reflexivity.
  - rewrite (rbtk_get_last_error_ready _ w1 b _ v' (eq_trans S2 Hinit) S1).
    reflexivity.
  - unfold Errors.ready, Errors.info_of. rewrite S1, S2, S3.
    cbn [Errors.msg]. repeat split; assumption.
Qed.

Lemma signal_then_get_last_error_witness :
  exists st1 w1 st2,
    Errors.rbtk_signal_error_rt 5 (Some (Errors.Text [72; 105]))
      Errors.started Sample.world0 = Errors.Returns (st1, w1)
    /\ Errors.rbtk_get_last_error (Some None) st1 w1
       = Errors.Returns (5, Some (Some [72; 105]), st2, w1)
    /\ Errors.rbtk_get_last_error (Some None) st2 w1
       = Errors.Returns (Errors.RBTK_ERROR_NONE, Some None, st2, w1)
    /\ Errors.ready st2.
Proof.
  apply (signal_then_get_last_error Errors.started Sample.world0 5
           (Some (Errors.Text [72; 105])) None None).
  - unfold Errors.ready. split; [reflexivity|]. split; [reflexivity|exact I].
  - right. reflexivity.
  - lia.
  - split; [repeat constructor; lia|vm_compute; reflexivity].
Defined.

(** X18: a second error before the first is read.  With an error pending
    and an uncaught-error callback set, [rbtk_signal_error_rt] calls the
    callback once, with the code and the message of the pending error,
    and the new error takes its place; [rbtk_suggest_error] instead
    returns [false] and leaves the module as it is, the callback not
    called. *)
Theorem pending_error_reported_or_kept :
  forall st w b i cb e f,
    Errors.ready st ->
    Errors.error_tls st = Some (b, i) ->
    Errors.signaled i = true ->
    Errors.uncaught_error_fun i = Some cb ->
    e <> 0 ->
    match f with
    | Some (Errors.Text text) => Errors.plain_text text
    | Some Errors.EncodingError => False
    | None => True
    end ->
    (exists st1 i1,
        Errors.rbtk_signal_error_rt e f st w = Errors.Returns (st1, w)
        /\ Errors.reported st1
           = Errors.reported st
             ++ [(cb, Errors.error i, Errors.c_string (Errors.msg i))]
        /\ Errors.error_tls st1 = Some (b, i1)
        /\ Errors.signaled i1 = true /\ Errors.error i1 = e
        /\ Errors.c_string (Errors.msg i1) = Errors.message_of f
        /\ Errors.uncaught_error_fun i1 = Some cb)
    /\ Errors.rbtk_suggest_error e f st w = Errors.Returns (false, st, w).
Proof.
  intros st w b i cb e f Hready Htls Hs Hcb He Hf.
  assert (Havail : Errors.info_available st w) by (left; congruence).
  destruct (get_error_info_ready st w Hready Havail)
    as (b0 & i0 & st0 & w0 & Hget & _ & _ & _ & _ & _ & Hsame).
  rewrite Htls in Hsame. destruct Hsame as (-> & -> & -> & ->).
  split.
  - destruct (rbtk_signal_error_rt_ready st w e f Hready Havail He Hf)
      as (b1 & i' & i1 & st0' & st1 & w1 & Hget' & Hsig & Htls1 & Hs1 & He1
          & Hm1 & Hcb1 & _ & _ & _ & Hrep).
    rewrite Hget in Hget'. injection Hget' as <- <- <-.
    rewrite Hs, Hcb in Hrep. rewrite Hcb in Hcb1.
    assert (b1 = b).
    { unfold Errors.rbtk_signal_error_rt in Hsig.
      destruct Hready as (Hinit & _). rewrite Hinit in Hsig.
      cbn [negb] in Hsig. unfold Errors.RBTK_ERROR_NONE in Hsig.
      destruct (Z.eqb_spec e 0) as [?|_]; [contradiction|].
      rewrite Hget, Hs in Hsig.
      assert (Hr : Errors.error_tls (Errors.report st i) = Some (b, i)).
      { unfold Errors.report. rewrite Hcb. exact Htls. }
      destruct f as [[text|]|]; [| contradiction |].
      - destruct (Errors.vsnprintf (Errors.msg i)
                    Errors.RBTK_ERROR_MESSAGE_MAX_LENGTH (Errors.Text text))
          as [[m1 pr]|]; [|discriminate].
        destruct (pr =? -1).
        + destruct (Errors.write_truncate_msg (Errors.report st i) m1);
            [|discriminate].
          injection Hsig as <-.
          destruct (set_info_tls _ b i
                      (Errors.mkInfo true e l (Errors.uncaught_error_fun i))
                      Hr) as (S1 & _).
          congruence.
        + injection Hsig as <-.
          destruct (set_info_tls _ b i
                      (Errors.mkInfo true e m1 (Errors.uncaught_error_fun i))
                      Hr) as (S1 & _).
          congruence.
      - injection Hsig as <-.
        destruct (set_info_tls _ b i
                    (Errors.mkInfo true e (store (Errors.msg i) 0 0)
                       (Errors.uncaught_error_fun i)) Hr) as (S1 & _).
        congruence. }
    subst b1. exists st1, i1. repeat split; assumption.
  - unfold Errors.rbtk_suggest_error.
    destruct Hready as (Hinit & _). rewrite Hinit. cbn [negb].
    unfold Errors.RBTK_ERROR_NONE.
    destruct (Z.eqb_spec e 0) as [?|_]; [contradiction|].
    rewrite Hget, Hs. reflexivity.
Qed.

Lemma pending_error_reported_or_kept_witness :
  Errors.rbtk_suggest_error 5 None Errors.pending Sample.world0
  = Errors.Returns (false, Errors.pending, Sample.world0).
Proof.
  apply (pending_error_reported_or_kept Errors.pending Sample.world0 0%nat
           (Errors.mkInfo true 11 (72 :: 105 :: repeat 0 (Z.to_nat 4094))
              (Some 7%nat))
           7%nat 5 None).
  - unfold Errors.ready. split; [reflexivity|]. split; [reflexivity|].
    vm_compute. reflexivity.
  - reflexivity.
  - reflexivity.
  - reflexivity.
  - lia.
  - exact I.
Defined.

(** X19: a formatting failure.  When [vsnprintf] fails and returns [-1],
    [rbtk_signal_error_rt] takes the branch that writes the truncation
    notice: the notice is copied to the end of the message array and the
    terminator that follows, [dest[len] = '\0'], is written one character
    past the end of the array.  The behaviour of the call is undefined. *)
Theorem format_failure_writes_past_message :
  forall st w e,
    Errors.ready st -> Errors.info_available st w ->
    e <> 0 ->
    Errors.rbtk_signal_error_rt e (Some Errors.EncodingError) st w
    = Errors.Undefined.
Proof.
  intros st w e Hready Havail He.
  destruct (get_error_info_ready st w Hready Havail)
    as (b & i & st0 & w1 & Hget & Htls & Hinit & Htrunc & Hrep & Hmsg & _).
  destruct Hready as (Hinit0 & _).
  unfold Errors.rbtk_signal_error_rt. rewrite Hinit0. cbn [negb].
  unfold Errors.RBTK_ERROR_NONE.
  destruct (Z.eqb_spec e 0) as [?|_]; [contradiction|].
  rewrite Hget. cbn [Errors.vsnprintf]. change (-1 =? -1) with true.
  cbv iota.
  set (st2 := if Errors.signaled i then Errors.report st0 i else st0).
  assert (Ht2 : Errors.truncate_msg_len st2 = 29).
  { unfold st2, Errors.report.
    destruct (Errors.signaled i); [destruct (Errors.uncaught_error_fun i)|];
      cbn [Errors.truncate_msg_len]; rewrite Htrunc; reflexivity. }
  assert (Hw : Errors.write_truncate_msg st2 (Errors.msg i) = None).
  { unfold Errors.write_truncate_msg. rewrite Ht2.
    unfold Errors.RBTK_ERROR_MESSAGE_MAX_LENGTH in *.
    change (size_sub (size_sub 4096 29) 1) with 4066.
    change (size_sub 4096 4066) with 30.
    change (size_sub 30 1) with 29.
    change (Streams.to_long (4066 - 1)) with 4065.
    change (4065 >=? 0) with true. cbv iota.
    destruct (nth_error (Errors.msg i) (Z.to_nat 4065)) as [c|];
      [|reflexivity].
    assert (Hm1 : forall m1,
               (if negb (Errors.isspace c)
                then Errors.poke (Errors.msg i) 4065 32
                else Some (Errors.msg i)) = Some m1 ->
               Z.of_nat (length m1) = 4096).
    { intros m1. destruct (negb (Errors.isspace c)).
      - unfold Errors.poke. intros H. apply blit_length in H. lia.
      - intros [= <-]. exact Hmsg. }
    destruct (if negb (Errors.isspace c)
              then Errors.poke (Errors.msg i) 4065 32
              else Some (Errors.msg i)) as [m2|]; [|reflexivity].
    specialize (Hm1 m2 eq_refl).
    destruct (blit m2 4066 _) as [m3|] eqn:Hb; [|reflexivity].
    apply blit_length in Hb.
    unfold Errors.poke, blit.
    replace (4066 + 30 + Z.of_nat (length [0]) <=? Z.of_nat (length m3))
      with false
      by (symmetry; apply Z.leb_gt; cbn [length]; lia).
    rewrite andb_false_r. reflexivity. }
  rewrite Hw. reflexivity.
Qed.

Lemma format_failure_writes_past_message_witness :
  Errors.rbtk_signal_error_rt 5 (Some Errors.EncodingError) Errors.started
    Sample.world0 = Errors.Undefined.
Proof.
  apply (format_failure_writes_past_message Errors.started Sample.world0 5).
  - unfold Errors.ready. split; [reflexivity|]. split; [reflexivity|exact I].
  - right. reflexivity.
  - lia.
Defined.

(** X20: [priv_rbtk_error_terminate] and what it leaves.  Terminating the
    module while an error is pending reports that error to the callback,
    if one is set, and returns [true]; the error info stays allocated with
    the error still pending and the callback still set, so that after the
    module is initialised again the next [rbtk_get_last_error] returns the
    error signalled before the termination. *)
Theorem terminate_keeps_pending_error :
  forall st w b i v,
    Errors.ready st ->
    Errors.error_tls st = Some (b, i) ->
    Errors.signaled i = true ->
    exists st1,
      Errors.priv_rbtk_error_terminate st w = Errors.Returns (true, st1, w)
      /\ Errors.initialized st1 = false
      /\ Errors.error_tls st1 = Some (b, i)
      /\ Errors.reported st1
         = Errors.reported st
           ++ match Errors.uncaught_error_fun i with
              | Some cb =>
                  [(cb, Errors.error i, Errors.c_string (Errors.msg i))]
              | None => []
              end
      /\ fst (Errors.priv_rbtk_error_init st1) = true
      /\ exists st2,
           Errors.rbtk_get_last_error (Some v)
             (snd (Errors.priv_rbtk_error_init st1)) w
           = Errors.Returns
               (Errors.error i, Some (Some (Errors.c_string (Errors.msg i))),
                st2, w).
Proof.
  intros st w b i v (Hinit & _) Htls Hs.
  unfold Errors.priv_rbtk_error_terminate, Errors.get_error_info,
    Errors.plat_rbtk_get_error_info.
  rewrite Hinit, Htls. cbn [negb Z.eqb Errors.RBTK_ERROR_NONE].
  rewrite Hs.
  unfold Errors.plat_rbtk_error_terminate. cbn [negb].
  eexists. split; [reflexivity|].
  unfold Errors.report.
  destruct (Errors.uncaught_error_fun i) as [cb|];
    cbn [Errors.initialized Errors.error_tls Errors.reported
         Errors.plat_initialized Errors.truncate_msg_len];
    rewrite ?app_nil_r;
    (split; [reflexivity|]); (split; [exact Htls|]);
    (split; [reflexivity|]); (split; [reflexivity|]);
    unfold Errors.priv_rbtk_error_init, Errors.plat_rbtk_error_init;
    cbn [Errors.initialized negb snd Errors.error_tls Errors.reported
         Errors.plat_initialized];
    eexists;
    (erewrite rbtk_get_last_error_ready; [|reflexivity|exact Htls]);
    rewrite Hs; reflexivity.
Qed.

Lemma terminate_keeps_pending_error_witness :
  exists st1,
    Errors.priv_rbtk_error_terminate Errors.pending Sample.world0
    = Errors.Returns (true, st1, Sample.world0)
    /\ Errors.initialized st1 = false
    /\ Errors.reported st1 = [(7%nat, 11, [72; 105])]
    /\ exists st2,
         Errors.rbtk_get_last_error (Some None)
           (snd (Errors.priv_rbtk_error_init st1)) Sample.world0
         = Errors.Returns (11, Some (Some [72; 105]), st2, Sample.world0).
Proof.
  destruct (terminate_keeps_pending_error Errors.pending Sample.world0 0%nat
              (Errors.mkInfo true 11 (72 :: 105 :: repeat 0 (Z.to_nat 4094))
                 (Some 7%nat)) None)
    as (st1 & H1 & H2 & _ & H4 & _ & H6).
  - unfold Errors.ready. split; [reflexivity|]. split; [reflexivity|].
    vm_compute. reflexivity.
  - reflexivity.
  - reflexivity.
  - exists st1. split; [exact H1|]. split; [exact H2|].
    split; [exact H4|exact H6].
Defined.

(* ================================================================= *)
(** ** The doubly-linked lists ([src/runtime/common.h]) *)

Section DllFacts.

Context {A : Type}.

Local Abbreviation store := (@Dll.store A).
Local Abbreviation node := (@Dll.node A).

Lemma ptr_eqb_eq p q : Dll.ptr_eqb p q = true <-> p = q.
Proof.
  destruct p as [a|], q as [b|]; cbn [Dll.ptr_eqb]; split;
    try discriminate; try reflexivity.
  - intros H. apply Nat.eqb_eq in H. now subst.
  - intros [= ->]. apply Nat.eqb_refl.
Qed.

Lemma ptr_eqb_neq p q : Dll.ptr_eqb p q = false <-> p <> q.
Proof.
  split.
  - intros H E. apply ptr_eqb_eq in E. congruence.
  - intros H. destruct (Dll.ptr_eqb p q) eqn:E; [|reflexivity].
    apply ptr_eqb_eq in E. contradiction.
Qed.

Lemma chain_ext (s s' : store) : forall l before tail,
  (forall x, In x l -> s' x = s x) ->
  Dll.chain s before l tail -> Dll.chain s' before l tail.
Proof.
  induction l as [|x rest IH]; intros before tail Hext H; cbn [Dll.chain] in *.
  - exact H.
  - destruct H as ((n & Hn & Hp & Hx) & Hrest). split.
    + exists n. rewrite Hext by (left; reflexivity). auto.
    + apply IH; [|exact Hrest]. intros y Hy. apply Hext. right. exact Hy.
Qed.

Lemma chain_in_store (s : store) : forall l before tail x,
  Dll.chain s before l tail -> In x l -> exists n, s x = Some n.
Proof.
  induction l as [|y rest IH]; intros before tail x H Hin; [contradiction|].
  cbn [Dll.chain] in H. destruct H as ((n & Hn & _) & Hrest).
  destruct Hin as [<-|Hin]; [eauto|]. eapply IH; eassumption.
Qed.

Lemma last_cons {B} : forall (r : list B) y d, last (y :: r) d = last r y.
Proof.
  induction r as [|z r IH]; intros y d; [reflexivity|].
  change (last (y :: z :: r) d) with (last (z :: r) d).
  rewrite !IH. reflexivity.
Qed.

Lemma last_in {B} : forall (r : list B) x, In (last r x) (x :: r).
Proof.
  induction r as [|y r IH]; intros x; [left; reflexivity|].
  rewrite last_cons. right. apply IH.
Qed.

(** The tail is the last element. *)
Lemma chain_tail (s : store) : forall l before tail,
  Dll.chain s before l tail ->
  tail = match l with [] => before | x :: rest => Some (last rest x) end.
Proof.
  induction l as [|x rest IH]; intros before tail H; cbn [Dll.chain] in H.
  - exact H.
  - destruct H as (_ & Hrest). apply IH in Hrest.
    destruct rest as [|y r]; [exact Hrest|].
    rewrite Hrest. f_equal. symmetry. apply last_cons.
Qed.

Lemma chain_tail_in (s : store) l before tail :
  Dll.chain s before l tail -> l <> [] ->
  exists t, tail = Some t /\ In t l.
Proof.
  intros H Hl. apply chain_tail in H. destruct l as [|x rest]; [congruence|].
  exists (last rest x). split; [exact H|]. apply last_in.
Qed.

(** The last element has no successor. *)
Lemma chain_last_next (s : store) : forall l before t,
  Dll.chain s before l (Some t) -> l <> [] ->
  exists n, s t = Some n /\ Dll.next n = None.
Proof.
  induction l as [|x rest IH]; intros before t H Hl; [congruence|].
  cbn [Dll.chain] in H. destruct H as ((n & Hn & _ & Hx) & Hrest).
  destruct rest as [|y r].
  - cbn [Dll.chain] in Hrest. injection Hrest as ->. eauto.
  - eapply IH; [exact Hrest|discriminate].
Qed.

(** The successor of an element of the list is a later element. *)
Lemma chain_next_in (s : store) : forall l before tail e n q,
  Dll.chain s before l tail -> NoDup l -> In e l ->
  s e = Some n -> Dll.next n = Some q -> In q l /\ q <> e.
Proof.
  induction l as [|x rest IH]; intros before tail e n q H Hnd Hin Hn Hq;
    [contradiction|].
  cbn [Dll.chain] in H. destruct H as ((m & Hm & _ & Hx) & Hrest).
  apply NoDup_cons_iff in Hnd. destruct Hnd as (Hnot & Hnd').
  destruct Hin as [<-|Hin].
  - rewrite Hm in Hn. injection Hn as <-. rewrite Hx in Hq.
    destruct rest as [|y r]; [discriminate|]. injection Hq as <-.
    split; [right; left; reflexivity|].
    intros ->. apply Hnot. left. reflexivity.
  - destruct (IH _ _ _ _ _ Hrest Hnd' Hin Hn Hq) as (H1 & H2).
    split; [right; exact H1|exact H2].
Qed.

(** The predecessor of the first element is what comes before the list;
    that of another element is an element of the list. *)
Lemma chain_prev_in (s : store) : forall l before tail e n,
  Dll.chain s before l tail -> NoDup l -> In e l -> s e = Some n ->
  (Dll.first l = Some e /\ Dll.prev n = before)
  \/ (Dll.first l <> Some e
      /\ exists p, Dll.prev n = Some p /\ In p l /\ p <> e).
Proof.
  induction l as [|x rest IH]; intros before tail e n H Hnd Hin Hn;
    [contradiction|].
  cbn [Dll.chain] in H. destruct H as ((m & Hm & Hp & _) & Hrest).
  apply NoDup_cons_iff in Hnd. destruct Hnd as (Hnot & Hnd').
  destruct Hin as [<-|Hin].
  - left. rewrite Hm in Hn. injection Hn as <-. split; [reflexivity|exact Hp].
  - right. assert (Hxe : x <> e) by (intros ->; contradiction).
    split; [cbn [Dll.first]; congruence|].
    destruct (IH _ _ _ _ Hrest Hnd' Hin Hn) as [(H1 & H2)|(H1 & p & H2 & H3 & H4)].
    + exists x. split; [exact H2|]. split; [left; reflexivity|exact Hxe].
    + exists p. split; [exact H2|]. split; [right; exact H3|exact H4].
Qed.

Lemma remove_notin (e : nat) l : ~ In e l -> remove Nat.eq_dec e l = l.
Proof. intros H. apply notin_remove. exact H. Qed.

Lemma RBTK_DLL_REMOVE_unlinked (s : store) head tail e n :
  s e = Some n ->
  Dll.prev n <> Some e -> Dll.next n <> Some e ->
  (forall p, Dll.prev n = Some p -> s p <> None) ->
  (forall q, Dll.next n = Some q -> s q <> None) ->
  exists s',
    Dll.RBTK_DLL_REMOVE s head tail e
    = Some (s',
            (if Dll.ptr_eqb (Some e) head then Dll.next n else head),
            (if Dll.ptr_eqb (Some e) tail then Dll.prev n else tail))
    /\ forall x, s' x = Dll.unlinked s (Dll.prev n) (Dll.next n) x.
Proof.
  intros Hn Hpe Hqe Hp Hq. unfold Dll.RBTK_DLL_REMOVE. rewrite Hn.
  destruct (Dll.prev n) as [p|] eqn:EP.
  - destruct (s p) as [mp|] eqn:Emp; [|exfalso; eapply Hp; eauto].
    unfold Dll.set_next. rewrite Emp.
    assert (Hep : Nat.eqb e p = false).
    { apply Nat.eqb_neq. intros ->. apply Hpe. reflexivity. }
    unfold Dll.upd at 1. rewrite Hep, Hn.
    destruct (Dll.next n) as [q|] eqn:EQ.
    + unfold Dll.set_prev.
      assert (Hsq : exists mq, s q = Some mq).
      { destruct (s q) eqn:E; [eauto|]. exfalso. eapply Hq; eauto. }
      destruct Hsq as (mq & Emq).
      unfold Dll.upd at 1.
      destruct (Nat.eqb q p) eqn:Eqp.
      * apply Nat.eqb_eq in Eqp. subst q.
        eexists. split; [rewrite ?EP, ?EQ; reflexivity|].
        intros x. unfold Dll.upd, Dll.unlinked. cbn [Dll.ptr_eqb].
        destruct (Nat.eqb x p) eqn:Exp.
        -- apply Nat.eqb_eq in Exp. subst x. rewrite Emp.
           cbn [Dll.item Dll.prev Dll.next]. reflexivity.
        -- destruct (s x) as [[? ? ?]|]; reflexivity.
      * rewrite Emq. eexists. split; [rewrite ?EP, ?EQ; reflexivity|].
        intros x. unfold Dll.upd, Dll.unlinked. cbn [Dll.ptr_eqb].
        destruct (Nat.eqb x q) eqn:Exq.
        -- apply Nat.eqb_eq in Exq. subst x. rewrite Emq, Eqp. reflexivity.
        -- destruct (Nat.eqb x p) eqn:Exp.
           ++ apply Nat.eqb_eq in Exp. subst x. rewrite Emp. reflexivity.
           ++ destruct (s x) as [m|]; [|reflexivity].
              destruct m; reflexivity.
    + eexists. split; [rewrite ?EP, ?EQ; reflexivity|].
      intros x. unfold Dll.upd, Dll.unlinked. cbn [Dll.ptr_eqb].
      destruct (Nat.eqb x p) eqn:Exp.
      * apply Nat.eqb_eq in Exp. subst x. rewrite Emp.
        destruct mp; reflexivity.
      * destruct (s x) as [m|]; [|reflexivity]. destruct m; reflexivity.
  - rewrite Hn.
    destruct (Dll.next n) as [q|] eqn:EQ.
    + unfold Dll.set_prev.
      assert (Hsq : exists mq, s q = Some mq).
      { destruct (s q) eqn:E; [eauto|]. exfalso. eapply Hq; eauto. }
      destruct Hsq as (mq & Emq). rewrite Emq.
      eexists. split; [rewrite ?EP, ?EQ; reflexivity|].
      intros x. unfold Dll.upd, Dll.unlinked. cbn [Dll.ptr_eqb].
      destruct (Nat.eqb x q) eqn:Exq.
      * apply Nat.eqb_eq in Exq. subst x. rewrite Emq.
        destruct mq; reflexivity.
      * destruct (s x) as [m|]; [|reflexivity]. destruct m; reflexivity.
    + eexists. split; [rewrite ?EP, ?EQ; reflexivity|].
      intros x. unfold Dll.unlinked. cbn [Dll.ptr_eqb].
      destruct (s x) as [m|]; [|reflexivity]. destruct m; reflexivity.
Qed.

Lemma chain_unlinked (s : store) e n :
  s e = Some n ->
  forall l before tail,
    Dll.chain s before l tail -> NoDup l -> In e l ->
    (forall b, before = Some b -> ~ In b l) ->
    Dll.chain (Dll.unlinked s (Dll.prev n) (Dll.next n)) before
      (remove Nat.eq_dec e l)
      (if Dll.ptr_eqb (Some e) tail then Dll.prev n else tail).
Proof.
  intros Hn.
  induction l as [|x rest IH]; intros before tail H Hnd Hin Hb;
    [contradiction|].
  pose proof H as Hfull.
  cbn [Dll.chain] in H. destruct H as ((m & Hm & Hp & Hx) & Hrest).
  apply NoDup_cons_iff in Hnd. destruct Hnd as (Hnot & Hnd').
  cbn [remove].
  destruct (Nat.eq_dec e x) as [<-|Hne].
  - (* the element removed is the first *)
    rewrite Hn in Hm. injection Hm as <-. subst before.
    rewrite remove_notin by exact Hnot.
    destruct rest as [|y r].
    + cbn [Dll.chain] in Hrest. subst tail.
      cbn [Dll.ptr_eqb]. rewrite Nat.eqb_refl. cbn [Dll.chain]. reflexivity.
    + destruct (chain_tail_in s (y :: r) (Some e) tail Hrest) as (t & -> & Ht);
        [discriminate|].
      assert (Hte : Dll.ptr_eqb (Some e) (Some t) = false).
      { apply ptr_eqb_neq. intros [= ->]. contradiction. }
      rewrite Hte.
      cbn [Dll.chain] in Hrest.
      destruct Hrest as ((my & Hmy & Hpy & Hxy) & Hr).
      cbn [Dll.first] in Hx.
      apply NoDup_cons_iff in Hnd'. destruct Hnd' as (Hnoty & Hndr).
      cbn [Dll.chain]. split.
      * exists (Dll.mkNode (Dll.item my) (Dll.prev n) (Dll.next my)).
        unfold Dll.unlinked. rewrite Hmy, Hx.
        assert (Hyb : Dll.ptr_eqb (Some y) (Dll.prev n) = false).
        { apply ptr_eqb_neq. intros E. symmetry in E.
          apply (Hb y E). right. left. reflexivity. }
        rewrite Hyb.
        replace (Dll.ptr_eqb (Some y) (Some y)) with true
          by (symmetry; apply ptr_eqb_eq; reflexivity).
        cbn [Dll.prev Dll.next]. auto.
      * apply (chain_ext s); [|exact Hr].
        intros z Hz. unfold Dll.unlinked.
        destruct (s z) as [mz|]; [|reflexivity].
        assert (Hz1 : Dll.ptr_eqb (Some z) (Dll.next n) = false).
        { apply ptr_eqb_neq. rewrite Hx. intros [= ->]. contradiction. }
        assert (Hz2 : Dll.ptr_eqb (Some z) (Dll.prev n) = false).
        { apply ptr_eqb_neq. intros E. symmetry in E.
          apply (Hb z E). right. right. exact Hz. }
        rewrite Hz1, Hz2. destruct mz; reflexivity.
  - (* it comes later *)
    destruct Hin as [->|Hin]; [congruence|].
    assert (Hnx : forall q, Dll.next n = Some q -> In q rest /\ q <> e)
      by (intros q; eapply chain_next_in; eassumption).
    assert (Hx1 : Dll.ptr_eqb (Some x) (Dll.next n) = false).
    { apply ptr_eqb_neq. intros E. symmetry in E.
      destruct (Hnx x E) as (Hi & _). contradiction. }
    cbn [Dll.chain]. split.
    + unfold Dll.unlinked. rewrite Hm, Hx1.
      destruct (chain_prev_in s rest (Some x) tail e n Hrest Hnd' Hin Hn)
        as [(Hf & Hpn)|(Hf & p & Hpn & Hpin & Hpe)].
      * (* the element removed comes right after x *)
        rewrite Hpn. cbn [Dll.ptr_eqb]. rewrite Nat.eqb_refl.
        eexists. split; [reflexivity|]. cbn [Dll.prev Dll.next].
        split; [exact Hp|].
        destruct rest as [|y r]; [discriminate|].
        cbn [Dll.first] in Hf. injection Hf as ->.
        cbn [remove]. destruct (Nat.eq_dec e e) as [_|?]; [|congruence].
        apply NoDup_cons_iff in Hnd'. destruct Hnd' as (Hnote & Hndr).
        rewrite remove_notin by exact Hnote.
        cbn [Dll.chain] in Hrest.
        destruct Hrest as ((me & Hme & _ & Hxe) & _).
        rewrite Hn in Hme. injection Hme as <-. exact Hxe.
      * assert (Hxp : Dll.ptr_eqb (Some x) (Dll.prev n) = false).
        { apply ptr_eqb_neq. rewrite Hpn. intros [= ->]. contradiction. }
        rewrite Hxp. eexists. split; [reflexivity|]. cbn [Dll.prev Dll.next].
        split; [exact Hp|]. rewrite Hx.
        destruct rest as [|y r]; [contradiction|].
        cbn [Dll.first] in Hf |- *. cbn [remove].
        destruct (Nat.eq_dec e y) as [->|_]; [congruence|]. reflexivity.
    + apply IH; [exact Hrest|exact Hnd'|exact Hin|].
      intros b [= <-]. exact Hnot.
Qed.

Lemma NoDup_remove_keeps (e : nat) l : NoDup l -> NoDup (remove Nat.eq_dec e l).
Proof.
  induction 1 as [|x l Hx _ IH]; cbn [remove]; [constructor|].
  destruct (Nat.eq_dec e x); [exact IH|].
  constructor; [|exact IH]. intros Hin. apply in_remove in Hin. tauto.
Qed.

Lemma first_remove (e : nat) l n (s : store) before tail :
  Dll.chain s before l tail -> NoDup l -> s e = Some n -> In e l ->
  Dll.first (remove Nat.eq_dec e l)
  = if Dll.ptr_eqb (Some e) (Dll.first l) then Dll.next n else Dll.first l.
Proof.
  intros H Hnd Hn Hin. destruct l as [|x rest]; [contradiction|].
  cbn [Dll.first remove Dll.ptr_eqb].
  cbn [Dll.chain] in H. destruct H as ((m & Hm & _ & Hx) & _).
  apply NoDup_cons_iff in Hnd. destruct Hnd as (Hnot & _).
  destruct (Nat.eq_dec e x) as [<-|Hne].
  - rewrite Nat.eqb_refl, remove_notin by exact Hnot.
    rewrite Hn in Hm. injection Hm as <-. now rewrite Hx.
  - replace (Nat.eqb e x) with false by (symmetry; now apply Nat.eqb_neq).
    reflexivity.
Qed.

(** [RBTK_DLL_REMOVE] on an element of a list. *)
Lemma RBTK_DLL_REMOVE_removes (s : store) head tail l e :
  Dll.dll s head tail l -> In e l ->
  exists s' head' tail',
    Dll.RBTK_DLL_REMOVE s head tail e = Some (s', head', tail')
    /\ Dll.dll s' head' tail' (remove Nat.eq_dec e l)
    /\ (forall x, option_map Dll.item (s' x) = option_map Dll.item (s x)).
Proof.
  intros (Hhead & Hchain & Hnd) Hin.
  destruct (chain_in_store s l None tail e Hchain Hin) as (n & Hn).
  assert (Hprev : Dll.prev n <> Some e
                  /\ forall p, Dll.prev n = Some p -> s p <> None).
  { destruct (chain_prev_in s l None tail e n Hchain Hnd Hin Hn)
      as [(_ & Hp)|(_ & p & Hp & Hpin & Hpe)].
    - rewrite Hp. split; [discriminate|]. intros p [=].
    - rewrite Hp. split; [congruence|]. intros p' [= <-].
      destruct (chain_in_store s l None tail p Hchain Hpin) as (m & Hm).
      congruence. }
  assert (Hnext : Dll.next n <> Some e
                  /\ forall q, Dll.next n = Some q -> s q <> None).
  { split.
    - intros E. destruct (chain_next_in s l None tail e n e Hchain Hnd Hin Hn E)
        as (_ & H). congruence.
    - intros q E.
      destruct (chain_next_in s l None tail e n q Hchain Hnd Hin Hn E)
        as (Hq & _).
      destruct (chain_in_store s l None tail q Hchain Hq) as (m & Hm).
      congruence. }
  destruct Hprev as (Hpe & Hps). destruct Hnext as (Hqe & Hqs).
  destruct (RBTK_DLL_REMOVE_unlinked s head tail e n Hn Hpe Hqe Hps Hqs)
    as (s' & Hrm & Hs').
  eexists s', _, _. split; [exact Hrm|]. split.
  - split; [|split].
    + rewrite Hhead. symmetry. eapply first_remove; eassumption.
    + apply (chain_ext (Dll.unlinked s (Dll.prev n) (Dll.next n)));
        [intros x _; apply Hs'|].
      apply chain_unlinked; try assumption. intros b [=].
    + apply NoDup_remove_keeps. exact Hnd.
  - intros x. rewrite Hs'. unfold Dll.unlinked. destruct (s x); reflexivity.
Qed.

Lemma chain_push (s : store) elem ne t (s2 : store) :
  s elem = Some ne -> Dll.next ne = None ->
  (forall x,
      s2 x
      = if Nat.eqb x t then
          match s t with
          | Some m => Some (Dll.mkNode (Dll.item m) (Dll.prev m) (Some elem))
          | None => None
          end
        else if Nat.eqb x elem then
          Some (Dll.mkNode (Dll.item ne) (Some t) None)
        else s x) ->
  forall l before,
    Dll.chain s before l (Some t) -> l <> [] -> ~ In elem l -> NoDup l ->
    Dll.chain s2 before (l ++ [elem]) (Some elem).
Proof.
  intros Hne Hnn Hs2.
  induction l as [|x rest IH]; intros before H Hl Hnot Hnd; [congruence|].
  cbn [Dll.chain] in H. destruct H as ((m & Hm & Hp & Hx) & Hrest).
  apply NoDup_cons_iff in Hnd. destruct Hnd as (Hxr & Hnd').
  assert (Hxe : x <> elem) by (intros ->; apply Hnot; left; reflexivity).
  cbn [app Dll.chain].
  destruct rest as [|y r].
  - cbn [Dll.chain] in Hrest. injection Hrest as Ht. subst t.
    split.
    + rewrite Hs2, Nat.eqb_refl, Hm. eexists. split; [reflexivity|].
      cbn [Dll.prev Dll.next app Dll.first]. auto.
    + cbn [app Dll.chain]. split; [|reflexivity].
      rewrite Hs2.
      replace (Nat.eqb elem x) with false
        by (symmetry; apply Nat.eqb_neq; congruence).
      rewrite Nat.eqb_refl. eexists. split; [reflexivity|].
      cbn [Dll.prev Dll.next Dll.first]. auto.
  - split.
    + destruct (chain_tail_in s (y :: r) (Some x) (Some t) Hrest)
        as (t' & [= <-] & Ht); [discriminate|].
      rewrite Hs2.
      replace (Nat.eqb x t) with false
        by (symmetry; apply Nat.eqb_neq; intros ->; contradiction).
      replace (Nat.eqb x elem) with false
        by (symmetry; now apply Nat.eqb_neq).
      exists m. cbn [app Dll.first] in *. auto.
    + apply IH; [exact Hrest|discriminate| |exact Hnd'].
      intros Hin. apply Hnot. right. exact Hin.
Qed.

(** [RBTK_DLL_PUSH] of an element that is not in the list and whose
    [next] is [NULL]. *)
Lemma RBTK_DLL_PUSH_appends (s : store) head tail l elem ne :
  Dll.dll s head tail l -> ~ In elem l ->
  s elem = Some ne -> Dll.next ne = None ->
  exists s',
    Dll.RBTK_DLL_PUSH s head tail elem
    = Some (s', Dll.first (l ++ [elem]), Some elem)
    /\ Dll.dll s' (Dll.first (l ++ [elem])) (Some elem) (l ++ [elem])
    /\ (forall x, option_map Dll.item (s' x) = option_map Dll.item (s x)).
Proof.
  intros (Hhead & Hchain & Hnd) Hnot Hne Hnn.
  assert (Hnd' : NoDup (l ++ [elem])).
  { apply NoDup_app; [exact Hnd|repeat constructor; intros []|].
    intros x Hx [<-|[]]. contradiction. }
  unfold Dll.RBTK_DLL_PUSH. subst head.
  destruct l as [|h rest].
  - cbn [Dll.first]. unfold Dll.set_prev. rewrite Hne.
    unfold Dll.set_next, Dll.upd at 1. rewrite Nat.eqb_refl.
    cbn [Dll.item Dll.prev Dll.next]. unfold NULL.
    eexists. split; [reflexivity|]. split.
    + split; [reflexivity|]. split; [|exact Hnd'].
      cbn [app Dll.chain]. split; [|reflexivity].
      unfold Dll.upd. rewrite Nat.eqb_refl. eexists. split; [reflexivity|].
      cbn [Dll.prev Dll.next Dll.first]. auto.
    + intros x. unfold Dll.upd. destruct (Nat.eqb x elem) eqn:E.
      * apply Nat.eqb_eq in E. subst x. rewrite Hne. reflexivity.
      * reflexivity.
  - cbn [Dll.first app].
    destruct (chain_tail_in s (h :: rest) None tail Hchain)
      as (t & -> & Ht); [discriminate|].
    destruct (chain_in_store s (h :: rest) None (Some t) t Hchain Ht)
      as (mt & Hmt).
    assert (Hte : t <> elem) by (intros ->; contradiction).
    unfold Dll.set_prev. rewrite Hne.
    unfold Dll.set_next, Dll.upd at 1.
    replace (Nat.eqb t elem) with false
      by (symmetry; now apply Nat.eqb_neq).
    rewrite Hmt.
    eexists. split; [reflexivity|].
    assert (Hs2 : forall x,
               Dll.upd
                 (Dll.upd s elem
                    (Dll.mkNode (Dll.item ne) (Some t) (Dll.next ne)))
                 t (Dll.mkNode (Dll.item mt) (Dll.prev mt) (Some elem)) x
               = if Nat.eqb x t then
                   match s t with
                   | Some m =>
                       Some (Dll.mkNode (Dll.item m) (Dll.prev m) (Some elem))
                   | None => None
                   end
                 else if Nat.eqb x elem then
                   Some (Dll.mkNode (Dll.item ne) (Some t) None)
                 else s x).
    { intros x. unfold Dll.upd. rewrite Hmt, Hnn. reflexivity. }
    split.
    + split; [reflexivity|]. split; [|exact Hnd'].
      apply (chain_push s elem ne t _ Hne Hnn Hs2 (h :: rest) None);
        [exact Hchain|discriminate|exact Hnot|exact Hnd].
    + intros x. rewrite Hs2.
      destruct (Nat.eqb x t) eqn:E1.
      * apply Nat.eqb_eq in E1. subst x. rewrite Hmt. reflexivity.
      * destruct (Nat.eqb x elem) eqn:E2; [|reflexivity].
        apply Nat.eqb_eq in E2. subst x. rewrite Hne. reflexivity.
Qed.

(** X21: the list macros.  With [head] and [tail] the ends of a list of
    elements, [RBTK_DLL_PUSH] of an element that is not in the list and
    whose [next] is [NULL] makes them the ends of the list with the
    element added at its end, and [RBTK_DLL_REMOVE] of an element of the
    list makes them the ends of the list without it, the other elements
    in the order they had; neither touches what the elements carry, and
    neither dereferences a null pointer. *)
Theorem dll_push_and_remove :
  forall (s : store) head tail l,
    Dll.dll s head tail l ->
    (forall elem ne,
        ~ In elem l -> s elem = Some ne -> Dll.next ne = None ->
        exists s',
          Dll.RBTK_DLL_PUSH s head tail elem
          = Some (s', Dll.first (l ++ [elem]), Some elem)
          /\ Dll.dll s' (Dll.first (l ++ [elem])) (Some elem) (l ++ [elem])
          /\ (forall x,
                 option_map Dll.item (s' x) = option_map Dll.item (s x)))
    /\ (forall e,
           In e l ->
           exists s' head' tail',
             Dll.RBTK_DLL_REMOVE s head tail e = Some (s', head', tail')
             /\ Dll.dll s' head' tail' (remove Nat.eq_dec e l)
             /\ (forall x,
                    option_map Dll.item (s' x) = option_map Dll.item (s x))).
Proof.
  intros s head tail l H. split.
  - intros elem ne. apply RBTK_DLL_PUSH_appends. exact H.
  - intros e. apply RBTK_DLL_REMOVE_removes. exact H.
Qed.

End DllFacts.

Lemma dll_push_and_remove_witness :
  (exists s',
      Dll.RBTK_DLL_PUSH Dll.sample (Some 1%nat) (Some 2%nat) 3
      = Some (s', Some 1%nat, Some 3%nat)
      /\ Dll.dll s' (Some 1%nat) (Some 3%nat) [1; 2; 3]%nat)
  /\ (exists s' head' tail',
         Dll.RBTK_DLL_REMOVE Dll.sample (Some 1%nat) (Some 2%nat) 1
         = Some (s', head', tail')
         /\ Dll.dll s' head' tail' [2%nat]).
Proof.
  destruct (@dll_push_and_remove nat Dll.sample (Some 1%nat) (Some 2%nat)
              [1; 2]%nat) as (Hpush & Hrem).
  - split; [reflexivity|]. split.
    + cbn [Dll.chain]. split; [|split; [|reflexivity]].
      * eexists. split; [reflexivity|]. split; reflexivity.
      * eexists. split; [reflexivity|]. split; reflexivity.
    + repeat constructor; cbn [In]; intros H; decompose [or] H;
        try discriminate; assumption.
  - split.
    + destruct (Hpush 3%nat (Dll.mkNode 30%nat NULL NULL)) as (s' & H1 & H2 & _).
      * cbn [In]. intros H. decompose [or] H; try discriminate; assumption.
      * reflexivity.
      * reflexivity.
      * exists s'. split; [exact H1|exact H2].
    + destruct (Hrem 1%nat) as (s' & h & t & H1 & H2 & _).
      * left. reflexivity.
      * exists s', h, t. split; [exact H1|exact H2].
Defined.


(* ================================================================= *)
(** ** The sounds the engine maintains *)

Lemma sound_of_item a e :
  Sounds.sound_of a e = option_map Dll.item (Sounds.elems a e).
Proof. unfold Sounds.sound_of. destruct (Sounds.elems a e); reflexivity. Qed.

Lemma dll_ext (s s' : @Dll.store nat) head tail l :
  (forall x, In x l -> s' x = s x) ->
  Dll.dll s head tail l -> Dll.dll s' head tail l.
Proof.
  intros He (H1 & H2 & H3). split; [exact H1|]. split; [|exact H3].
  apply (chain_ext s s'); assumption.
Qed.

Lemma maintains_same a a' w es :
  Sounds.maintains a w es ->
  Sounds.initialized a' = Sounds.initialized a ->
  Sounds.maintained_head a' = Sounds.maintained_head a ->
  Sounds.maintained_tail a' = Sounds.maintained_tail a ->
  Sounds.elems a' = Sounds.elems a ->
  (forall y, option_map Sounds.maintained (Sounds.sounds a' y)
             = option_map Sounds.maintained (Sounds.sounds a y)) ->
  Sounds.maintains a' w es.
Proof.
  intros (Hi & Hd & H3 & H4) Ei Eh Et Ee Es.
  unfold Sounds.maintains, Sounds.sound_of. rewrite Ei, Eh, Et, Ee.
  split; [exact Hi|]. split; [exact Hd|]. split.
  - intros e He. destruct (H3 e He) as (x & s & Hx1 & Hx2 & Hx3 & Hx4).
    specialize (Es x). rewrite Hx2 in Es.
    destruct (Sounds.sounds a' x) as [s'|] eqn:Hs'; [|discriminate Es].
    cbn in Es. injection Es as Es.
    exists x, s'. split; [exact Hx1|]. split; [exact Hs'|].
    split; [congruence|exact Hx4].
  - intros x s e Hs Hm. specialize (Es x). rewrite Hs in Es.
    destruct (Sounds.sounds a x) as [s0|] eqn:Hs0; [|discriminate Es].
    cbn in Es. injection Es as Es.
    apply (H4 x s0 e Hs0). congruence.
Qed.

Lemma maintains_one_sound a w es x s e y sy :
  Sounds.maintains a w es ->
  Sounds.sounds a x = Some s -> Sounds.maintained s = Some e ->
  Sounds.sounds a y = Some sy -> Sounds.maintained sy = Some e ->
  y = x.
Proof.
  intros (_ & _ & _ & H4) Hs Hm Hy Hmy.
  destruct (H4 x s e Hs Hm) as (_ & H1).
  destruct (H4 y sy e Hy Hmy) as (_ & H2).
  congruence.
Qed.

Lemma priv_rbtk_audio_abandon_maintained a w es x s e :
  Sounds.maintains a w es ->
  Sounds.sounds a x = Some s -> Sounds.maintained s = Some e ->
  exists a',
    Sounds.priv_rbtk_audio_abandon x a w = Done (a', free w (Some e))
    /\ Sounds.maintains a' (free w (Some e)) (remove Nat.eq_dec e es)
    /\ In e es
    /\ (forall y, Sounds.sounds a' y
                  = if Nat.eqb y x
                    then Some (Sounds.mkSound (Sounds.closed s) NULL)
                    else Sounds.sounds a y)
    /\ (forall e', e' <> e -> Sounds.sound_of a' e' = Sounds.sound_of a e')
    /\ Sounds.plat_closed a' = Sounds.plat_closed a.
Proof.
  intros Hm0 Hs Hm. pose proof Hm0 as (Hi & Hd & H3 & H4).
  destruct (H4 x s e Hs Hm) as (Hin & Hso).
  destruct (RBTK_DLL_REMOVE_removes _ _ _ _ _ Hd Hin)
    as (s' & h' & t' & Hrem & Hd' & Hit).
  unfold Sounds.priv_rbtk_audio_abandon. rewrite Hs, Hm, Hi, Hrem.
  eexists. split; [reflexivity|].
  assert (Hso' : forall e', e' <> e ->
            Sounds.sound_of
              (Sounds.set_sound (Sounds.set_list a (Dll.drop s' e) h' t') x
                 (Sounds.mkSound (Sounds.closed s) NULL)) e'
            = Sounds.sound_of a e').
  { intros e' Hne. rewrite !sound_of_item. cbn. unfold Dll.drop.
    destruct (Nat.eqb_spec e' e); [contradiction|]. apply Hit. }
  split; [|split; [exact Hin|split; [|split; [exact Hso'|reflexivity]]]].
  - split; [exact Hi|]. split.
    + cbn. apply (dll_ext s'); [|exact Hd'].
      intros y Hy. apply in_remove in Hy. destruct Hy as (_ & Hne).
      unfold Dll.drop. destruct (Nat.eqb_spec y e); [contradiction|reflexivity].
    + split.
      * intros e' He'. apply in_remove in He'. destruct He' as (He' & Hne).
        destruct (H3 e' He') as (x' & sx & Hx1 & Hx2 & Hx3 & Hx4).
        exists x', sx. split; [rewrite Hso' by exact Hne; exact Hx1|].
        split.
        { cbn. destruct (Nat.eqb_spec x' x) as [Hxx|Hxx]; [|exact Hx2].
          exfalso. subst x'. rewrite Hs in Hx2. injection Hx2 as Hx2.
          subst sx. rewrite Hm in Hx3. injection Hx3 as Hx3. auto. }
        split; [exact Hx3|].
        cbn. apply filter_In. split; [exact Hx4|]. cbn.
        destruct (Nat.eqb_spec e' e); [contradiction|reflexivity].
      * intros y sy ey Hy Hmy. cbn in Hy.
        destruct (Nat.eqb_spec y x) as [Hyx|Hyx].
        { injection Hy as Hy. subst sy. discriminate Hmy. }
        destruct (H4 y sy ey Hy Hmy) as (Hin' & Hso2).
        assert (Hne : ey <> e).
        { intros Heq. subst ey. apply Hyx.
          apply (maintains_one_sound a w es x s e y sy); assumption. }
        split; [apply in_in_remove; assumption|].
        rewrite Hso' by assumption. exact Hso2.
  - intros y. reflexivity.
Qed.

Lemma priv_rbtk_audio_abandon_unmaintained a w x s :
  Sounds.sounds a x = Some s -> Sounds.maintained s = None ->
  Sounds.priv_rbtk_audio_abandon x a w = Done (a, w).
Proof.
  intros Hs Hm. unfold Sounds.priv_rbtk_audio_abandon. rewrite Hs, Hm.
  reflexivity.
Qed.

Lemma priv_rbtk_audio_maintain_spec a w es x s :
  Sounds.maintains a w es -> heap_wf w ->
  Sounds.sounds a x = Some s -> Sounds.maintained s = None ->
  match malloc w Sounds.sizeof_maintained_sounds with
  | (Some elem, w1) =>
      exists a',
        Sounds.priv_rbtk_audio_maintain x a w = Done (true, a', w1)
        /\ Sounds.maintains a' w1 (es ++ [elem])
        /\ heap_wf w1
        /\ (forall y, Sounds.sounds a' y
                      = if Nat.eqb y x
                        then Some (Sounds.mkSound (Sounds.closed s) (Some elem))
                        else Sounds.sounds a y)
        /\ Sounds.plat_closed a' = Sounds.plat_closed a
  | (None, w1) =>
      Sounds.priv_rbtk_audio_maintain x a w
      = Done (false, a, rbtk_signal_error w1 RBTK_ERROR_OUT_OF_MEMORY)
  end.
Proof.
  intros Hm0 Hwf Hs Hm. pose proof Hm0 as (Hi & Hd & H3 & H4).
  unfold Sounds.priv_rbtk_audio_maintain. rewrite Hs, Hi, Hm. cbn [negb].
  pose proof (malloc_fresh w Sounds.sizeof_maintained_sounds Hwf) as Hmal.
  destruct (malloc w Sounds.sizeof_maintained_sounds) as [[elem|] w1];
    [|reflexivity].
  destruct Hmal as (He & Hh & Hn & Hwf1 & Hfresh & _).
  assert (Hnot : ~ In elem es).
  { intros Hin. destruct (H3 elem Hin) as (? & ? & _ & _ & _ & Hlive).
    rewrite Forall_forall in Hfresh. apply (Hfresh _ Hlive). reflexivity. }
  set (e0 := Dll.upd (Sounds.elems a) elem (Dll.mkNode x NULL NULL)).
  assert (Hd0 : Dll.dll e0 (Sounds.maintained_head a)
                  (Sounds.maintained_tail a) es).
  { apply (dll_ext (Sounds.elems a)); [|exact Hd]. intros y Hy.
    unfold e0, Dll.upd.
    destruct (Nat.eqb_spec y elem); [subst; contradiction|reflexivity]. }
  destruct (RBTK_DLL_PUSH_appends e0 _ _ es elem (Dll.mkNode x NULL NULL)
              Hd0 Hnot) as (s' & Hpush & Hd' & Hit).
  { unfold e0, Dll.upd. rewrite Nat.eqb_refl. reflexivity. }
  { reflexivity. }
  rewrite Hpush. eexists. split; [reflexivity|].
  assert (Hso' : forall e',
            Sounds.sound_of
              (Sounds.set_sound
                 (Sounds.set_list a s' (Dll.first (es ++ [elem])) (Some elem))
                 x (Sounds.mkSound (Sounds.closed s) (Some elem))) e'
            = if Nat.eqb e' elem then Some x else Sounds.sound_of a e').
  { intros e'. rewrite !sound_of_item. cbn. rewrite Hit. unfold e0, Dll.upd.
    destruct (Nat.eqb e' elem); reflexivity. }
  split; [|split; [exact Hwf1|split; [intros y; reflexivity|reflexivity]]].
  split; [exact Hi|]. split; [exact Hd'|]. split.
  - intros e' He'. apply in_app_or in He'. destruct He' as [He'|He'].
    + destruct (H3 e' He') as (x' & sx & Hx1 & Hx2 & Hx3 & Hx4).
      exists x', sx. split.
      { rewrite Hso'. destruct (Nat.eqb_spec e' elem); [|exact Hx1].
        subst e'. contradiction. }
      split.
      { cbn. destruct (Nat.eqb_spec x' x) as [Hxx|Hxx]; [|exact Hx2].
        exfalso. subst x'. rewrite Hs in Hx2. injection Hx2 as Hx2.
        subst sx. rewrite Hm in Hx3. discriminate Hx3. }
      split; [exact Hx3|]. rewrite Hh. right. exact Hx4.
    + destruct He' as [He'|[]]. subst e'.
      exists x, (Sounds.mkSound (Sounds.closed s) (Some elem)).
      split; [rewrite Hso', Nat.eqb_refl; reflexivity|].
      split; [cbn; rewrite Nat.eqb_refl; reflexivity|].
      split; [reflexivity|]. rewrite Hh. left. reflexivity.
  - intros y sy ey Hy Hmy. cbn in Hy.
    destruct (Nat.eqb_spec y x) as [Hyx|Hyx].
    + injection Hy as Hy. subst sy. cbn in Hmy. injection Hmy as Hmy.
      subst ey y. split; [apply in_or_app; right; left; reflexivity|].
      rewrite Hso', Nat.eqb_refl. reflexivity.
    + destruct (H4 y sy ey Hy Hmy) as (Hin' & Hso2).
      split; [apply in_or_app; left; exact Hin'|].
      rewrite Hso'. destruct (Nat.eqb_spec ey elem); [|exact Hso2].
      subst ey. contradiction.
Qed.

Lemma rbtk_close_sound_open a w es x s :
  Sounds.maintains a w es ->
  Sounds.sounds a x = Some s -> Sounds.closed s = false ->
  exists a',
    Sounds.rbtk_close_sound x a w = Done (a', free w (Sounds.maintained s))
    /\ Sounds.maintains a' (free w (Sounds.maintained s))
         (match Sounds.maintained s with
          | Some e => remove Nat.eq_dec e es
          | None => es
          end)
    /\ (forall y, Sounds.sounds a' y
                  = if Nat.eqb y x then Some (Sounds.mkSound true NULL)
                    else Sounds.sounds a y)
    /\ (forall e', Some e' <> Sounds.maintained s ->
                   Sounds.sound_of a' e' = Sounds.sound_of a e')
    /\ Sounds.plat_closed a' = Sounds.plat_closed a ++ [x].
Proof.
  intros Hm0 Hs Hc.
  set (a1 := Sounds.mkAudio (Sounds.maintained_head a)
               (Sounds.maintained_tail a) (Sounds.initialized a)
               (Sounds.elems a) (Sounds.sounds a)
               (Sounds.plat_closed a ++ [x])).
  assert (Hm1 : Sounds.maintains a1 w es).
  { apply (maintains_same a); try reflexivity. exact Hm0. }
  unfold Sounds.rbtk_close_sound. rewrite Hs, Hc. cbn [negb]. fold a1.
  destruct (Sounds.maintained s) as [e|] eqn:Hm.
  - destruct (priv_rbtk_audio_abandon_maintained a1 w es x s e Hm1 Hs Hm)
      as (a2 & Hab & Hm2 & _ & Hs2 & Hso2 & Hp2).
    rewrite Hab. rewrite (Hs2 x), Nat.eqb_refl. cbn [Sounds.maintained].
    eexists. split; [reflexivity|]. split; [|split; [|split]].
    + apply (maintains_same a2); try reflexivity; [exact Hm2|].
      intros y. cbn. rewrite (Hs2 y).
      destruct (Nat.eqb y x); reflexivity.
    + intros y. cbn. rewrite (Hs2 y). destruct (Nat.eqb y x); reflexivity.
    + intros e' Hne. rewrite !sound_of_item. cbn.
      rewrite <- !sound_of_item. rewrite Hso2 by congruence.
      rewrite !sound_of_item. reflexivity.
    + exact Hp2.
  - rewrite (priv_rbtk_audio_abandon_unmaintained a1 w x s Hs Hm).
    cbn [Sounds.sounds a1]. rewrite Hs, Hm.
    eexists. split; [reflexivity|]. split; [|split; [|split]].
    + apply (maintains_same a1); try reflexivity; [exact Hm1|].
      intros y. cbn. destruct (Nat.eqb_spec y x); [|reflexivity].
      subst y. rewrite Hs. cbn. rewrite Hm. reflexivity.
    + intros y. reflexivity.
    + intros e' _. reflexivity.
    + reflexivity.
Qed.

Lemma flat_map_same {B C} (f g : B -> list C) l :
  (forall x, In x l -> f x = g x) -> flat_map f l = flat_map g l.
Proof.
  induction l as [|b l IH]; intros H; [reflexivity|].
  cbn. rewrite (H b) by (left; reflexivity). f_equal.
  apply IH. intros x Hx. apply H. right. exact Hx.
Qed.

(** One turn of the loop of [priv_rbtk_audio_terminate] on the first
    element. *)
Lemma close_maintained_step a w e rest x s :
  Sounds.maintains a w (e :: rest) ->
  Sounds.sounds a x = Some s -> Sounds.maintained s = Some e ->
  exists a1 w1 a2,
    Sounds.rbtk_close_sound x a w = Done (a1, w1)
    /\ Sounds.priv_rbtk_audio_abandon x a1 w1 = Done (a2, free w (Some e))
    /\ Sounds.maintains a2 (free w (Some e)) rest
    /\ (forall y, Sounds.sounds a2 y
                  = if Nat.eqb y x then Some (Sounds.mkSound true NULL)
                    else Sounds.sounds a y)
    /\ (forall e', e' <> e -> Sounds.sound_of a2 e' = Sounds.sound_of a e')
    /\ Sounds.plat_closed a2
       = Sounds.plat_closed a ++ Sounds.still_open a e.
Proof.
  intros Hm0 Hs Hm. pose proof Hm0 as (Hi & Hd & H3 & H4).
  assert (Hrest : remove Nat.eq_dec e (e :: rest) = rest).
  { destruct Hd as (_ & _ & Hnd). apply NoDup_cons_iff in Hnd.
    destruct Hnd as (Hnot & _). cbn.
    destruct (Nat.eq_dec e e) as [_|Hne]; [|contradiction].
    apply remove_notin. exact Hnot. }
  assert (Hopen : Sounds.still_open a e
                  = if Sounds.closed s then [] else [x]).
  { destruct (H4 x s e Hs Hm) as (_ & Hso). unfold Sounds.still_open.
    rewrite Hso, Hs. reflexivity. }
  destruct (Sounds.closed s) eqn:Hc.
  - destruct (priv_rbtk_audio_abandon_maintained a w _ x s e Hm0 Hs Hm)
      as (a2 & Hab & Hm2 & _ & Hs2 & Hso2 & Hp2).
    exists a, w, a2. split.
    { unfold Sounds.rbtk_close_sound. rewrite Hs, Hc. reflexivity. }
    split; [exact Hab|]. rewrite Hrest in Hm2. split; [exact Hm2|].
    split; [|split; [exact Hso2|]].
    + intros y. rewrite (Hs2 y), Hc. reflexivity.
    + rewrite Hp2, Hopen, app_nil_r. reflexivity.
  - destruct (rbtk_close_sound_open a w _ x s Hm0 Hs Hc)
      as (a1 & Hcl & Hm1 & Hs1 & Hso1 & Hp1).
    rewrite Hm in Hcl, Hm1, Hso1. rewrite Hrest in Hm1.
    exists a1, (free w (Some e)), a1. split; [exact Hcl|].
    split.
    { apply priv_rbtk_audio_abandon_unmaintained
        with (s := Sounds.mkSound true NULL); [|reflexivity].
      rewrite (Hs1 x), Nat.eqb_refl. reflexivity. }
    split; [exact Hm1|]. split; [exact Hs1|]. split.
    + intros e' Hne. apply Hso1. congruence.
    + rewrite Hp1, Hopen. reflexivity.
Qed.

Lemma close_maintained_spec : forall es fuel a w,
  Sounds.maintains a w es -> (length es <= fuel)%nat ->
  exists a',
    Sounds.close_maintained fuel (Sounds.maintained_head a) a w
    = Done (a', Sounds.freed es w)
    /\ Sounds.maintains a' (Sounds.freed es w) []
    /\ (forall y, Sounds.sounds a' y
                  = option_map Sounds.terminated (Sounds.sounds a y))
    /\ Sounds.plat_closed a'
       = Sounds.plat_closed a ++ flat_map (Sounds.still_open a) es.
Proof.
  induction es as [|e rest IH]; intros fuel a w Hm0 Hfuel.
  - pose proof Hm0 as (Hi & (Hh & _) & _ & H4). cbn in Hh. rewrite Hh.
    exists a. split; [destruct fuel; reflexivity|]. split; [exact Hm0|].
    split; [|cbn; rewrite app_nil_r; reflexivity].
    intros y. destruct (Sounds.sounds a y) as [s|] eqn:Hs; [|reflexivity].
    cbn. unfold Sounds.terminated.
    destruct (Sounds.maintained s) as [e|] eqn:Hm; [|reflexivity].
    destruct (H4 y s e Hs Hm) as ([] & _).
  - pose proof Hm0 as (Hi & (Hh & Hch & Hnd) & H3 & H4).
    destruct fuel as [|fuel]; [cbn in Hfuel; lia|].
    cbn in Hh. rewrite Hh.
    destruct (H3 e (or_introl eq_refl)) as (x & s & Hso & Hs & Hm & _).
    destruct (close_maintained_step a w e rest x s Hm0 Hs Hm)
      as (a1 & w1 & a2 & Hcl & Hab & Hm2 & Hs2 & Hso2 & Hp2).
    destruct (IH fuel a2 (free w (Some e)) Hm2) as (a' & Hloop & Hm' & Hs' & Hp').
    { cbn in Hfuel. lia. }
    exists a'. cbn [Sounds.close_maintained Sounds.freed fold_left].
    rewrite sound_of_item in Hso.
    destruct (Sounds.elems a e) as [n|]; [|discriminate Hso].
    cbn in Hso. injection Hso as Hso. rewrite Hso, Hcl, Hab.
    split; [exact Hloop|]. split; [exact Hm'|].
    apply NoDup_cons_iff in Hnd. destruct Hnd as (Hnot & _).
    split.
    + intros y. rewrite (Hs' y), (Hs2 y).
      destruct (Nat.eqb_spec y x) as [Hyx|Hyx]; [|reflexivity].
      subst y. rewrite Hs. cbn. unfold Sounds.terminated. rewrite Hm.
      reflexivity.
    + rewrite Hp', Hp2. cbn [flat_map]. rewrite <- app_assoc. f_equal.
      f_equal. apply flat_map_same. intros e' He'.
      assert (Hne : e' <> e) by (intros Heq; subst e'; contradiction).
      unfold Sounds.still_open. rewrite (Hso2 e' Hne).
      destruct (H3 e' (or_intror He')) as (x' & sx & Hx1 & Hx2 & Hx3 & _).
      rewrite Hx1, (Hs2 x').
      destruct (Nat.eqb_spec x' x) as [Hxx|Hxx]; [|reflexivity].
      exfalso. subst x'. rewrite Hs in Hx2. injection Hx2 as Hx2. subst sx.
      rewrite Hm in Hx3. injection Hx3 as Hx3. auto.
Qed.

Lemma maintains_started :
  Sounds.maintains Sounds.started Sample.world0 [].
Proof.
  split; [reflexivity|]. split.
  - split; [reflexivity|]. split; [reflexivity|constructor].
  - split; [intros e []|].
    intros x s e Hs Hm. cbn in Hs.
    destruct (Nat.eqb x 0); [|discriminate Hs].
    injection Hs as Hs. subst s. discriminate Hm.
Qed.

Lemma maintains_maintaining :
  Sounds.maintains Sounds.maintaining Sounds.maintaining_world [0%nat].
Proof.
  split; [reflexivity|]. split.
  - split; [reflexivity|]. split.
    + split; [|reflexivity]. eexists. split; [reflexivity|].
      split; reflexivity.
    + repeat constructor. intros [].
  - split.
    + intros e [He|[]]. subst e.
      exists 0%nat, (Sounds.mkSound false (Some 0%nat)).
      split; [reflexivity|]. split; [reflexivity|]. split; [reflexivity|].
      left. reflexivity.
    + intros x s e Hs Hm. cbn in Hs.
      destruct (Nat.eqb_spec x 0); [|discriminate Hs].
      injection Hs as Hs. subst s x. cbn in Hm. injection Hm as Hm. subst e.
      split; [left; reflexivity|reflexivity].
Qed.

Lemma heap_freed : forall es w,
  heap (Sounds.freed es w) = filter (Sounds.not_element es) (heap w)
  /\ next_block (Sounds.freed es w) = next_block w
  /\ malloc_plan (Sounds.freed es w) = malloc_plan w
  /\ last_error (Sounds.freed es w) = last_error w.
Proof.
  induction es as [|e rest IH]; intros w.
  - cbn. split; [|repeat split].
    induction (heap w) as [|b l IHl]; [reflexivity|].
    cbn. f_equal. exact IHl.
  - cbn [Sounds.freed fold_left].
    destruct (IH (free w (Some e))) as (H1 & H2 & H3 & H4).
    unfold Sounds.freed in H1, H2, H3, H4. rewrite H1, H2, H3, H4.
    split; [|repeat split]. cbn [free heap].
    induction (heap w) as [|b l IHl]; [reflexivity|].
    cbn [filter]. unfold Sounds.not_element at 2. cbn [existsb].
    destruct (Nat.eqb (fst b) e); cbn [negb orb filter].
    + exact IHl.
    + fold (Sounds.not_element rest b).
      destruct (Sounds.not_element rest b); [f_equal|]; exact IHl.
Qed.



(** X23: maintaining a sound and abandoning it again.  After a successful
    [priv_rbtk_audio_maintain] of a sound that was not maintained,
    [priv_rbtk_audio_abandon] frees the element: the heap, the list of
    maintained sounds and every sound are as before the two calls. *)
Theorem abandon_undoes_maintain :
  forall a w es x s a1 w1,
    Sounds.maintains a w es -> heap_wf w ->
    Sounds.sounds a x = Some s -> Sounds.maintained s = None ->
    Sounds.priv_rbtk_audio_maintain x a w = Done (true, a1, w1) ->
    exists a2 w2,
      Sounds.priv_rbtk_audio_abandon x a1 w1 = Done (a2, w2)
      /\ heap w2 = heap w
      /\ Sounds.maintains a2 w2 es
      /\ (forall y, Sounds.sounds a2 y = Sounds.sounds a y)
      /\ Sounds.plat_closed a2 = Sounds.plat_closed a.
Proof.
  intros a w es x s a1 w1 Hm0 Hwf Hs Hm Hr.
  pose proof (priv_rbtk_audio_maintain_spec a w es x s Hm0 Hwf Hs Hm) as H.
  pose proof (malloc_fresh w Sounds.sizeof_maintained_sounds Hwf) as Hmal.
  destruct (malloc w Sounds.sizeof_maintained_sounds) as [[elem|] w1'].
  - destruct Hmal as (He & Hh & Hn & Hwf1 & Hfresh & _).
    destruct H as (a' & Hr' & Hm' & _ & Hs' & Hp').
    rewrite Hr' in Hr. injection Hr as Ha Hw. subst a' w1'.
    assert (Hs1 : Sounds.sounds a1 x
                  = Some (Sounds.mkSound (Sounds.closed s) (Some elem))).
    { rewrite (Hs' x), Nat.eqb_refl. reflexivity. }
    destruct (priv_rbtk_audio_abandon_maintained a1 w1 _ x _ elem Hm' Hs1
                eq_refl)
      as (a2 & Hab & Hm2 & _ & Hs2 & _ & Hp2).
    assert (Hnot : ~ In elem es).
    { intros Hin. destruct Hm0 as (_ & _ & H3 & _).
      destruct (H3 elem Hin) as (? & ? & _ & _ & _ & Hlive).
      rewrite Forall_forall in Hfresh. apply (Hfresh _ Hlive). reflexivity. }
    assert (Hes : remove Nat.eq_dec elem (es ++ [elem]) = es).
    { rewrite remove_app, (remove_notin elem es Hnot). cbn.
      destruct (Nat.eq_dec elem elem) as [_|Hne]; [|contradiction].
      apply app_nil_r. }
    assert (Hheap : heap (free w1 (Some elem)) = heap w).
    { cbn [free heap]. rewrite Hh. cbn [filter fst].
      rewrite Nat.eqb_refl. cbn [negb].
      apply heap_wf_fresh; [exact Hwf|]. subst elem. apply Nat.le_refl. }
    exists a2, (free w1 (Some elem)). split; [exact Hab|].
    split; [exact Hheap|]. rewrite Hes in Hm2. split; [exact Hm2|].
    split; [|rewrite Hp2; exact Hp'].
    intros y. rewrite (Hs2 y), (Hs' y). cbn [Sounds.closed].
    destruct (Nat.eqb_spec y x) as [Hyx|Hyx]; [|reflexivity].
    subst y. rewrite Hs. destruct s as [c m]. cbn in Hm. subst m.
    reflexivity.
  - rewrite H in Hr. discriminate Hr.
Qed.

Lemma abandon_undoes_maintain_witness :
  exists a1 w1 a2 w2,
    Sounds.priv_rbtk_audio_maintain 0 Sounds.started Sample.world0
    = Done (true, a1, w1)
    /\ Sounds.priv_rbtk_audio_abandon 0 a1 w1 = Done (a2, w2)
    /\ heap w2 = []
    /\ Sounds.maintains a2 w2 [].
Proof.
  assert (E : exists a1 w1,
             Sounds.priv_rbtk_audio_maintain 0 Sounds.started Sample.world0
             = Done (true, a1, w1)).
  { eexists. eexists. reflexivity. }
  destruct E as (a1 & w1 & E).
  destruct (abandon_undoes_maintain Sounds.started Sample.world0 [] 0%nat
              (Sounds.mkSound false NULL) a1 w1 maintains_started)
    as (a2 & w2 & H1 & H2 & H3 & _).
  - constructor.
  - reflexivity.
  - reflexivity.
  - exact E.
  - exists a1, w1, a2, w2. split; [exact E|]. split; [exact H1|].
    split; [exact H2|exact H3].
Defined.

(** X24: [rbtk_close_sound].  A sound that is closed already is left
    alone.  An open sound is handed to [plat_rbtk_close_sound] once and
    marked closed; if it was maintained, its element is taken out of the
    list and freed and the sound no longer points to it.  The list of
    maintained sounds stays in order and no other sound is changed. *)
Theorem close_sound_abandons_sound :
  forall a w es x s,
    Sounds.maintains a w es ->
    Sounds.sounds a x = Some s ->
    (Sounds.closed s = true -> Sounds.rbtk_close_sound x a w = Done (a, w))
    /\ (Sounds.closed s = false ->
        exists a',
          Sounds.rbtk_close_sound x a w
          = Done (a', free w (Sounds.maintained s))
          /\ Sounds.maintains a' (free w (Sounds.maintained s))
               (match Sounds.maintained s with
                | Some e => remove Nat.eq_dec e es
                | None => es
                end)
          /\ (forall e, Sounds.maintained s = Some e -> In e es)
          /\ Sounds.sounds a' x = Some (Sounds.mkSound true NULL)
          /\ (forall y, y <> x -> Sounds.sounds a' y = Sounds.sounds a y)
          /\ Sounds.plat_closed a' = Sounds.plat_closed a ++ [x]).
Proof.
  intros a w es x s Hm0 Hs. split.
  - intros Hc. unfold Sounds.rbtk_close_sound. rewrite Hs, Hc. reflexivity.
  - intros Hc.
    destruct (rbtk_close_sound_open a w es x s Hm0 Hs Hc)
      as (a' & Hr & Hm' & Hs' & _ & Hp').
    exists a'. split; [exact Hr|]. split; [exact Hm'|].
    split; [|split; [|split; [|exact Hp']]].
    + intros e He. destruct Hm0 as (_ & _ & _ & H4).
      apply (H4 x s e Hs He).
    + rewrite (Hs' x), Nat.eqb_refl. reflexivity.
    + intros y Hy. rewrite (Hs' y).
      destruct (Nat.eqb_spec y x); [contradiction|reflexivity].
Qed.

Lemma close_sound_abandons_sound_witness :
  exists a',
    Sounds.rbtk_close_sound 0 Sounds.maintaining Sounds.maintaining_world
    = Done (a', free Sounds.maintaining_world (Some 0%nat))
    /\ Sounds.maintains a' (free Sounds.maintaining_world (Some 0%nat)) []
    /\ Sounds.plat_closed a' = [0%nat].
Proof.
  destruct (close_sound_abandons_sound Sounds.maintaining
              Sounds.maintaining_world [0%nat] 0%nat
              (Sounds.mkSound false (Some 0%nat)) maintains_maintaining)
    as (_ & H).
  - reflexivity.
  - destruct (H eq_refl) as (a' & H1 & H2 & _ & _ & _ & H6).
    exists a'. split; [exact H1|]. split; [exact H2|exact H6].
Defined.

(** X25: [priv_rbtk_audio_terminate].  On an initialised module whose list
    of maintained sounds is in order, the loop ends after as many turns
    as there are elements: every element is freed and no other block is,
    every maintained sound ends up closed and pointing to no element,
    the other sounds are unchanged, and [plat_rbtk_close_sound] is called
    once for each maintained sound that was still open, oldest first.
    The list is empty afterwards; the result is that of
    [plat_rbtk_audio_terminate], and the module stays initialised when
    that fails. *)
Theorem terminate_closes_maintained_sounds :
  forall a w es fuel plat_ok,
    Sounds.maintains a w es -> (length es <= fuel)%nat ->
    exists a',
      Sounds.priv_rbtk_audio_terminate fuel plat_ok a w
      = Done (plat_ok, a', Sounds.freed es w)
      /\ heap (Sounds.freed es w) = filter (Sounds.not_element es) (heap w)
      /\ (forall y, Sounds.sounds a' y
                    = option_map Sounds.terminated (Sounds.sounds a y))
      /\ Sounds.plat_closed a'
         = Sounds.plat_closed a ++ flat_map (Sounds.still_open a) es
      /\ Sounds.maintained_head a' = NULL
      /\ Sounds.maintained_tail a' = NULL
      /\ Sounds.initialized a' = negb plat_ok.
Proof.
  intros a w es fuel plat_ok Hm0 Hfuel. pose proof Hm0 as (Hi & _).
  destruct (close_maintained_spec es fuel a w Hm0 Hfuel)
    as (a1 & Hloop & Hm1 & Hs1 & Hp1).
  unfold Sounds.priv_rbtk_audio_terminate. rewrite Hi, Hloop. cbn [negb].
  destruct Hm1 as (Hi1 & (Hh1 & Ht1 & _) & _).
  cbn in Hh1, Ht1.
  destruct plat_ok; cbn [negb]; eexists; (split; [reflexivity|]);
    (split; [apply heap_freed|]); (split; [exact Hs1|]);
    (split; [exact Hp1|]); cbn; auto.
Qed.

Lemma terminate_closes_maintained_sounds_witness :
  exists a',
    Sounds.priv_rbtk_audio_terminate 1 true Sounds.maintaining
      Sounds.maintaining_world
    = Done (true, a', Sounds.freed [0%nat] Sounds.maintaining_world)
    /\ heap (Sounds.freed [0%nat] Sounds.maintaining_world) = []
    /\ Sounds.sounds a' 0%nat = Some (Sounds.mkSound true NULL)
    /\ Sounds.plat_closed a' = [0%nat].
Proof.
  destruct (terminate_closes_maintained_sounds Sounds.maintaining
              Sounds.maintaining_world [0%nat] 1 true maintains_maintaining)
    as (a' & H1 & _ & H3 & H4 & _).
  - apply Nat.le_refl.
  - exists a'. split; [exact H1|]. split; [reflexivity|].
    split; [rewrite (H3 0%nat); reflexivity|exact H4].
Defined.
